(** * PRISM: work partitioning, checkpoint store, batch processor and worker status

    A shallow embedding of the parts of the PRISM orchestrator that plan row
    ranges ([O_orchestrator.py]), store and merge checkpoints
    ([S_serializer.py]), process batches ([P_processor.py]) and report worker
    status ([W_worker.py]), with the monitor ([M_monitor.py]), the call
    estimate of [runner.py] and the orchestrator's reading of the status
    files, followed by the properties established for them.

    Python integers are unbounded, so they are embedded as [Z]; [//] and [%]
    are floor division and the matching remainder, which is what [Z.div] and
    [Z.modulo] compute.  A raised exception is an explicit [None] or an error
    constructor of the result type. *)

From Stdlib Require Import ZArith Lia Ascii.
From stdpp Require Import base option list list_numbers sorting gmap strings pretty.

Local Open Scope Z_scope.
Set Warnings "-register-all".

(** ** Part I: the embedded program *)


(** *** Python built-ins used by the program

    Strings are byte strings: the whitespace and digit classes below are the
    ASCII ones, non-ASCII text is outside the model. *)
Module Py.

(** [str.isspace] on one ASCII character. *)
Definition is_space (c : ascii) : bool :=
  match c with
  | "009" | "010" | "011" | "012" | "013"
  | "028" | "029" | "030" | "031" | " " => true
  | _ => false
  end%char.

Fixpoint lstrip (s : string) : string :=
  match s with
  | String c s' => if is_space c then lstrip s' else s
  | EmptyString => EmptyString
  end.

(** [s.strip()] *)
Definition strip (s : string) : string :=
  String.rev (lstrip (String.rev (lstrip s))).

(** [s.startswith(p)] *)
Fixpoint startswith (p s : string) : bool :=
  match p, s with
  | EmptyString, _ => true
  | String a p', String b s' => bool_decide (a = b) && startswith p' s'
  | String _ _, EmptyString => false
  end.

(** [s.endswith(p)] *)
Definition endswith (p s : string) : bool :=
  startswith (String.rev p) (String.rev s).

(** [s.find(c)] for a one-character [c]; [None] is Python's [-1]. *)
Fixpoint find (c : ascii) (s : string) : option nat :=
  match s with
  | EmptyString => None
  | String a s' => if bool_decide (a = c) then Some 0%nat else S <$> find c s'
  end.

(** [s.rfind(c)] *)
Fixpoint rfind (c : ascii) (s : string) : option nat :=
  match s with
  | EmptyString => None
  | String a s' =>
      match rfind c s' with
      | Some i => Some (S i)
      | None => if bool_decide (a = c) then Some 0%nat else None
      end
  end.

Fixpoint drop (n : nat) (s : string) : string :=
  match n, s with
  | S n', String _ s' => drop n' s'
  | _, _ => s
  end.

Fixpoint take (n : nat) (s : string) : string :=
  match n, s with
  | S n', String a s' => String a (take n' s')
  | _, _ => EmptyString
  end.

(** [s[i:j]] for non-negative bounds; empty when [j <= i]. *)
Definition slice (i j : nat) (s : string) : string := take (j - i) (drop i s).

(** [len(s)] *)
Fixpoint len (s : string) : nat :=
  match s with EmptyString => 0%nat | String _ s' => S (len s') end.

(** [s.split(sep)] for a non-empty separator: pieces between successive
    non-overlapping occurrences of [sep], scanning left to right.  [skip]
    counts the characters of a matched separator still to be passed over and
    [cur] is the current piece, reversed. *)
Fixpoint split_go (sep s : string) (skip : nat) (cur : string) : list string :=
  match s with
  | EmptyString => [String.rev cur]
  | String c s' =>
      match skip with
      | S k => split_go sep s' k cur
      | O =>
          if startswith sep s
          then String.rev cur :: split_go sep s' (len sep - 1) EmptyString
          else split_go sep s' 0 (String c cur)
      end
  end.

Definition split (sep s : string) : list string := split_go sep s 0 EmptyString.

(** Digits of an [int] literal, with single underscores allowed between
    digits. *)
Fixpoint int_digits (s : string) (acc : Z) (after_digit : bool) : option Z :=
  match s with
  | EmptyString => if after_digit then Some acc else None
  | String c s' =>
      match Ascii.is_nat c with
      | Some d => int_digits s' (10 * acc + Z.of_nat d) true
      | None =>
          if bool_decide (c = "_"%char) && after_digit
          then int_digits s' acc false
          else None
      end
  end.

(** [int(s)]: surrounding whitespace, an optional sign, decimal digits;
    [None] is ValueError. *)
Definition int (s : string) : option Z :=
  match strip s with
  | String "-" s' => Z.opp <$> int_digits s' 0 false
  | String "+" s' => int_digits s' 0 false
  | s' => int_digits s' 0 false
  end.

(** [c.lower()] and [s.lower()] on ASCII letters. *)
Definition lower_char (c : ascii) : ascii :=
  let n := Ascii.nat_of_ascii c in
  if bool_decide (65 ≤ n)%nat && bool_decide (n ≤ 90)%nat
  then Ascii.ascii_of_nat (n + 32) else c.

Fixpoint lower (s : string) : string :=
  match s with
  | EmptyString => EmptyString
  | String c s' => String (lower_char c) (lower s')
  end.

Fixpoint zeros (n : nat) : string :=
  match n with O => EmptyString | S n' => String "0" (zeros n') end.

(** [f"{z:04d}"]: zero padding to width 4, the sign counted in the width. *)
Definition fmt04 (z : Z) : string :=
  if decide (z < 0)
  then let d := pretty (Z.abs_N z) in
       String "-" (zeros (3 - len d) +:+ d)
  else let d := pretty (Z.to_N z) in
       zeros (4 - len d) +:+ d.

(** [max(l)] of a non-empty list; [None] is the ValueError of [max([])]. *)
Definition max (l : list Z) : option Z :=
  match l with
  | [] => None
  | x :: l' => Some (foldl Z.max x l')
  end.

End Py.

(** *** Values, tables and the disk *)
Module Data.

(** A JSON value as [json.loads] returns it, which is also what a table cell
    holds.  [JObj kvs] is the dict whose lookup is the first match in [kvs];
    [JFloat] carries the IEEE-754 bit pattern of a float. *)
Inductive json :=
| JNull
| JBool (b : bool)
| JInt (z : Z)
| JFloat (bits : Z)
| JStr (s : string)
| JArr (l : list json)
| JObj (kvs : list (string * json)).

(** [j == s] for a string literal [s]: only a string equals a string. *)
Definition eq_str (j : json) (s : string) : bool :=
  match j with JStr s' => bool_decide (s' = s) | _ => false end.

(** [j in [s1, ..., sn]] for string literals. *)
Definition in_strs (j : json) (ss : list string) : bool :=
  existsb (eq_str j) ss.

(** Truth value of a JSON value in a Python condition. *)
Definition truthy (j : json) : bool :=
  match j with
  | JNull => false
  | JBool b => b
  | JInt z => negb (bool_decide (z = 0))
  | JFloat bits => negb (bool_decide (bits = 0) || bool_decide (bits = 2 ^ 63))
  | JStr s => negb (bool_decide (s = EmptyString))
  | JArr l => match l with [] => false | _ => true end
  | JObj kvs => match kvs with [] => false | _ => true end
  end.

Fixpoint assoc (kvs : list (string * json)) (k : string) : option json :=
  match kvs with
  | [] => None
  | (k', v) :: kvs' => if bool_decide (k' = k) then Some v else assoc kvs' k
  end.

(** A DataFrame is embedded as the list of its rows in order, each row a
    finite map from column name to cell.  CSV encoding is not modelled: a
    file holds the table that was written to it. *)
Abbreviation DataFrame := (list (gmap string json)).

(** A path is a directory and a file name in it. *)
Abbreviation path := (string * string)%type.

(** What [pd.read_csv] finds in a file: a table, or something it rejects. *)
Inductive File :=
| Garbage
| Csv (df : DataFrame).

(** The disk: the files present, and for each path whether the next write
    to it completes ([None]) or stops after [k] rows with an I/O error
    ([Some k]: disk full, file system error). *)
Record Disk := mkDisk {
  files : gmap path File;
  fault : path → option nat
}.

(** A call either returns a value or raises. *)
Inductive Result (A : Type) :=
| Ok (a : A)
| Raise.
Arguments Ok {A} a.
Arguments Raise {A}.

(** [pd.read_csv(p)]; [None] is any exception it raises. *)
Definition read_csv (d : Disk) (p : path) : option DataFrame :=
  match files d !! p with
  | Some (Csv df) => Some df
  | _ => None
  end.

(** [df.to_csv(p, index=False)]: the destination is opened for writing and
    the rows are streamed into it.  A faulting write raises and leaves the
    rows written so far under the destination name (nothing readable when
    no row was written). *)
Definition to_csv (df : DataFrame) (p : path) (d : Disk) : Result unit * Disk :=
  match fault d p with
  | None => (Ok (), mkDisk (<[p := Csv df]> (files d)) (fault d))
  | Some k =>
      let left_behind := match k with O => Garbage | _ => Csv (take k df) end in
      (Raise, mkDisk (<[p := left_behind]> (files d)) (fault d))
  end.

End Data.

(** *** O_orchestrator.py *)
Module Orchestrator.

(** A planned range: the dict [{'start': .., 'end': .., 'worker_id': ..}]. *)
Record Range := mkRange { start : Z; end_ : Z; worker_id : Z }.

#[global] Instance Range_eq_dec : EqDecision Range.
Proof. solve_decision. Defined.

(** One iteration of the loop body of [calculate_row_ranges]: the loop state
    is the running [start] and the list [ranges] built so far. *)
Definition range_step (rows_per_worker remainder : Z)
    (st : Z * list Range) (i : Z) : Z * list Range :=
  let '(start, ranges) := st in
  let extra := if decide (i < remainder) then 1 else 0 in
  let end_ := start + rows_per_worker + extra - 1 in
  (end_ + 1, ranges ++ [mkRange start end_ (i + 1)]).

(** [calculate_row_ranges(total_rows, num_workers)].  [num_workers = 0]
    raises ZeroDivisionError on the first line; [range(num_workers)] is
    empty for a negative count. *)
Definition calculate_row_ranges (total_rows num_workers : Z)
    : option (list Range) :=
  if decide (num_workers = 0) then None
  else
    let rows_per_worker := total_rows `div` num_workers in
    let remainder := total_rows `mod` num_workers in
    Some (snd (foldl (range_step rows_per_worker remainder) (1, [])
                     (seqZ 0 num_workers))).

(** The rows a range owns: [start, start+1, ..., end]; none if [end < start]. *)
Definition rows_of (r : Range) : list Z := seqZ (start r) (end_ r - start r + 1).

Definition range_len (r : Range) : Z := end_ r - start r + 1.

Definition nonempty (r : Range) : Prop := start r ≤ end_ r.

(** Each range begins right after the previous one ends. *)
Definition contiguous (rs : list Range) : Prop :=
  ∀ (i : nat) r r', rs !! i = Some r → rs !! S i = Some r' →
                    start r' = end_ r + 1.

Definition sum_len (rs : list Range) : Z := foldr Z.add 0 (range_len <$> rs).

(** Closed form of the range planned at position [i] (from 0), for base
    size [q] and remainder [m]. *)
Definition nth_range (q m i : Z) : Range :=
  mkRange (1 + i * q + Z.min i m) ((i + 1) * q + Z.min (i + 1) m) (i + 1).

(** The [parallelization] section of the configuration.  A manual range
    is the dict the configuration gives; [get_row_ranges] overwrites its
    [worker_id]. *)
Record Parallelization := mkParallelization {
  enabled : bool;
  split_strategy : string;
  workers : Z;
  manual_ranges : list Range
}.

(** [get_row_ranges(input_file)], [input_rows] being [len(pd.read_csv(
    input_file))] or [None] when reading raises.  The file is read only when
    the row count is needed; [None] is an exception: the failed read, the
    ZeroDivisionError of zero workers, or the ValueError of an unknown
    strategy. *)
Definition get_row_ranges (parallelization : Parallelization)
    (input_rows : option Z) : option (list Range) :=
  if negb (enabled parallelization) then
    input_rows ≫= λ n, Some [mkRange 1 n 1]
  else if bool_decide (split_strategy parallelization = "manual") then
    Some (imap (λ i r, mkRange (start r) (end_ r) (Z.of_nat i + 1))
               (manual_ranges parallelization))
  else if bool_decide (split_strategy parallelization = "auto") then
    input_rows ≫= λ n, calculate_row_ranges n (workers parallelization)
  else None.

End Orchestrator.


(** *** S_serializer.py *)
Module Serializer.
Import Data.

(** The two attributes of a [Serializer] object. *)
Record Serializer := mkSerializer {
  checkpoint_dir : string;
  checkpoint_interval : Z
}.

Definition checkpoint_prefix (job_id : string) : string :=
  "checkpoint_" +:+ job_id +:+ "_part".

(** [get_checkpoint_filename]:
    [checkpoint_dir / f"checkpoint_{job_id}_part{checkpoint_num:04d}.csv"]. *)
Definition get_checkpoint_filename (self : Serializer) (job_id : string)
    (checkpoint_num : Z) : path :=
  (checkpoint_dir self,
   checkpoint_prefix job_id +:+ Py.fmt04 checkpoint_num +:+ ".csv").

(** The characters [Path.glob] does not take literally: the wildcards [*]
    and [?], the brackets of a character set, and the separators that split
    a pattern into path components. *)
Definition glob_special : list ascii :=
  ["*"; "?"; "["; "]"; "/"; ascii_of_nat 92]%char.

(** No character of [s] is special in a glob pattern. *)
Fixpoint glob_literal (s : string) : bool :=
  match s with
  | EmptyString => true
  | String c s' => negb (bool_decide (c ∈ glob_special)) && glob_literal s'
  end.

(** A file name matches [f"checkpoint_{job_id}_part*.csv"], the job id being
    read literally, so that the only wildcard is the [*] after [_part].
    This is how [Path.glob] reads the pattern when [glob_literal job_id]
    holds.  The code does not sanitise job ids: the worker's run id and the
    model tag reach them as given on the command line and in the
    configuration.  For a job id with a special character the pattern
    matches other names, and a result that needs a part to match the
    pattern of its own job carries [glob_literal job_id] as a hypothesis;
    the results that hold for any way of matching do not. *)
Definition glob_match (job_id name : string) : bool :=
  Py.startswith (checkpoint_prefix job_id) name
  && Py.endswith ".csv" (Py.drop (Py.len (checkpoint_prefix job_id)) name).

(** [self.checkpoint_dir.glob(f"checkpoint_{job_id}_part*.csv")], in the
    order the directory is listed. *)
Definition glob (self : Serializer) (job_id : string) (d : Disk) : list path :=
  filter (λ p, p.1 = checkpoint_dir self ∧ glob_match job_id p.2 = true)
         (fst <$> map_to_list (files d)).

(** [Path.stem]: the name without its last suffix. *)
Definition stem (name : string) : string :=
  match Py.rfind "." name with
  | Some i =>
      if bool_decide (0 < i)%nat && bool_decide (i < Py.len name - 1)%nat
      then Py.take i name else name
  | None => name
  end.

(** [int(f.stem.split('part')[1])]; [None] when the index or the conversion
    raises. *)
Definition part_number (f : path) : option Z :=
  Py.split "part" (stem f.2) !! 1%nat ≫= Py.int.

(** The [checkpoint_nums] list: candidates whose number does not parse are
    skipped by the [try]/[except: continue]. *)
Definition checkpoint_nums (self : Serializer) (job_id : string) (d : Disk)
    : list Z :=
  omap part_number (glob self job_id d).

(** [df['RowID'].iloc[-1]]; [None] when the column or the row is missing. *)
Definition last_row_id (df : DataFrame) : option json :=
  last df ≫= (λ row, row !! "RowID").

(** [find_last_checkpoint]: Python's [(None, 0)] is [(None, JInt 0)]. *)
Definition find_last_checkpoint (self : Serializer) (job_id : string) (d : Disk)
    : option path * json :=
  let checkpoint_files := glob self job_id d in
  match checkpoint_files with
  | [] => (None, JInt 0)
  | _ =>
      match Py.max (omap part_number checkpoint_files) with
      | None => (None, JInt 0)
      | Some last_num =>
          let last_file := get_checkpoint_filename self job_id last_num in
          match read_csv d last_file ≫= last_row_id with
          | Some row_id => (Some last_file, row_id)
          | None => (None, JInt 0)
          end
      end
  end.

(** [for key, value in metadata.items(): df_chunk[key] = value], under
    [if metadata:]: each metadata entry becomes a constant column. *)
Definition add_metadata (metadata : option (gmap string json))
    (df_chunk : DataFrame) : DataFrame :=
  match metadata with
  | Some md => if decide (size md = 0%nat) then df_chunk
               else (λ row, md ∪ row) <$> df_chunk
  | None => df_chunk
  end.

(** [save_checkpoint]: the metadata columns are added, then the chunk goes
    with one [to_csv] to the part's own path. *)
Definition save_checkpoint (self : Serializer) (df_chunk : DataFrame)
    (job_id : string) (checkpoint_num : Z)
    (metadata : option (gmap string json)) (d : Disk) : Result path * Disk :=
  let checkpoint_file := get_checkpoint_filename self job_id checkpoint_num in
  match to_csv (add_metadata metadata df_chunk) checkpoint_file d with
  | (Ok _, d') => (Ok checkpoint_file, d')
  | (Raise, d') => (Raise, d')
  end.

(** [list_checkpoints]: the matching files, sorted by name. *)
Definition list_checkpoints (self : Serializer) (job_id : string) (d : Disk)
    : list path :=
  (λ name, (checkpoint_dir self, name))
    <$> merge_sort String.le (snd <$> glob self job_id d).

(** [merge_checkpoints]: parts that fail to load are skipped; the output is
    written only when at least one part loaded. *)
Definition merge_checkpoints (self : Serializer) (job_id : string)
    (output_path : path) (d : Disk) : Result bool * Disk :=
  let checkpoint_files := list_checkpoints self job_id d in
  match checkpoint_files with
  | [] => (Ok false, d)
  | _ =>
      let dfs := omap (read_csv d) checkpoint_files in
      match dfs with
      | [] => (Ok false, d)
      | _ =>
          let final_df := concat dfs in
          match to_csv final_df output_path d with
          | (Ok _, d') => (Ok true, d')
          | (Raise, d') => (Raise, d')
          end
      end
  end.

(** [should_checkpoint]: [None] is the ZeroDivisionError of a zero
    interval. *)
Definition should_checkpoint (self : Serializer)
    (current_row_count total_rows : Z) : option bool :=
  if decide (checkpoint_interval self = 0) then None
  else Some (bool_decide (current_row_count `mod` checkpoint_interval self = 0)
             || bool_decide (current_row_count = total_rows)).

(** [cleanup_checkpoints]: nothing when [keep_merged]; otherwise every
    listed part is removed ([os.remove] is taken to succeed; a failure is
    swallowed by the code and leaves that file in place). *)
Definition cleanup_checkpoints (self : Serializer) (job_id : string)
    (keep_merged : bool) (d : Disk) : Disk :=
  if keep_merged then d
  else mkDisk (foldl (λ fs f, delete f fs) (files d)
                     (list_checkpoints self job_id d))
              (fault d).

(** [get_resume_point(job_id, df)], for a frame given as the list of its
    rows with [RowID] reading a row's [RowID] cell as an integer.  The rows
    kept are those with [df['RowID'] > last_row_id], in order.  When the
    last RowID read from the part is not an integer, the comparison is not
    modelled ([None]). *)
Definition get_resume_point {A} (RowID : A → Z) (self : Serializer)
    (job_id : string) (df : list A) (d : Disk)
    : option (list A * json * bool) :=
  match find_last_checkpoint self job_id d with
  | (Some last_checkpoint, JInt last_row_id) =>
      Some (filter (λ row, last_row_id < RowID row) df, JInt last_row_id, true)
  | (Some last_checkpoint, _) => None
  | (None, _) => Some (df, JInt 0, false)
  end.

End Serializer.


(** *** P_processor.py *)
Module Processor.
Import Data.

(** An input row.  Only [RowID] and [Sentiment] reach the checkpoint; the
    other columns are prompt material. *)
Record Row := mkRow { RowID : Z; Sentiment : json; Title : json; Message : json }.

(** A processed record: the dict from output column to value. *)
Abbreviation Rec := (gmap string json).

(** What one [client.chat] call yields: the message content, or an
    exception raised by the call, the statistics bookkeeping or the content
    lookup. *)
Inductive Response :=
| ChatError
| Content (json_string : string).

(** The throughput figures of [_build_metrics]; they are clock readings and
    float arithmetic, supplied by the world. *)
Record Metrics := mkMetrics {
  rows_per_sec : json;
  tokens_per_sec : json;
  avg_tokens_per_row : json;
  tokens_total : json
}.

(** The collaborators outside the program.  The model client is
    deterministic in the order of its calls only: [chat k] is the outcome of
    the [k]-th call, whatever the prompt was, so the prompt text itself is
    not built here.  [pause_ends i] says whether the pause wait before batch
    [i] ever ends. *)
Record World := mkWorld {
  chat : nat → Response;
  json_loads : string → option json;
  build_metrics : nat → Metrics;
  round4 : json → json;
  pause_ends : nat → bool
}.

(** The attributes of a [Processor] that the processing code reads.
    [delay] is left out: it is read only by the sleep between two attempts,
    [time.sleep(self.delay * (attempt + 1))], which returns for a delay of
    0 or more and raises ValueError for a negative one.  The retry loops
    below are the code for a non-negative delay; with [retries] at 1 there
    is no sleep at all and they are the code for any delay. *)
Record Processor := mkProcessor {
  retries : Z;
  validation_rules : gmap string json;
  columns_to_code : list string;
  not_applicable_defaults : Rec
}.

Section processor.
Variable self : Processor.
Variable w : World.

(** [self.columns_to_code[0] if self.columns_to_code else None], and its
    use as a condition: a missing or empty name is false. *)
Definition first_column : option string := head (columns_to_code self).

(** [first_column and result.get(first_column) == v]; [None] is the
    AttributeError of [.get] on a value that is not a dict. *)
Definition first_column_is (result : json) (v : string) : option bool :=
  match first_column with
  | None => Some false
  | Some c =>
      if bool_decide (c = EmptyString) then Some false
      else match result with
           | JObj kvs => Some (from_option (λ x, eq_str x v) false (assoc kvs c))
           | _ => None
           end
  end.

(** [{col: result.get(col, "ERROR_MISSING_KEY") for col in columns}],
    built by the [for] loop. *)
Definition extract_columns (result : json) : option Rec :=
  match columns_to_code self with
  | [] => Some ∅
  | cols =>
      match result with
      | JObj kvs =>
          Some (foldl (λ (processed_data : Rec) col,
                         <[col := default (JStr "ERROR_MISSING_KEY") (assoc kvs col)]>
                           processed_data) ∅ cols)
      | _ => None
      end
  end.

Definition get_or_empty (processed_data : Rec) (col : string) : json :=
  default (JStr "") (processed_data !! col).

Definition has_key (processed_data : Rec) (col : string) : bool :=
  bool_decide (is_Some (processed_data !! col)).

(** Step 1 of [validate_processed_data]: with the first column at ['N'],
    every other configured column becomes ['-'] unless it already is ['-']
    or ['ERROR_MISSING_KEY']. *)
Definition enforce_not_related (processed_data : Rec) : Rec :=
  foldl (λ (pd : Rec) col,
           if negb (in_strs (get_or_empty pd col) ["-"; "ERROR_MISSING_KEY"])
           then <[col := JStr "-"]> pd else pd)
        processed_data (tail (columns_to_code self)).

(** Step 2, first rule: Comparative_Mention against Competitor_Named. *)
Definition enforce_comparative (pd : Rec) : Rec :=
  if has_key pd "Comparative_Mention" && has_key pd "Competitor_Named" then
    if eq_str (get_or_empty pd "Comparative_Mention") "Y" then
      if in_strs (get_or_empty pd "Competitor_Named") ["NONE"; "-"; ""]
      then <["Competitor_Named" := JStr "Other"]> pd else pd
    else if eq_str (get_or_empty pd "Comparative_Mention") "N" then
      let pd :=
        if negb (eq_str (get_or_empty pd "Competitor_Named") "NONE")
        then <["Competitor_Named" := JStr "NONE"]> pd else pd in
      if has_key pd "Competitive_Position"
         && negb (eq_str (get_or_empty pd "Competitive_Position") "-")
      then <["Competitive_Position" := JStr "-"]> pd else pd
    else pd
  else pd.

(** Step 2, second rule: Abandonment_Mentioned against Abandonment_Reason. *)
Definition enforce_abandonment (pd : Rec) : Rec :=
  if has_key pd "Abandonment_Mentioned" && has_key pd "Abandonment_Reason" then
    if eq_str (get_or_empty pd "Abandonment_Mentioned") "N"
       && negb (eq_str (get_or_empty pd "Abandonment_Reason") "NONE")
    then <["Abandonment_Reason" := JStr "NONE"]> pd else pd
  else pd.

(** The rule found for a column: the value under the first of the four
    key spellings that is present. *)
Definition find_valid_values (col : string) : option json :=
  let col_lower := Py.lower col in
  let possible_keys :=
    [ "valid_" +:+ col_lower; "valid_" +:+ col_lower +:+ "s";
      col_lower +:+ "_valid"; col_lower +:+ "_options" ] in
  head (omap (λ key, validation_rules self !! key) possible_keys).

(** Step 3 changes nothing and only logs, but its tests can raise:
    [value in valid_values] needs a container, and [value.startswith]
    needs [value] to be a string. *)
Definition check_column (pd : Rec) (col : string) : bool :=
  match find_valid_values col with
  | Some valid_values =>
      if truthy valid_values then
        match valid_values, get_or_empty pd col with
        | (JArr _ | JStr _ | JObj _), JStr _ => true
        | _, _ => false
        end
      else true
  | None => true
  end.

(** [validate_processed_data]; [None] when step 3 raises. *)
Definition validate_processed_data (processed_data : Rec) : option Rec :=
  let first_is_N :=
    match first_column with
    | Some c => negb (bool_decide (c = EmptyString))
                && from_option (λ x, eq_str x "N") false (processed_data !! c)
    | None => false
    end in
  if first_is_N then Some (enforce_not_related processed_data)
  else
    let pd := enforce_abandonment (enforce_comparative processed_data) in
    if forallb (check_column pd) (columns_to_code self) then Some pd else None.

(** What both processing paths do with one parsed object. *)
Definition process_result (result : json) : option Rec :=
  first_column_is result "NOT_APPLICABLE" ≫= λ na : bool,
  if na then Some (not_applicable_defaults self)
  else extract_columns result ≫= validate_processed_data.

(** The body of the [try] in [process_single_row]. *)
Definition single_attempt (r : Response) : option Rec :=
  match r with
  | ChatError => None
  | Content json_string =>
      let json_string := Py.strip json_string in
      let data_dict :=
        match json_loads w json_string with
        | Some j => Some j
        | None =>
            match Py.find "{" json_string, Py.rfind "}" json_string with
            | Some start_index, Some end_index =>
                json_loads w (Py.slice start_index (end_index + 1) json_string)
            | _, _ => None
            end
        end in
      data_dict ≫= process_result
  end.

Definition all_retries_failed : Rec :=
  foldl (λ (r : Rec) col, <[col := JStr "ERROR_ALL_RETRIES_FAILED"]> r)
        ∅ (columns_to_code self).

(** The retry loop of [process_single_row], [remaining] attempts left and
    [n] calls made to the client so far.  The loop falls through, and the
    function returns Python's [None], only when there is no attempt at
    all.  Between a failed attempt and the next one the code sleeps; the
    sleep is taken to return (a non-negative [delay]). *)
Fixpoint single_row_loop (remaining n : nat) : option Rec * nat :=
  match remaining with
  | O => (None, n)
  | S k =>
      match single_attempt (chat w n) with
      | Some processed => (Some processed, S n)
      | None =>
          match k with
          | O => (Some all_retries_failed, S n)
          | S _ => single_row_loop k (S n)
          end
      end
  end.

Definition process_single_row (row : Row) (n : nat) : option Rec * nat :=
  single_row_loop (Z.to_nat (retries self)) n.

(** The parsing stage of [process_batch]: whole string first (a dict is
    wrapped into a list), then the outermost [[...]] span, then the
    outermost [{...}] span wrapped into a list. *)
Definition parse_results_array (json_string : string) : option json :=
  match json_loads w json_string with
  | Some (JObj kvs) => Some (JArr [JObj kvs])
  | Some j => Some j
  | None =>
      match Py.find "[" json_string, Py.rfind "]" json_string with
      | Some start_index, Some end_index =>
          json_loads w (Py.slice start_index (end_index + 1) json_string)
      | _, _ =>
          match Py.find "{" json_string, Py.rfind "}" json_string with
          | Some start_index, Some end_index =>
              (λ single_result, JArr [single_result])
                <$> json_loads w (Py.slice start_index (end_index + 1) json_string)
          | _, _ => None
          end
      end
  end.

(** [len(x)]; numbers, booleans and null have none. *)
Definition py_len (x : json) : option nat :=
  match x with
  | JArr l => Some (length l)
  | JStr s => Some (Py.len s)
  | JObj kvs => Some (length (remove_dups (fst <$> kvs)))
  | _ => None
  end.

(** [x[i]] for an integer [i] within the length: a dict has no integer
    keys. *)
Definition py_index (x : json) (i : nat) : option json :=
  match x with
  | JArr l => l !! i
  | JStr s => match Py.slice i (S i) s with
              | EmptyString => None
              | c => Some (JStr c)
              end
  | _ => None
  end.

Definition batch_mismatch : json :=
  JObj ((λ col, (col, JStr "ERROR_BATCH_MISMATCH")) <$> columns_to_code self).

(** What the reconciliation loop and slice make of a list: error records
    appended while it is too short, then [[:batch_size]]. *)
Definition reconciled (batch_size : nat) (l : list json) : list json :=
  take batch_size (l ++ replicate (batch_size - length l) batch_mismatch).

(** The length reconciliation, entered when [len(results_array)] differs
    from [batch_size].  Only a list can be appended to, a dict cannot be
    sliced. *)
Definition reconcile (batch_size : nat) (results_array : json) : option json :=
  match results_array with
  | JArr l => Some (JArr (reconciled batch_size l))
  | JStr s =>
      if bool_decide (Py.len s < batch_size)%nat then None
      else Some (JStr (Py.take batch_size s))
  | _ => None
  end.

(** The body of the [try] in [process_batch]. *)
Definition batch_attempt (batch_size : nat) (r : Response) : option (list Rec) :=
  match r with
  | ChatError => None
  | Content json_string =>
      parse_results_array (Py.strip json_string) ≫= λ results_array,
      py_len results_array ≫= λ n,
      (if bool_decide (n = batch_size) then Some results_array
       else reconcile batch_size results_array) ≫= λ results_array,
      mapM (λ i, py_index results_array i ≫= process_result) (seq 0 batch_size)
  end.

(** The fallback of [process_batch]: every row through
    [process_single_row], in order. *)
Fixpoint fallback (rows : list Row) (n : nat) : list (option Rec) * nat :=
  match rows with
  | [] => ([], n)
  | row :: rows' =>
      let '(result, n) := process_single_row row n in
      let '(rest, n) := fallback rows' n in
      (result :: rest, n)
  end.

(** The retry loop of [process_batch]; the result is Python's [None] only
    when there is no attempt at all.  As in [single_row_loop], the sleep
    between a failed attempt and the next one is taken to return. *)
Fixpoint batch_loop (rows : list Row) (remaining n : nat)
    : option (list (option Rec)) * nat :=
  match remaining with
  | O => (None, n)
  | S k =>
      match batch_attempt (length rows) (chat w n) with
      | Some processed_results => (Some (Some <$> processed_results), S n)
      | None =>
          match k with
          | O => let '(fallback_results, n) := fallback rows (S n) in
                 (Some fallback_results, n)
          | S _ => batch_loop rows k (S n)
          end
      end
  end.

Definition process_batch (rows : list Row) (n : nat)
    : option (list (option Rec)) * nat :=
  batch_loop rows (Z.to_nat (retries self)) n.

End processor.

(** How a run of the processing loop ends: it returns, it raises, or it
    waits for ever on a pause that is never lifted.  Each carries the state
    reached. *)
Inductive Outcome (A : Type) :=
| Returned (a : A)
| Raised (a : A)
| Hangs (a : A).
Arguments Returned {A} a.
Arguments Raised {A} a.
Arguments Hangs {A} a.

(** The monitor interface [process_dataframe] relies on; a plain [Monitor]
    and the worker's [MonitorBridge] both provide it.  Logging is left out:
    it changes no state that the program reads back.  The two methods are
    taken to return; [Monitor.update_progress] reads the clock set by
    [start], which both callers call before [process_dataframe]. *)
Class Monitor (M : Type) := {
  update_progress : Z → Z → Z → Metrics → M → M;
  record_checkpoint : Z → path → M → M
}.

(** One completed call of [save_checkpoint]: the part number and table it
    was given, the path it returned, and [len(results)] at that moment. *)
Record Part := mkPart {
  part_num : Z;
  part_file : path;
  part_rows : DataFrame;
  rows_done : nat
}.

(** The state of [process_dataframe]: its local variables, the client call
    counter, the disk and the monitor.  [saved] is the history of completed
    [save_checkpoint] calls; the program does not read it. *)
Record Run (M : Type) := mkRun {
  results : list (option Rec);
  api_call_count : Z;
  last_checkpoint_row : nat;
  checkpoint_counter : Z;
  chat_calls : nat;
  disk : Disk;
  monitor : M;
  saved : list Part
}.
Arguments mkRun {M}.
Arguments results {M}.
Arguments api_call_count {M}.
Arguments last_checkpoint_row {M}.
Arguments checkpoint_counter {M}.
Arguments chat_calls {M}.
Arguments disk {M}.
Arguments monitor {M}.
Arguments saved {M}.

(** [row_indices[i:i + batch_size]] for [i] in [range(0, len, batch_size)]:
    consecutive groups of up to [n] elements. *)
Fixpoint chunks_go {A} (fuel n : nat) (l : list A) : list (list A) :=
  match fuel with
  | O => []
  | S fuel' =>
      match l with
      | [] => []
      | _ => take n l :: chunks_go fuel' n (drop n l)
      end
  end.

Definition chunks {A} (n : nat) (l : list A) : list (list A) :=
  chunks_go (length l) n l.

(** The input columns kept in a checkpoint, [['RowID', 'Sentiment']]. *)
Definition row_columns (row : Row) : gmap string json :=
  {[ "RowID" := JInt (RowID row); "Sentiment" := Sentiment row ]}.

(** The columns [pd.DataFrame(results)] gives a result; a [None] result has
    the single column [0]. *)
Definition result_columns (r : option Rec) : gmap string json :=
  match r with
  | Some processed => processed
  | None => {[ "0" := JNull ]}
  end.

(** [Serializer.prepare_checkpoint_data(results, indices, original_df,
    ['RowID', 'Sentiment'])].  Row labels are the positions in the frame.
    [None] is the KeyError of a missing label or the ValueError of a length
    mismatch between results and labels.  The configured output columns are
    taken to differ from [RowID] and [Sentiment]; on a clash the input
    column is the one read under that name. *)
Definition prepare_checkpoint_data (results : list (option Rec))
    (indices : list nat) (original_df : list Row) : option DataFrame :=
  mapM (λ i, original_df !! i) indices ≫= λ checkpoint_df,
  if bool_decide (length results = length indices)
  then Some (zip_with (λ row r, row_columns row ∪ result_columns r)
                      checkpoint_df results)
  else None.

Section dataframe.
Context {M : Type} `{Monitor M}.
Variable self : Processor.
Variable w : World.
Variable df : list Row.
Variable batch_size : Z.
Variable serializer : Serializer.Serializer.
Variable job_id : string.
Variable metadata : gmap string json.
Variable pause_event : bool.

Definition row_indices : list nat := seq 0 (length df).
Definition total_rows : nat := length df.

Definition round_opt (v : json) : json :=
  match v with JNull => JNull | _ => round4 w v end.

(** [dict(metadata)] updated with the four throughput columns. *)
Definition checkpoint_metadata (metrics : Metrics) : gmap string json :=
  <["Tokens_Total" := tokens_total metrics]>
  (<["Avg_Tokens_Per_Row" := round_opt (avg_tokens_per_row metrics)]>
  (<["Tokens_Per_Sec" := round_opt (tokens_per_sec metrics)]>
  (<["Rows_Per_Sec" := round4 w (rows_per_sec metrics)]> metadata))).

(** The body of [if serializer.should_checkpoint(...)] after the progress
    push: save the results since the last checkpoint as the next part. *)
Definition checkpoint (current_row_num : nat) (metrics : Metrics)
    (st : Run M) : Outcome (Run M) :=
  let new_results_count := (current_row_num - last_checkpoint_row st)%nat in
  if bool_decide (0 < new_results_count)%nat then
    let checkpoint_results :=
      drop (length (results st) - new_results_count) (results st) in
    let checkpoint_indices :=
      take (current_row_num - last_checkpoint_row st)
           (drop (last_checkpoint_row st) row_indices) in
    match prepare_checkpoint_data checkpoint_results checkpoint_indices df with
    | None => Raised st
    | Some checkpoint_data =>
        let checkpoint_counter := checkpoint_counter st + 1 in
        match Serializer.save_checkpoint serializer checkpoint_data job_id
                checkpoint_counter (Some (checkpoint_metadata metrics))
                (disk st) with
        | (Ok checkpoint_file, d) =>
            Returned
              (mkRun (results st) (api_call_count st) current_row_num
                     checkpoint_counter (chat_calls st) d
                     (record_checkpoint checkpoint_counter checkpoint_file
                                        (monitor st))
                     (saved st ++ [mkPart checkpoint_counter checkpoint_file
                                          checkpoint_data current_row_num]))
        | (Raise, d) =>
            Raised (mkRun (results st) (api_call_count st)
                          (last_checkpoint_row st) checkpoint_counter
                          (chat_calls st) d (monitor st) (saved st))
        end
    end
  else Returned st.

(** The trailing progress update of an iteration. *)
Definition progress_update (current_row_num : nat) (metrics : Metrics)
    (st : Run M) : Run M :=
  if bool_decide (0 < total_rows)%nat then
    let update_frequency := Z.max batch_size (Z.of_nat total_rows `div` 20) in
    if bool_decide (Z.of_nat current_row_num `mod` update_frequency = 0)
       || bool_decide (current_row_num = total_rows)
    then mkRun (results st) (api_call_count st) (last_checkpoint_row st)
               (checkpoint_counter st) (chat_calls st) (disk st)
               (update_progress (Z.of_nat current_row_num) (Z.of_nat total_rows)
                                (api_call_count st) metrics (monitor st))
               (saved st)
    else st
  else st.

(** One iteration of the [for] loop, for the batch with number
    [batch_no] and labels [batch_indices]. *)
Definition process_one_batch (batch_no : nat) (batch_indices : list nat)
    (st : Run M) : Outcome (Run M) :=
  match mapM (λ i, df !! i) batch_indices with
  | None => Raised st
  | Some batch_df =>
      if pause_event && negb (pause_ends w batch_no) then Hangs st
      else
        let '(batch_results, n) :=
          if bool_decide (batch_size = 1) then
            match batch_df with
            | row :: _ =>
                let '(processed_data, n) :=
                  process_single_row self w row (chat_calls st) in
                (Some [processed_data], n)
            | [] => (None, chat_calls st)
            end
          else process_batch self w batch_df (chat_calls st) in
        match batch_results with
        | None =>
            Raised (mkRun (results st) (api_call_count st)
                          (last_checkpoint_row st) (checkpoint_counter st) n
                          (disk st) (monitor st) (saved st))
        | Some batch_results =>
            let results := results st ++ batch_results in
            let api_call_count := api_call_count st + 1 in
            let current_row_num := length results in
            let metrics := build_metrics w current_row_num in
            let st := mkRun results api_call_count (last_checkpoint_row st)
                            (checkpoint_counter st) n (disk st) (monitor st)
                            (saved st) in
            match Serializer.should_checkpoint serializer
                    (Z.of_nat current_row_num) (Z.of_nat total_rows) with
            | None => Raised st
            | Some true =>
                let st := mkRun results api_call_count (last_checkpoint_row st)
                            (checkpoint_counter st) n (disk st)
                            (update_progress (Z.of_nat current_row_num)
                               (Z.of_nat total_rows) api_call_count metrics
                               (monitor st))
                            (saved st) in
                match checkpoint current_row_num metrics st with
                | Returned st => Returned (progress_update current_row_num metrics st)
                | other => other
                end
            | Some false => Returned (progress_update current_row_num metrics st)
            end
        end
  end.

(** The [for] loop over the batches still to do. *)
Fixpoint run_batches (batch_no : nat) (batches : list (list nat))
    (st : Run M) : Outcome (Run M) :=
  match batches with
  | [] => Returned st
  | batch_indices :: batches' =>
      match process_one_batch batch_no batch_indices st with
      | Returned st' => run_batches (S batch_no) batches' st'
      | other => other
      end
  end.

(** [process_dataframe], started with [n] client calls already made, disk
    [d] and monitor [mon].  [range(0, len, 0)] raises ValueError; a
    negative step gives no iteration.  The returned pair
    [(results, api_call_count)] is read off the final state. *)
Definition process_dataframe (mon : M) (n : nat) (d : Disk) : Outcome (Run M) :=
  let st := mkRun [] 0 0%nat 0 n d mon [] in
  if decide (batch_size = 0) then Raised st
  else if decide (batch_size < 0) then Returned st
  else run_batches 0 (chunks (Z.to_nat batch_size) row_indices) st.

End dataframe.

(** The state an outcome carries. *)
Definition state_of {A} (o : Outcome A) : A :=
  match o with Returned a | Raised a | Hangs a => a end.

(** Every value bound in a record is [v]. *)
Definition all_values (v : json) (pd : Rec) : Prop :=
  ∀ k x, pd !! k = Some x → x = v.

Definition mismatch : json := JStr "ERROR_BATCH_MISMATCH".

(** Every validation rule that applies to a configured column is a list, a
    string or a dict, so that the test [value in valid_values] of step 3
    does not raise on a string. *)
Definition rules_iterable (self : Processor) : Prop :=
  ∀ col valid_values,
    col ∈ columns_to_code self →
    find_valid_values self col = Some valid_values →
    truthy valid_values = true →
    match valid_values with
    | JArr _ | JStr _ | JObj _ => True
    | _ => False
    end.

(** A JSON object whose value under every configured column that a
    validation rule applies to is a string (a missing key reads as the string
    ['ERROR_MISSING_KEY']). *)
Definition well_formed (self : Processor) (x : json) : Prop :=
  ∃ kvs, x = JObj kvs
    ∧ ∀ col valid_values,
        col ∈ columns_to_code self →
        find_valid_values self col = Some valid_values →
        truthy valid_values = true →
        ∃ s, default (JStr "ERROR_MISSING_KEY") (assoc kvs col) = JStr s.

(** The value read under [col] is a string. *)
Definition reads_string (pd : Rec) (col : string) : Prop :=
  ∃ s, get_or_empty pd col = JStr s.

(** **** Describing the parts a run has saved *)
Section parts.
Variable df : list Row.
Variable serializer : Serializer.Serializer.
Variable job_id : string.

(** [l[i:j]] for [i <= j]. *)
Definition rows_between {A} (i j : nat) (l : list A) : list A :=
  take (j - i) (drop i l).

(** The checkpoint table for the rows at positions [i .. j-1] and their
    results. *)
Definition part_table (results : list (option Rec)) (i j : nat) : DataFrame :=
  zip_with (λ row r, row_columns row ∪ result_columns r)
           (rows_between i j df) (rows_between i j results).

(** The parts that cutting the results at the positions [cuts] gives, the
    first one starting at position [prev] and numbered [num]. *)
Fixpoint expected_parts (results : list (option Rec)) (prev : nat) (num : Z)
    (cuts : list nat) : list Part :=
  match cuts with
  | [] => []
  | c :: cuts' =>
      mkPart num (Serializer.get_checkpoint_filename serializer job_id num)
             (part_table results prev c) c
      :: expected_parts results c (num + 1) cuts'
  end.

(** Each position is beyond the one before it, starting after [prev]. *)
Fixpoint increasing_from (prev : nat) (cuts : list nat) : Prop :=
  match cuts with
  | [] => True
  | c :: cuts' => (prev < c)%nat ∧ increasing_from c cuts'
  end.

Definition last_from (prev : nat) (cuts : list nat) : nat := default prev (last cuts).

(** The integer RowIDs found in the rows of a part. *)
Definition part_row_ids (p : Part) : list Z :=
  omap (λ row : gmap string json,
          match row !! "RowID" with Some (JInt z) => Some z | _ => None end)
       (part_rows p).

End parts.

(** [len(results)] after each batch, for [n] rows still to do after the
    first [k], in batches of [b]. *)
Fixpoint batch_ends_go (fuel b k n : nat) : list nat :=
  match fuel with
  | O => []
  | S fuel' =>
      match n with
      | O => []
      | _ => (k + b `min` n)%nat
             :: batch_ends_go fuel' b (k + b `min` n)%nat (n - b `min` n)%nat
      end
  end.

Definition batch_ends (b total : nat) : list nat := batch_ends_go total b 0 total.

(** The value [should_checkpoint] returns for a non-zero interval. *)
Definition is_cut (interval : Z) (total c : nat) : bool :=
  bool_decide (Z.of_nat c `mod` interval = 0) || bool_decide (c = total).

End Processor.

(** *** M_monitor.py *)
Module Monitor.
Import Data.

(** The [Monitor] attributes the program reads back: whether [start] has
    set [start_time], and the counters of [self.metrics]. *)
Record Monitor := mkMonitor {
  started : bool;
  total_rows : Z;
  processed_rows : Z;
  api_calls : Z;
  errors : Z;
  checkpoints : Z
}.

Definition init : Monitor := mkMonitor false 0 0 0 0 0.

Definition start (total_rows : Z) (self : Monitor) : Monitor :=
  mkMonitor true total_rows (processed_rows self) (api_calls self)
            (errors self) (checkpoints self).

(** [if api_calls:] keeps the old count for a zero. *)
Definition update_progress (current_row total_rows api_calls' : Z)
    (self : Monitor) : Monitor :=
  mkMonitor (started self) (Monitor.total_rows self) current_row
            (if decide (api_calls' = 0) then api_calls self else api_calls')
            (errors self) (checkpoints self).

Definition record_checkpoint (self : Monitor) : Monitor :=
  mkMonitor (started self) (total_rows self) (processed_rows self)
            (api_calls self) (errors self) (checkpoints self + 1).

(** [finish] subtracts [start_time] from the clock: a TypeError ([None])
    when [start] was never called. *)
Definition finish (self : Monitor) : option Monitor :=
  if started self then Some self else None.

#[global] Instance monitor_like : Processor.Monitor Monitor := {
  Processor.update_progress current_row total_rows api_calls _ self :=
    update_progress current_row total_rows api_calls self;
  Processor.record_checkpoint _ _ self := record_checkpoint self
}.

End Monitor.

(** *** runner.py *)
Module Runner.

(** [(row_count // batch_size) + (1 if row_count % batch_size else 0)];
    [None] is the ZeroDivisionError of a zero batch size. *)
Definition estimated_api_calls (row_count batch_size : Z) : option Z :=
  if decide (batch_size = 0) then None
  else Some (row_count `div` batch_size
             + (if decide (row_count `mod` batch_size = 0) then 0 else 1)).

(** The frame [main] hands to [process_dataframe].  The estimate above is
    computed on the selected slice [df_to_process]; only afterwards does
    [main] ask [get_resume_point], and when a checkpoint is found and the
    user confirms ([interface.confirm_resume]) it goes on with the rows
    after the last checkpointed RowID.  [None] where [get_resume_point] is
    not modelled. *)
Definition frame_to_process (serializer : Serializer.Serializer)
    (job_id : string) (df_to_process : list Processor.Row)
    (confirm_resume : bool) (d : Data.Disk) : option (list Processor.Row) :=
  Serializer.get_resume_point Processor.RowID serializer job_id df_to_process d
    ≫= λ '(df_remaining, last_row_id, has_checkpoint),
  Some (if has_checkpoint && confirm_resume then df_remaining
        else df_to_process).

End Runner.

(** *** W_worker.py *)
Module Worker.
Import Data.

Inductive State := initializing | running | completed | failed.

#[global] Instance State_eq_dec : EqDecision State.
Proof. solve_decision. Defined.

(** A WorkerStatus document.  The clock-derived fields (the timestamps,
    [eta_seconds] and the rounded [progress_pct]) are left out. *)
Record Status := mkStatus {
  worker_id : Z;
  state : State;
  row_start : Z;
  row_end : Z;
  current_row : Z;
  rows_processed : Z;
  total_rows : Z;
  api_calls : Z;
  rows_per_sec : json;
  tokens_per_sec : json;
  avg_tokens_per_row : json;
  tokens_total : json;
  errors : Z;
  last_error : option string;
  output_file : option path;
  checkpoints : list path
}.

(** A [WorkerStatus] object: the dict [self.status], and every document
    [save] has written to the status file, oldest first.  A write that fails
    is swallowed by [save]; writes are taken to succeed. *)
Record WorkerStatus := mkWorkerStatus {
  status : Status;
  written : list Status
}.

Definition save (self : WorkerStatus) : WorkerStatus :=
  mkWorkerStatus (status self) (written self ++ [status self]).

(** [update] with keyword arguments: [f] is their effect on the dict. *)
Definition update (f : Status → Status) (self : WorkerStatus) : WorkerStatus :=
  save (mkWorkerStatus (f (status self)) (written self)).

(** [WorkerStatus.__init__] *)
Definition new (worker_id : Z) : WorkerStatus :=
  save (mkWorkerStatus
          (mkStatus worker_id initializing 0 0 0 0 0 0 JNull JNull JNull JNull
                    0 None None [])
          []).

Definition set_rows (row_start row_end : Z) (s : Status) : Status :=
  mkStatus (worker_id s) (state s) row_start row_end (current_row s)
           (rows_processed s) (total_rows s) (api_calls s) (rows_per_sec s)
           (tokens_per_sec s) (avg_tokens_per_row s) (tokens_total s)
           (errors s) (last_error s) (output_file s) (checkpoints s).

Definition set_running (row_start row_end total_rows : Z)
    (self : WorkerStatus) : WorkerStatus :=
  update (λ s, mkStatus (worker_id s) running row_start row_end row_start
                        (rows_processed s) total_rows (api_calls s)
                        (rows_per_sec s) (tokens_per_sec s)
                        (avg_tokens_per_row s) (tokens_total s)
                        (errors s) (last_error s) (output_file s)
                        (checkpoints s)) self.

(** [set_progress]: one document for the counters and, when metrics are
    given, a second one for the throughput fields. *)
Definition set_progress (current_row' rows_processed' api_calls' : Z)
    (metrics : option Processor.Metrics) (self : WorkerStatus) : WorkerStatus :=
  let self :=
    update (λ s, mkStatus (worker_id s) (state s) (row_start s) (row_end s)
                          current_row' rows_processed' (total_rows s) api_calls'
                          (rows_per_sec s) (tokens_per_sec s)
                          (avg_tokens_per_row s) (tokens_total s)
                          (errors s) (last_error s) (output_file s)
                          (checkpoints s)) self in
  match metrics with
  | Some m =>
      update (λ s, mkStatus (worker_id s) (state s) (row_start s) (row_end s)
                            (current_row s) (rows_processed s) (total_rows s)
                            (api_calls s)
                            (Processor.rows_per_sec m) (Processor.tokens_per_sec m)
                            (Processor.avg_tokens_per_row m)
                            (Processor.tokens_total m)
                            (errors s) (last_error s) (output_file s)
                            (checkpoints s)) self
  | None => self
  end.

Definition add_checkpoint (checkpoint_file : path) (self : WorkerStatus)
    : WorkerStatus :=
  save (mkWorkerStatus
          (let s := status self in
           mkStatus (worker_id s) (state s) (row_start s) (row_end s)
                    (current_row s) (rows_processed s) (total_rows s)
                    (api_calls s) (rows_per_sec s) (tokens_per_sec s)
                    (avg_tokens_per_row s) (tokens_total s)
                    (errors s) (last_error s) (output_file s)
                    (checkpoints s ++ [checkpoint_file]))
          (written self)).

Definition set_completed (output_file : option path) (rows_processed : Z)
    (self : WorkerStatus) : WorkerStatus :=
  update (λ s, mkStatus (worker_id s) completed (row_start s) (row_end s)
                        (current_row s) rows_processed (total_rows s)
                        (api_calls s) (rows_per_sec s) (tokens_per_sec s)
                        (avg_tokens_per_row s) (tokens_total s)
                        (errors s) (last_error s) output_file
                        (checkpoints s)) self.

Definition set_failed (error_msg : string) (self : WorkerStatus) : WorkerStatus :=
  update (λ s, mkStatus (worker_id s) failed (row_start s) (row_end s)
                        (current_row s) (rows_processed s) (total_rows s)
                        (api_calls s) (rows_per_sec s) (tokens_per_sec s)
                        (avg_tokens_per_row s) (tokens_total s)
                        (errors s) (Some error_msg) (output_file s)
                        (checkpoints s)) self.

(** A [MonitorBridge]: the real monitor and the worker status it mirrors
    into. *)
Record MonitorBridge := mkBridge {
  monitor : Monitor.Monitor;
  worker_status : WorkerStatus
}.

(** [MonitorBridge.start] *)
Definition bridge_start (total_rows : Z) (self : MonitorBridge) : MonitorBridge :=
  mkBridge (Monitor.start total_rows (monitor self))
           (set_running (row_start (status (worker_status self)))
                        (row_end (status (worker_status self)))
                        total_rows (worker_status self)).

(** [MonitorBridge.update_progress]; [api_calls or 0] is [api_calls]. *)
Definition bridge_update_progress (current_row total_rows api_calls : Z)
    (metrics : Processor.Metrics) (self : MonitorBridge) : MonitorBridge :=
  mkBridge (Monitor.update_progress current_row total_rows api_calls (monitor self))
           (set_progress current_row current_row api_calls (Some metrics)
                         (worker_status self)).

(** [MonitorBridge.record_checkpoint] *)
Definition bridge_record_checkpoint (checkpoint_num : Z) (checkpoint_file : path)
    (self : MonitorBridge) : MonitorBridge :=
  mkBridge (Monitor.record_checkpoint (monitor self))
           (add_checkpoint checkpoint_file (worker_status self)).

#[global] Instance bridge_monitor : Processor.Monitor MonitorBridge := {
  Processor.update_progress := bridge_update_progress;
  Processor.record_checkpoint := bridge_record_checkpoint
}.

(** The input table as [pd.read_csv] returns it; without a [RowID] column
    the [RowID] fields of the rows carry no information. *)
Record InputTable := mkInput {
  has_RowID : bool;
  table : list Processor.Row
}.

(** The worker's configuration, from its command line. *)
Record Config := mkConfig {
  cfg_worker_id : Z;
  cfg_row_start : Z;
  cfg_row_end : Z;
  cfg_batch_size : Z;
  cfg_checkpoint_dir : string;
  cfg_checkpoint_interval : Z;
  cfg_retries : Z;
  cfg_model : string;
  cfg_run_id : string;
  cfg_output_path : path
}.

(** What the worker finds outside: the prompts configuration (absent when
    opening or parsing it raises), the input table (absent when reading it
    raises), whether the model server answers when the [Processor] is
    constructed, the model client and clock, and the disk. *)
Record Env := mkEnv {
  prompts_config : option (gmap string json * list string * gmap string json);
  input_file : option InputTable;
  ollama_up : bool;
  world : Processor.World;
  disk0 : Disk
}.

(** [l[i:j]] with Python's treatment of negative and oversized bounds. *)
Definition py_slice {A} (i j : Z) (l : list A) : list A :=
  let n := Z.of_nat (length l) in
  let norm k := if decide (k < 0) then Z.max 0 (n + k) else Z.min k n in
  take (Z.to_nat (norm j - norm i)) (drop (Z.to_nat (norm i)) l).

(** [load_data] after the file was read. *)
Definition load_data (cfg : Config) (input : InputTable) : list Processor.Row :=
  let row_start := cfg_row_start cfg in
  let row_end := cfg_row_end cfg in
  if has_RowID input then
    filter (λ r, row_start ≤ Processor.RowID r ∧ Processor.RowID r ≤ row_end)
           (table input)
  else
    let df_filtered := py_slice (row_start - 1) row_end (table input) in
    zip_with (λ r id, Processor.mkRow id (Processor.Sentiment r)
                                      (Processor.Title r) (Processor.Message r))
             df_filtered (seqZ row_start (Z.of_nat (length df_filtered))).

(** [f"{row_start}-{row_end}_w{worker_id}_{run_id}"] *)
Definition job_id (cfg : Config) : string :=
  pretty (cfg_row_start cfg) +:+ "-" +:+ pretty (cfg_row_end cfg)
  +:+ "_w" +:+ pretty (cfg_worker_id cfg) +:+ "_" +:+ cfg_run_id cfg.

Definition metadata (cfg : Config) : gmap string json :=
  {[ "Model_Name" := JStr (cfg_model cfg);
     "Batch_Size" := JInt (cfg_batch_size cfg);
     "Worker_ID" := JInt (cfg_worker_id cfg);
     "Run_ID" := JStr (cfg_run_id cfg) ]}.

(** How [Worker.run] ends: with a success or failure result, with an
    exception that escapes it, or never. *)
Inductive Exit := Success | Failure | Crashed | Hung.

(** The [except Exception] handler of [run]: [monitor_bridge.finish()]
    first, which itself raises when monitoring never started, and only then
    [set_failed]. *)
Definition on_exception (bridge : MonitorBridge) (disk : Disk)
    : Exit * MonitorBridge * Disk :=
  match Monitor.finish (monitor bridge) with
  | None => (Crashed, bridge, disk)
  | Some m =>
      (Failure, mkBridge m (set_failed "error" (worker_status bridge)), disk)
  end.

(** [Worker.__init__] followed by [Worker.run]. *)
Definition run (cfg : Config) (env : Env) : Exit * MonitorBridge * Disk :=
  let bridge := mkBridge Monitor.init (new (cfg_worker_id cfg)) in
  match prompts_config env with
  | None => on_exception bridge (disk0 env)
  | Some (validation_rules, columns_to_code, not_applicable_defaults) =>
      match input_file env with
      | None => on_exception bridge (disk0 env)
      | Some input =>
          let df := load_data cfg input in
          let total_rows := Z.of_nat (length df) in
          if decide (total_rows = 0) then
            (Success,
             mkBridge (monitor bridge)
                      (set_completed None 0 (worker_status bridge)),
             disk0 env)
          else
            let bridge :=
              mkBridge (monitor bridge)
                       (update (set_rows (cfg_row_start cfg) (cfg_row_end cfg))
                               (worker_status bridge)) in
            let bridge := bridge_start total_rows bridge in
            if negb (ollama_up env) then on_exception bridge (disk0 env)
            else
              let processor :=
                Processor.mkProcessor (cfg_retries cfg) validation_rules
                                      columns_to_code not_applicable_defaults in
              let serializer :=
                Serializer.mkSerializer (cfg_checkpoint_dir cfg)
                                        (cfg_checkpoint_interval cfg) in
              match Processor.process_dataframe processor (world env) df
                      (cfg_batch_size cfg) serializer (job_id cfg)
                      (metadata cfg) true bridge 0%nat (disk0 env) with
              | Processor.Hangs st =>
                  (Hung, Processor.monitor st, Processor.disk st)
              | Processor.Raised st =>
                  on_exception (Processor.monitor st) (Processor.disk st)
              | Processor.Returned st =>
                  match Serializer.merge_checkpoints serializer (job_id cfg)
                          (cfg_output_path cfg) (Processor.disk st) with
                  | (Raise, d) => on_exception (Processor.monitor st) d
                  | (Ok _, d) =>
                      let rows_processed :=
                        Z.of_nat (length (Processor.results st)) in
                      let bridge := Processor.monitor st in
                      match Monitor.finish (monitor bridge) with
                      | None => on_exception bridge d
                      | Some m =>
                          (Success,
                           mkBridge m (set_completed (Some (cfg_output_path cfg))
                                         rows_processed (worker_status bridge)),
                           d)
                      end
                  end
              end
      end
  end.

End Worker.

(** *** O_orchestrator.py: reading the workers' status files *)
Module Dashboard.
Import Data Worker.

(** The [results] dict of [collect_results]. *)
Record Results := mkResults {
  successful : list Z;
  failed : list Z;
  total_rows : Z;
  total_errors : Z;
  output_files : list path
}.

(** One iteration of the loop of [collect_results] over
    [statuses.items()].  The bookkeeping of [self.failed_ranges] is left
    out. *)
Definition collect_step (results : Results) (item : Z * Status) : Results :=
  let '(worker_id, status) := item in
  match state status with
  | completed =>
      mkResults (successful results ++ [worker_id]) (failed results)
                (total_rows results + rows_processed status)
                (total_errors results)
                (match output_file status with
                 | Some f => output_files results ++ [f]
                 | None => output_files results
                 end)
  | Worker.failed =>
      mkResults (successful results) (failed results ++ [worker_id])
                (total_rows results) (total_errors results + 1)
                (output_files results)
  | _ => results
  end.

(** [collect_results(statuses)], the statuses in the order of the dict. *)
Definition collect_results (statuses : list (Z * Status)) : Results :=
  foldl collect_step (mkResults [] [] 0 0 []) statuses.

(** The [all_done] test of [monitor_workers], which is made once at least
    one status was read: every status read says [completed] or [failed]. *)
Definition all_done (statuses : list Status) : bool :=
  forallb (λ s, bool_decide (state s = completed ∨ state s = Worker.failed))
          statuses.

End Dashboard.

(** *** Concrete inputs used by the examples below *)
Module Examples.
Import Data.

Definition ex_serializer : Serializer.Serializer :=
  Serializer.mkSerializer "checkpoints" 50.

Definition ex_job : string := "1-10_w1_run".

Definition ex_row (n : Z) : gmap string json := {[ "RowID" := JInt n ]}.

Definition ex_part (n : Z) : path :=
  Serializer.get_checkpoint_filename ex_serializer ex_job n.

Definition no_fault : path → option nat := λ _, None.

(** An empty disk on which the write of part 1 stops after one row. *)
Definition ex_disk_faulty : Disk :=
  mkDisk ∅ (λ p, if decide (p = ex_part 1) then Some 1%nat else None).

(** Part 1 holds RowIDs 1 and 2; part 2 is present but unreadable. *)
Definition ex_disk_bad_last : Disk :=
  mkDisk (<[ex_part 1 := Csv [ex_row 1; ex_row 2]]>
          (<[ex_part 2 := Garbage]> ∅)) no_fault.

(** Parts 1 and 2 are both readable. *)
Definition ex_disk_two_parts : Disk :=
  mkDisk (<[ex_part 1 := Csv [ex_row 1; ex_row 2]]>
          (<[ex_part 2 := Csv [ex_row 3]]> ∅)) no_fault.

(** Part 1 alone, holding RowIDs 1 and 2. *)
Definition ex_disk_one_part : Disk :=
  mkDisk (<[ex_part 1 := Csv [ex_row 1; ex_row 2]]> ∅) no_fault.

(** A file that matches the pattern but carries no part number. *)
Definition ex_stray : path := ("checkpoints", "checkpoint_1-10_w1_run_partial.csv").

Definition ex_output : path := ("output", "result_w1.csv").

(** A model client that always answers with a one-object array, and a parser
    that knows the three texts the examples use. *)
Definition ex_json_loads (s : string) : option json :=
  if bool_decide (s = "[{}]") then Some (JArr [JObj []])
  else if bool_decide (s = "[]") then Some (JArr [])
  else if bool_decide (s = "{}") then Some (JObj [])
  else None.

Definition ex_world : Processor.World :=
  Processor.mkWorld (λ _, Processor.Content " [{}] ") ex_json_loads
    (λ _, Processor.mkMetrics JNull JNull JNull JNull) (λ v, v) (λ _, true).

Definition ex_processor : Processor.Processor :=
  Processor.mkProcessor 3 ∅ ["Booking_Related"; "Topic"] ∅.

(** A model client that always answers with the array [[1]], whose only
    element is a number, and a processor that makes a single attempt. *)
Definition ex_world_number : Processor.World :=
  Processor.mkWorld (λ _, Processor.Content "[1]")
    (λ s, if bool_decide (s = "[1]") then Some (JArr [JInt 1]) else None)
    (λ _, Processor.mkMetrics JNull JNull JNull JNull) (λ v, v) (λ _, true).

Definition ex_processor_once : Processor.Processor :=
  Processor.mkProcessor 1 ∅ ["Booking_Related"; "Topic"] ∅.

Definition ex_input_row (n : Z) : Processor.Row :=
  Processor.mkRow n (JStr "positive") JNull (JStr "text").

Definition ex_disk_empty : Disk := mkDisk ∅ no_fault.

(** Two rows whose RowIDs are not in increasing order. *)
Definition ex_unsorted : list Processor.Row := [ex_input_row 2; ex_input_row 1].

(** Rows with RowIDs [1 .. n]. *)
Definition ex_rows (n : Z) : list Processor.Row := ex_input_row <$> seqZ 1 n.

(** A monitor after [start(total_rows)]. *)
Definition ex_monitor (total_rows : Z) : Monitor.Monitor :=
  Monitor.start total_rows Monitor.init.

(** A worker for rows 1 to 3, in batches of 2, with a part every 2 rows. *)
Definition ex_config : Worker.Config :=
  Worker.mkConfig 1 1 3 2 "checkpoints" 2 3 "model" "run" ("output", "output_w1.csv").

Definition ex_env : Worker.Env :=
  Worker.mkEnv (Some (∅, ["Booking_Related"; "Topic"], ∅))
               (Some (Worker.mkInput true (ex_rows 3))) true ex_world ex_disk_empty.

End Examples.

(** ** Part II: properties *)

Section calculate_row_ranges_facts.
Import Orchestrator.

Variables q m : Z.
Hypothesis m_nonneg : 0 ≤ m.

Lemma range_loop_closed (n : nat) :
  foldl (range_step q m) (1, []) (seqZ 0 (Z.of_nat n))
  = (1 + Z.of_nat n * q + Z.min (Z.of_nat n) m, nth_range q m <$> seqZ 0 (Z.of_nat n)).
Proof.
  induction n as [|n IH].
  - change (Z.of_nat 0) with 0. rewrite seqZ_nil by lia. cbn. f_equal. lia.
  - rewrite !seqZ_S, foldl_app, IH, fmap_app. cbn [foldl fmap list_fmap].
    unfold range_step, nth_range.
    case_decide; f_equal; try lia; do 2 f_equal; f_equal; lia.
Qed.

Lemma sum_len_snoc rs r : sum_len (rs ++ [r]) = sum_len rs + range_len r.
Proof.
  unfold sum_len. induction rs as [|x rs IH]; cbn in *; [lia|]. rewrite IH. lia.
Qed.

Lemma sum_len_closed (n : nat) :
  sum_len (nth_range q m <$> seqZ 0 (Z.of_nat n)) = Z.of_nat n * q + Z.min (Z.of_nat n) m.
Proof.
  induction n as [|n IH].
  - change (Z.of_nat 0) with 0. rewrite seqZ_nil by lia. cbn. lia.
  - rewrite seqZ_S, fmap_app. cbn [fmap list_fmap].
    rewrite sum_len_snoc, IH. unfold range_len, nth_range. cbn. lia.
Qed.

Lemma rows_closed (n : nat) :
  0 ≤ q →
  concat (rows_of <$> (nth_range q m <$> seqZ 0 (Z.of_nat n)))
  = seqZ 1 (Z.of_nat n * q + Z.min (Z.of_nat n) m).
Proof.
  intros Hq. induction n as [|n IH].
  - change (Z.of_nat 0) with 0. rewrite (seqZ_nil 0) by lia. cbn.
    rewrite seqZ_nil by lia. done.
  - rewrite seqZ_S, !fmap_app, concat_app, IH. cbn [fmap list_fmap concat].
    rewrite app_nil_r. unfold rows_of, nth_range. cbn [start end_].
    set (a := Z.of_nat n * q + Z.min (Z.of_nat n) m).
    set (b := (0 + Z.of_nat n + 1) * q + Z.min (0 + Z.of_nat n + 1) m
              - (1 + (0 + Z.of_nat n) * q + Z.min (0 + Z.of_nat n) m) + 1).
    replace (Z.of_nat (S n) * q + Z.min (Z.of_nat (S n)) m) with (a + b)
      by (unfold a, b; lia).
    rewrite seqZ_app by (unfold a, b; nia).
    f_equal. f_equal. unfold a. lia.
Qed.

End calculate_row_ranges_facts.

Section calculate_row_ranges_props.
Import Orchestrator.

Lemma calculate_row_ranges_closed (total_rows num_workers : Z) :
  1 ≤ num_workers →
  calculate_row_ranges total_rows num_workers
  = Some (nth_range (total_rows `div` num_workers) (total_rows `mod` num_workers)
            <$> seqZ 0 num_workers).
Proof.
  intros Hn. unfold calculate_row_ranges.
  case_decide; [lia|]. f_equal.
  rewrite <- (Z2Nat.id num_workers) by lia.
  rewrite range_loop_closed; [done|].
  apply Z.mod_pos_bound. lia.
Qed.

Lemma lookup_nth_range q m n (i : nat) r :
  (nth_range q m <$> seqZ 0 n) !! i = Some r →
  r = nth_range q m (Z.of_nat i) ∧ Z.of_nat i < n.
Proof.
  rewrite list_lookup_fmap. intros H.
  destruct (seqZ 0 n !! i) as [k|] eqn:E; [|done].
  apply lookup_seqZ in E as [-> ?]. cbn in H. injection H as <-.
  split; [f_equal; lia | done].
Qed.

End calculate_row_ranges_props.

Section calculate_row_ranges_claims.
Import Orchestrator.

(** C9. For every [total_rows >= 0] and [num_workers >= 1],
  [calculate_row_ranges] returns exactly [num_workers] range records whose
  worker ids are [1..num_workers] in order, whose first start is 1, whose
  each subsequent start is the previous end plus 1, whose last end is
  [total_rows], and whose lengths [end - start + 1] sum to [total_rows];
  when [total_rows < num_workers] the ranges from position [total_rows] on
  are empty ([end = start - 1]). *)
Theorem calculate_row_ranges_shape (total_rows num_workers : Z) :
0 ≤ total_rows → 1 ≤ num_workers →
∃ rs, calculate_row_ranges total_rows num_workers = Some rs
  ∧ length rs = Z.to_nat num_workers
  ∧ worker_id <$> rs = seqZ 1 num_workers
  ∧ start <$> head rs = Some 1
  ∧ contiguous rs
  ∧ end_ <$> last rs = Some total_rows
  ∧ sum_len rs = total_rows
  ∧ (total_rows < num_workers →
     ∀ (i : nat) r, rs !! i = Some r → total_rows ≤ Z.of_nat i →
                    end_ r = start r - 1).
Proof.
intros Ht Hn. eexists. split; [by apply calculate_row_ranges_closed|].
set (q := total_rows `div` num_workers).
set (m := total_rows `mod` num_workers).
assert (Hm : 0 ≤ m < num_workers) by (apply Z.mod_pos_bound; lia).
assert (Hdiv : total_rows = num_workers * q + m) by (apply Z.div_mod; lia).
repeat split.
- by rewrite length_fmap, length_seqZ.
- rewrite <- list_fmap_compose.
  change (seqZ 1 num_workers) with (seqZ (1 + 0) num_workers).
  rewrite <- fmap_add_seqZ.
  apply list_fmap_ext. intros _ i _. cbn. lia.
- rewrite seqZ_cons by lia. cbn. f_equal. lia.
- intros i r r' Hr Hr'.
  apply lookup_nth_range in Hr as [-> _].
  apply lookup_nth_range in Hr' as [-> _]. cbn. lia.
- rewrite fmap_last.
  destruct (Z.to_nat num_workers) as [|k] eqn:Ek; [lia|].
  replace num_workers with (Z.of_nat (S k)) at 1 by lia.
  rewrite seqZ_S, last_snoc. cbn. f_equal. lia.
- rewrite <- (Z2Nat.id num_workers) at 1 by lia.
  rewrite sum_len_closed by lia. lia.
- intros Hlt i r Hr Hi. apply lookup_nth_range in Hr as [-> _].
  assert (q = 0) by (apply Z.div_small; lia).
  assert (m = total_rows) by (apply Z.mod_small; lia).
  cbn. lia.
Qed.

Lemma calculate_row_ranges_shape_witness :
0 ≤ 2 ∧ 1 ≤ 4 ∧
∃ rs, calculate_row_ranges 2 4 = Some rs
  ∧ length rs = Z.to_nat 4
  ∧ worker_id <$> rs = seqZ 1 4
  ∧ sum_len rs = 2.
Proof.
split; [lia|]. split; [lia|].
destruct (calculate_row_ranges_shape 2 4) as (rs & H1 & H2 & H3 & _ & _ & _ & H7 & _);
  [lia | lia |].
exists rs. auto.
Defined.

(** C1. For [total_rows >= num_workers >= 1], [calculate_row_ranges]
  partitions [1..total_rows] into [num_workers] contiguous non-empty
  1-indexed inclusive ranges: read in order, the rows of the ranges are
  exactly [1, 2, ..., total_rows] (no gap, no overlap); the range at
  position [i] (from 0) has [total_rows / num_workers] rows plus one extra
  row when [i < total_rows % num_workers]; and 100 rows with 3 workers give
  [1,34], [35,67], [68,100]. *)
Theorem calculate_row_ranges_partition (total_rows num_workers : Z) :
1 ≤ num_workers → num_workers ≤ total_rows →
(∃ rs, calculate_row_ranges total_rows num_workers = Some rs
  ∧ length rs = Z.to_nat num_workers
  ∧ concat (rows_of <$> rs) = seqZ 1 total_rows
  ∧ contiguous rs
  ∧ ∀ (i : nat) r, rs !! i = Some r →
      nonempty r
      ∧ range_len r = total_rows `div` num_workers
                      + (if decide (Z.of_nat i < total_rows `mod` num_workers)
                         then 1 else 0))
∧ calculate_row_ranges 100 3
  = Some [mkRange 1 34 1; mkRange 35 67 2; mkRange 68 100 3].
Proof.
intros Hn Ht. split; [|reflexivity].
eexists. split; [by apply calculate_row_ranges_closed|].
set (q := total_rows `div` num_workers).
set (m := total_rows `mod` num_workers).
assert (Hm : 0 ≤ m < num_workers) by (apply Z.mod_pos_bound; lia).
assert (Hdiv : total_rows = num_workers * q + m) by (apply Z.div_mod; lia).
assert (Hq : 1 ≤ q).
{ unfold q. apply Z.div_le_lower_bound; lia. }
repeat split.
- by rewrite length_fmap, length_seqZ.
- rewrite <- (Z2Nat.id num_workers) at 1 by lia.
  rewrite rows_closed by lia. f_equal. lia.
- intros i r r' Hr Hr'.
  apply lookup_nth_range in Hr as [-> _].
  apply lookup_nth_range in Hr' as [-> _]. cbn. lia.
- apply lookup_nth_range in H as [-> _]. unfold nonempty. cbn. lia.
- apply lookup_nth_range in H as [-> _]. unfold range_len. cbn.
  case_decide; lia.
Qed.

Lemma calculate_row_ranges_partition_witness :
1 ≤ 4 ∧ 4 ≤ 10 ∧
∃ rs, calculate_row_ranges 10 4 = Some rs
  ∧ length rs = 4%nat
  ∧ concat (rows_of <$> rs) = seqZ 1 10.
Proof.
split; [lia|]. split; [lia|].
destruct (calculate_row_ranges_partition 10 4) as [(rs & H1 & H2 & H3 & _) _];
  [lia | lia |].
exists rs. auto.
Defined.

(** C2 (as stated, refuted). With 2 rows and 4 workers the plan has four
  ranges, not two, and the last two have [end < start]. *)
Lemma calculate_row_ranges_few_rows_counterexample :
calculate_row_ranges 2 4
= Some [mkRange 1 1 1; mkRange 2 2 2; mkRange 3 2 3; mkRange 3 2 4]
∧ ¬ (∃ rs, calculate_row_ranges 2 4 = Some rs
           ∧ length rs = Z.to_nat 2 ∧ Forall nonempty rs).
Proof.
split; [reflexivity|].
intros (rs & Hrs & Hlen & _).
vm_compute in Hrs. injection Hrs as <-. discriminate Hlen.
Qed.

(** C2 (amended). For [0 < total_rows < num_workers],
  [calculate_row_ranges] returns [num_workers] ranges: the first
  [total_rows] are the single-row ranges [i, i] for worker [i], and each of
  the remaining [num_workers - total_rows] is the empty range
  [total_rows + 1, total_rows]. *)
Theorem calculate_row_ranges_few_rows (total_rows num_workers : Z) :
0 < total_rows → total_rows < num_workers →
calculate_row_ranges total_rows num_workers
= Some (((λ i, mkRange i i i) <$> seqZ 1 total_rows)
        ++ ((λ i, mkRange (total_rows + 1) total_rows i)
              <$> seqZ (total_rows + 1) (num_workers - total_rows))).
Proof.
intros Ht Hn. rewrite calculate_row_ranges_closed by lia. f_equal.
rewrite (Z.div_small total_rows num_workers) by lia.
rewrite (Z.mod_small total_rows num_workers) by lia.
replace num_workers with (total_rows + (num_workers - total_rows)) at 1 by lia.
rewrite seqZ_app, fmap_app by lia. f_equal.
- change (seqZ 1 total_rows) with (seqZ (1 + 0) total_rows).
  rewrite <- fmap_add_seqZ, <- list_fmap_compose.
  apply list_fmap_ext. intros k i Hi. apply lookup_seqZ in Hi as [-> ?].
  unfold nth_range. cbn. f_equal; lia.
- replace (seqZ (total_rows + 1) (num_workers - total_rows))
    with (seqZ (1 + (0 + total_rows)) (num_workers - total_rows)) by (f_equal; lia).
  rewrite <- (fmap_add_seqZ 1), <- list_fmap_compose.
  apply list_fmap_ext. intros k i Hi. apply lookup_seqZ in Hi as [-> ?].
  unfold nth_range. cbn. f_equal; lia.
Qed.

Lemma calculate_row_ranges_few_rows_witness :
0 < 2 ∧ 2 < 4 ∧
calculate_row_ranges 2 4
= Some (((λ i, mkRange i i i) <$> seqZ 1 2)
        ++ ((λ i, mkRange (2 + 1) 2 i) <$> seqZ (2 + 1) (4 - 2))).
Proof.
split; [lia|]. split; [lia|].
apply (calculate_row_ranges_few_rows 2 4); lia.
Defined.

End calculate_row_ranges_claims.

(** *** The checkpoint store *)
Section serializer_facts.
Import Data Serializer.

Lemma foldl_max_ge (l : list Z) (x : Z) : x ≤ foldl Z.max x l.
Proof.
  revert x. induction l as [|y l IH]; intros x; cbn; [lia|].
  specialize (IH (Z.max x y)). lia.
Qed.

Lemma foldl_max_bound (l : list Z) (x : Z) : Forall (λ k, k ≤ foldl Z.max x l) l.
Proof.
  revert x. induction l as [|y l IH]; intros x; cbn; constructor.
  - pose proof (foldl_max_ge l (Z.max x y)). lia.
  - apply IH.
Qed.

Lemma foldl_max_elem (l : list Z) (x : Z) :
  foldl Z.max x l = x ∨ foldl Z.max x l ∈ l.
Proof.
  revert x. induction l as [|y l IH]; intros x; cbn; [by left|].
  destruct (IH (Z.max x y)) as [->|Hin].
  - destruct (Z.max_spec x y) as [[_ ->]|[_ ->]]; [right; left | by left].
  - right. by right.
Qed.

(** [max] returns an element of the list that bounds every element. *)
Lemma py_max_spec (l : list Z) (m : Z) :
  Py.max l = Some m ↔ m ∈ l ∧ Forall (λ k, k ≤ m) l.
Proof.
  destruct l as [|x l]; cbn.
  - split; [done|]. intros [H _]. by apply elem_of_nil in H.
  - split.
    + intros [= <-]. split.
      * destruct (foldl_max_elem l x) as [->|?]; [left | by right].
      * constructor; [apply foldl_max_ge | apply foldl_max_bound].
    + intros [Hin Hall]. f_equal.
      pose proof (foldl_max_ge l x) as Hx.
      pose proof (foldl_max_bound l x) as Hl.
      assert (foldl Z.max x l ≤ m).
      { rewrite Forall_forall in Hall. apply Hall.
        destruct (foldl_max_elem l x) as [->|?]; [left | by right]. }
      assert (m ≤ foldl Z.max x l).
      { apply elem_of_cons in Hin as [->|Hin]; [done|].
        rewrite Forall_forall in Hl. by apply Hl. }
      lia.
Qed.

Lemma py_max_perm (l l' : list Z) : l ≡ₚ l' → Py.max l = Py.max l'.
Proof.
  intros Hp. destruct (Py.max l) as [m|] eqn:E.
  - symmetry. apply py_max_spec. apply py_max_spec in E as [Hin Hall].
    split; [by rewrite <- Hp | by rewrite <- Hp].
  - destruct l; [|done]. apply Permutation_nil_l in Hp as <-. done.
Qed.

Lemma list_checkpoints_nil self job_id d :
  glob self job_id d = [] → list_checkpoints self job_id d = [].
Proof. unfold list_checkpoints. by intros ->. Qed.

End serializer_facts.

Section serializer_claims.
Import Data Serializer Examples.

(** C3 (as stated, refuted). On a disk where the write of part 1 stops after
  one row, saving a two-row chunk raises and leaves a part file with only
  the first row under the final [part0001] name: the part is neither
  complete nor absent, so the save is not all-or-nothing. *)
Lemma save_checkpoint_partial_counterexample :
(save_checkpoint ex_serializer [ex_row 1; ex_row 2] ex_job 1 None ex_disk_faulty).1
= Raise
∧ files ex_disk_faulty !! ex_part 1 = None
∧ files (save_checkpoint ex_serializer [ex_row 1; ex_row 2] ex_job 1 None
                        ex_disk_faulty).2 !! ex_part 1
  = Some (Csv [ex_row 1])
∧ ¬ (let d' := (save_checkpoint ex_serializer [ex_row 1; ex_row 2] ex_job 1
                                None ex_disk_faulty).2 in
     files d' !! ex_part 1 = Some (Csv [ex_row 1; ex_row 2])
     ∨ files d' !! ex_part 1 = files ex_disk_faulty !! ex_part 1).
Proof.
assert (E : files (save_checkpoint ex_serializer [ex_row 1; ex_row 2] ex_job 1
                                   None ex_disk_faulty).2 !! ex_part 1
            = Some (Csv [ex_row 1])) by (vm_compute; reflexivity).
split; [vm_compute; reflexivity|].
split; [vm_compute; reflexivity|].
split; [exact E|].
cbv zeta. rewrite E. intros [H|H]; [|discriminate H].
injection H as H. discriminate H.
Qed.

(** C3 (amended). [save_checkpoint] writes the chunk, with the metadata
  columns added, straight to [checkpoint_{job_id}_part{NNNN}.csv] in one
  write and touches no other path.  When the write completes, the call
  returns that path and the file holds exactly the chunk.  When the write
  fails after [k] rows, the call raises and the rows written so far are
  what is left under the part's name. *)
Theorem save_checkpoint_direct_write (self : Serializer) (df_chunk : DataFrame)
  (job_id : string) (checkpoint_num : Z)
  (metadata : option (gmap string json)) (d : Disk) :
let checkpoint_file := get_checkpoint_filename self job_id checkpoint_num in
let rows := add_metadata metadata df_chunk in
let out := save_checkpoint self df_chunk job_id checkpoint_num metadata d in
(fault d checkpoint_file = None →
   out = (Ok checkpoint_file,
          mkDisk (<[checkpoint_file := Csv rows]> (files d)) (fault d)))
∧ (∀ k, fault d checkpoint_file = Some k →
     out.1 = Raise
     ∧ files out.2 !! checkpoint_file
       = Some (match k with O => Garbage | _ => Csv (take k rows) end))
∧ (∀ p, p ≠ checkpoint_file → files out.2 !! p = files d !! p).
Proof.
intros checkpoint_file rows out. subst out. unfold save_checkpoint, to_csv.
fold checkpoint_file. fold rows.
destruct (fault d checkpoint_file) as [k|] eqn:E; cbn.
- split; [done|]. split.
  + intros k' [= <-]. split; [done|]. by rewrite lookup_insert_eq.
  + intros p Hp. by rewrite lookup_insert_ne.
- split; [done|]. split; [done|].
  intros p Hp. by rewrite lookup_insert_ne.
Qed.

Lemma save_checkpoint_direct_write_witness :
fault ex_disk_faulty (ex_part 1) = Some 1%nat
∧ (save_checkpoint ex_serializer [ex_row 1; ex_row 2] ex_job 1 None
                   ex_disk_faulty).1 = Raise.
Proof.
split; [vm_compute; reflexivity|].
pose proof (save_checkpoint_direct_write ex_serializer [ex_row 1; ex_row 2]
              ex_job 1 None ex_disk_faulty) as H.
cbv zeta in H. destruct H as (_ & H & _).
apply (H 1%nat). vm_compute; reflexivity.
Defined.

(** C7 (as stated, refuted). Two part files match the job id; part 1 is
  readable, the highest-numbered part 2 is not.  [find_last_checkpoint]
  returns [(None, 0)]: it neither returns the path of the highest part with
  its trailing RowID, nor falls back to the remaining readable part. *)
Lemma find_last_checkpoint_counterexample :
glob ex_serializer ex_job ex_disk_bad_last ≠ []
∧ Py.max (checkpoint_nums ex_serializer ex_job ex_disk_bad_last) = Some 2
∧ read_csv ex_disk_bad_last (ex_part 1) ≫= last_row_id = Some (JInt 2)
∧ find_last_checkpoint ex_serializer ex_job ex_disk_bad_last = (None, JInt 0)
∧ ¬ (∃ p row_id, find_last_checkpoint ex_serializer ex_job ex_disk_bad_last
                 = (Some p, row_id)).
Proof.
assert (E : find_last_checkpoint ex_serializer ex_job ex_disk_bad_last
            = (None, JInt 0)) by (vm_compute; reflexivity).
split; [vm_compute; discriminate|].
split; [vm_compute; reflexivity|].
split; [vm_compute; reflexivity|].
split; [exact E|].
intros (p & row_id & H). rewrite E in H. discriminate H.
Qed.

(** C7 (amended). [find_last_checkpoint] returns [(None, 0)] when no file
  matches the job id pattern, and also when no matching file has a part
  number that parses.  Otherwise it takes the maximum [last_num] of the part
  numbers that parse, and returns the path
  [checkpoint_{job_id}_part{last_num:04d}.csv] with the last RowID of that
  file, or [(None, 0)] when that one file cannot be read or has no last
  RowID.  A matching file whose part number does not parse is ignored: adding
  one to the directory does not change the part number selected. *)
Theorem find_last_checkpoint_spec (self : Serializer) (job_id : string) (d : Disk) :
(glob self job_id d = [] →
   find_last_checkpoint self job_id d = (None, JInt 0))
∧ (checkpoint_nums self job_id d = [] →
   find_last_checkpoint self job_id d = (None, JInt 0))
∧ (∀ last_num, Py.max (checkpoint_nums self job_id d) = Some last_num →
     last_num ∈ checkpoint_nums self job_id d
     ∧ (∀ k, k ∈ checkpoint_nums self job_id d → k ≤ last_num)
     ∧ find_last_checkpoint self job_id d
       = match read_csv d (get_checkpoint_filename self job_id last_num)
               ≫= last_row_id with
         | Some row_id =>
             (Some (get_checkpoint_filename self job_id last_num), row_id)
         | None => (None, JInt 0)
         end)
∧ (∀ name content,
     glob_match job_id name = true →
     part_number (checkpoint_dir self, name) = None →
     files d !! (checkpoint_dir self, name) = None →
     Py.max (checkpoint_nums self job_id
               (mkDisk (<[(checkpoint_dir self, name) := content]> (files d))
                       (fault d)))
     = Py.max (checkpoint_nums self job_id d)).
Proof.
unfold find_last_checkpoint, checkpoint_nums.
split; [by intros ->|].
split.
{ intros E. rewrite E. cbn. by destruct (glob self job_id d). }
split.
{ intros last_num E. pose proof E as [Hin Hall]%py_max_spec.
  split; [done|]. split; [by rewrite Forall_forall in Hall|].
  rewrite E. destruct (glob self job_id d); [done|]. done. }
intros name content Hmatch Hnum Hfree.
apply py_max_perm. unfold glob. cbn [files].
rewrite (map_to_list_insert (files d)) by done.
cbn [fmap list_fmap fst].
rewrite filter_cons_True by done.
cbn [omap list_omap]. by rewrite Hnum.
Qed.

Lemma find_last_checkpoint_spec_witness :
Py.max (checkpoint_nums ex_serializer ex_job ex_disk_two_parts) = Some 2
∧ find_last_checkpoint ex_serializer ex_job ex_disk_two_parts
  = (Some (ex_part 2), JInt 3)
∧ glob_match ex_job ex_stray.2 = true
∧ part_number ex_stray = None
∧ files ex_disk_two_parts !! ex_stray = None
∧ Py.max (checkpoint_nums ex_serializer ex_job
            (mkDisk (<[ex_stray := Garbage]> (files ex_disk_two_parts))
                    (fault ex_disk_two_parts)))
  = Some 2.
Proof.
destruct (find_last_checkpoint_spec ex_serializer ex_job ex_disk_two_parts)
  as (_ & _ & H3 & H4).
assert (E : Py.max (checkpoint_nums ex_serializer ex_job ex_disk_two_parts)
            = Some 2) by (vm_compute; reflexivity).
split; [exact E|].
split; [destruct (H3 2 E) as (_ & _ & ->); vm_compute; reflexivity|].
split; [vm_compute; reflexivity|].
split; [vm_compute; reflexivity|].
split; [vm_compute; reflexivity|].
rewrite <- E. apply (H4 ex_stray.2 Garbage); vm_compute; reflexivity.
Defined.

(** C10. [merge_checkpoints] returns false and leaves the disk as it was
  when no part file matches the job id pattern, and likewise when none of
  the matching files can be read.  When at least one part loads, it writes
  the concatenation of the loaded parts to [output_path] and, the write
  completing, returns true.  Whatever happens, no path other than
  [output_path] is touched, and [output_path] changes, or true is
  returned, only if at least one part loaded. *)
Theorem merge_checkpoints_spec (self : Serializer) (job_id : string)
  (output_path : path) (d : Disk) :
(glob self job_id d = [] →
   merge_checkpoints self job_id output_path d = (Ok false, d))
∧ (omap (read_csv d) (list_checkpoints self job_id d) = [] →
   merge_checkpoints self job_id output_path d = (Ok false, d))
∧ (omap (read_csv d) (list_checkpoints self job_id d) ≠ [] →
   fault d output_path = None →
   merge_checkpoints self job_id output_path d
   = (Ok true,
      mkDisk (<[output_path :=
                  Csv (concat (omap (read_csv d) (list_checkpoints self job_id d)))]>
                (files d))
             (fault d)))
∧ (∀ p, p ≠ output_path →
     files (merge_checkpoints self job_id output_path d).2 !! p = files d !! p)
∧ (files (merge_checkpoints self job_id output_path d).2 !! output_path
     ≠ files d !! output_path
   ∨ (merge_checkpoints self job_id output_path d).1 = Ok true →
   omap (read_csv d) (list_checkpoints self job_id d) ≠ []).
Proof.
unfold merge_checkpoints.
split.
{ intros E. by rewrite (list_checkpoints_nil _ _ _ E). }
split.
{ intros E. rewrite E. by destruct (list_checkpoints self job_id d). }
destruct (list_checkpoints self job_id d) as [|f fs] eqn:El.
{ cbn. split; [done|]. split; [done|]. intros [H|H]; [done|discriminate H]. }
destruct (omap (read_csv d) (f :: fs)) as [|df dfs] eqn:Eo.
{ cbn. split; [done|]. split; [done|]. intros [H|H]; [done|discriminate H]. }
unfold to_csv.
destruct (fault d output_path) as [k|] eqn:Ef; cbn.
- split; [done|]. split; [|done]. intros p Hp. by rewrite lookup_insert_ne.
- split; [done|]. split; [|done]. intros p Hp. by rewrite lookup_insert_ne.
Qed.

Lemma merge_checkpoints_spec_witness :
omap (read_csv ex_disk_bad_last)
     (list_checkpoints ex_serializer ex_job ex_disk_bad_last) ≠ []
∧ fault ex_disk_bad_last ex_output = None
∧ (merge_checkpoints ex_serializer ex_job ex_output ex_disk_bad_last).1 = Ok true
∧ files (merge_checkpoints ex_serializer ex_job ex_output ex_disk_bad_last).2
    !! ex_output
  = Some (Csv [ex_row 1; ex_row 2]).
Proof.
assert (H1 : omap (read_csv ex_disk_bad_last)
               (list_checkpoints ex_serializer ex_job ex_disk_bad_last) ≠ [])
  by (vm_compute; discriminate).
assert (H2 : fault ex_disk_bad_last ex_output = None) by reflexivity.
split; [exact H1|]. split; [exact H2|].
destruct (merge_checkpoints_spec ex_serializer ex_job ex_output ex_disk_bad_last)
  as (_ & _ & H & _).
rewrite (H H1 H2). split; [reflexivity|]. vm_compute; reflexivity.
Defined.

(** [should_checkpoint] is defined for a non-zero interval and is true
  exactly when the count is a multiple of the interval or equals the
  total. *)
Lemma should_checkpoint_iff (self : Serializer) (current_row_count total_rows : Z) :
checkpoint_interval self ≠ 0 →
∃ b, should_checkpoint self current_row_count total_rows = Some b
     ∧ (b = true ↔ (checkpoint_interval self | current_row_count)
                    ∨ current_row_count = total_rows).
Proof.
intros Hne. unfold should_checkpoint. case_decide; [done|].
eexists. split; [reflexivity|].
rewrite orb_true_iff, !bool_decide_eq_true.
by rewrite Z.mod_divide.
Qed.

End serializer_claims.

(** *** The batch processor *)
Section processor_facts.
Import Data Processor.
Variable self : Processor.
Variable w : World.

Lemma mapM_cons {A B} (f : A → option B) (x : A) (l : list A) :
  mapM f (x :: l) = y ← f x; k ← mapM f l; mret (y :: k).
Proof. reflexivity. Qed.

Lemma mapM_seq_S {B} (g : nat → option B) (k n : nat) :
  mapM g (seq (S k) n) = mapM (λ i, g (S i)) (seq k n).
Proof.
  revert k. induction n as [|n IH]; intros k; [done|].
  cbn [seq]. by rewrite !mapM_cons, IH.
Qed.

(** Reading a list by the indices [0 .. len-1] visits its elements in
    order. *)
Lemma mapM_by_index {A B} (f : A → option B) (l : list A) :
  mapM (λ i, l !! i ≫= f) (seq 0 (length l)) = mapM f l.
Proof.
  induction l as [|x l IH]; [done|].
  cbn [length seq]. rewrite !mapM_cons, mapM_seq_S, <- IH. done.
Qed.

Lemma batch_attempt_length (batch_size : nat) (r : Response) res :
  batch_attempt self w batch_size r = Some res → length res = batch_size.
Proof.
  unfold batch_attempt. destruct r as [|s]; [done|].
  intros H.
  destruct (parse_results_array w (Py.strip s)) as [ra|]; [|done]. cbn in H.
  destruct (py_len ra) as [n|]; [|done]. cbn in H.
  destruct (if bool_decide (n = batch_size) then Some ra
            else reconcile self batch_size ra) as [ra'|]; [|done].
  cbn in H. apply length_mapM in H. by rewrite length_seq in H.
Qed.

Lemma fallback_length (rows : list Row) (n : nat) :
  length (fallback self w rows n).1 = length rows.
Proof.
  revert n. induction rows as [|row rows IH]; intros n; [done|].
  cbn. destruct (process_single_row self w row n) as [result n1].
  specialize (IH n1). destruct (fallback self w rows n1) as [rest n2].
  cbn in *. by rewrite IH.
Qed.

(** With at least one attempt, the retry loop of [process_batch] returns a
    list with one entry per row, whatever the client answers. *)
Lemma batch_loop_length (rows : list Row) (remaining n : nat) :
  (0 < remaining)%nat →
  ∃ res n', batch_loop self w rows remaining n = (Some res, n')
            ∧ length res = length rows.
Proof.
  revert n. induction remaining as [|k IH]; intros n Hpos; [lia|].
  cbn [batch_loop].
  destruct (batch_attempt self w (length rows) (chat w n)) as [res|] eqn:E.
  - eexists _, _. split; [done|].
    rewrite length_fmap. by eapply batch_attempt_length.
  - destruct k as [|k].
    + pose proof (fallback_length rows (S n)) as Hf.
      destruct (fallback self w rows (S n)) as [res n'].
      eexists _, _. split; [done|]. done.
    + apply IH. lia.
Qed.

Lemma process_batch_length (rows : list Row) (n : nat) :
  1 ≤ retries self →
  ∃ res n', process_batch self w rows n = (Some res, n')
            ∧ length res = length rows.
Proof. intros Hr. apply batch_loop_length. lia. Qed.

(** A successful first attempt is what [process_batch] returns. *)
Lemma process_batch_first_attempt (rows : list Row) (n : nat) out :
  1 ≤ retries self →
  batch_attempt self w (length rows) (chat w n) = Some out →
  process_batch self w rows n = (Some (Some <$> out), S n).
Proof.
  intros Hr E. unfold process_batch.
  destruct (Z.to_nat (retries self)) as [|k] eqn:Ek; [lia|].
  cbn [batch_loop]. by rewrite E.
Qed.

Lemma reconciled_length batch_size arr : length (reconciled self batch_size arr) = batch_size.
Proof.
  unfold reconciled. rewrite length_take, length_app, length_replicate. lia.
Qed.

Lemma reconciled_short batch_size arr :
  (length arr < batch_size)%nat →
  reconciled self batch_size arr
  = arr ++ replicate (batch_size - length arr) (batch_mismatch self).
Proof.
  intros Hlt. unfold reconciled. apply take_ge.
  rewrite length_app, length_replicate. lia.
Qed.

Lemma reconciled_long batch_size arr :
  (batch_size ≤ length arr)%nat →
  reconciled self batch_size arr = take batch_size arr.
Proof.
  intros Hle. unfold reconciled.
  replace (batch_size - length arr)%nat with 0%nat by lia.
  cbn. by rewrite app_nil_r.
Qed.

(** When the response parses to a list, the attempt maps the per-record
    processing over the reconciled list. *)
Lemma batch_attempt_array (batch_size : nat) json_string arr :
  parse_results_array w (Py.strip json_string) = Some (JArr arr) →
  batch_attempt self w batch_size (Content json_string)
  = mapM (process_result self) (reconciled self batch_size arr).
Proof.
  intros E. unfold batch_attempt. rewrite E. cbn.
  case_bool_decide as Hn.
  - cbn. rewrite reconciled_long by lia. rewrite take_ge by lia.
    subst batch_size. apply mapM_by_index.
  - cbn.
    rewrite <- (reconciled_length batch_size arr) at 1.
    apply mapM_by_index.
Qed.

(** **** The error record appended by the reconciliation *)

Lemma assoc_const_inv (cols : list string) (v x : json) (col : string) :
  assoc ((λ c, (c, v)) <$> cols) col = Some x → x = v.
Proof.
  induction cols as [|c cols IH]; cbn; [done|].
  case_bool_decide; [by intros [= <-] | done].
Qed.

Lemma assoc_const_elem (cols : list string) (v : json) (col : string) :
  col ∈ cols → assoc ((λ c, (c, v)) <$> cols) col = Some v.
Proof.
  induction cols as [|c cols IH]; [by intros ?%elem_of_nil|].
  intros Hin. cbn. case_bool_decide as Hc; [done|].
  apply elem_of_cons in Hin as [->|Hin]; [done | by apply IH].
Qed.

Lemma foldl_insert_all_values (g : string → json) (v : json)
    (cols : list string) (acc : Rec) :
  (∀ col, col ∈ cols → g col = v) → all_values v acc →
  all_values v (foldl (λ (pd : Rec) col, <[col := g col]> pd) acc cols).
Proof.
  revert acc. induction cols as [|c cols IH]; intros acc Hg Hacc; [done|].
  cbn. apply IH.
  - intros col Hin. apply Hg. by right.
  - intros k x. destruct (decide (c = k)) as [->|Hne].
    + rewrite lookup_insert_eq. intros [= <-]. apply Hg. by left.
    + rewrite lookup_insert_ne by done. apply Hacc.
Qed.

Lemma foldl_insert_bound (g : string → json) (cols : list string) (acc : Rec) k :
  is_Some (acc !! k) ∨ k ∈ cols →
  is_Some (foldl (λ (pd : Rec) col, <[col := g col]> pd) acc cols !! k).
Proof.
  revert acc. induction cols as [|c cols IH]; intros acc [Hk|Hk]; cbn.
  - done.
  - by apply elem_of_nil in Hk.
  - apply IH. left. destruct (decide (c = k)) as [->|Hne].
    + by rewrite lookup_insert_eq.
    + by rewrite lookup_insert_ne.
  - apply IH. apply elem_of_cons in Hk as [->|Hk]; [left | by right].
    by rewrite lookup_insert_eq.
Qed.

Lemma foldl_insert_lookup (g : string → json) (v : json)
    (cols : list string) (acc : Rec) (col : string) :
  (∀ c, c ∈ cols → g c = v) → all_values v acc → col ∈ cols →
  foldl (λ (pd : Rec) c, <[c := g c]> pd) acc cols !! col = Some v.
Proof.
  intros Hg Hacc Hin.
  destruct (foldl_insert_bound g cols acc col (or_intror Hin)) as [x Hx].
  rewrite Hx. f_equal.
  by apply (foldl_insert_all_values g v cols acc Hg Hacc col x).
Qed.

Lemma extract_columns_mismatch pd :
  extract_columns self (batch_mismatch self) = Some pd →
  all_values mismatch pd
  ∧ ∀ col, col ∈ columns_to_code self → pd !! col = Some mismatch.
Proof.
  unfold extract_columns, batch_mismatch.
  destruct (columns_to_code self) as [|c cols] eqn:Ec.
  { intros [= <-]. split; [by intros k x | by intros col ?%elem_of_nil]. }
  intros [= <-].
  assert (Hg : ∀ col, col ∈ c :: cols →
            default (JStr "ERROR_MISSING_KEY")
              (assoc ((λ col0, (col0, JStr "ERROR_BATCH_MISMATCH")) <$> c :: cols)
                     col) = mismatch).
  { intros col Hin. by rewrite (assoc_const_elem _ _ _ Hin). }
  split.
  - apply (foldl_insert_all_values _ mismatch (c :: cols) ∅ Hg). by intros k x.
  - intros col Hin.
    apply (foldl_insert_lookup _ mismatch (c :: cols) ∅ col Hg); [|done].
    by intros k x.
Qed.

Lemma get_or_empty_mismatch pd k :
  all_values mismatch pd → has_key pd k = true → get_or_empty pd k = mismatch.
Proof.
  unfold has_key, get_or_empty. intros Hall Hk.
  apply bool_decide_eq_true in Hk as [x Hx]. rewrite Hx. cbn. by apply (Hall k).
Qed.

Lemma enforce_comparative_mismatch pd :
  all_values mismatch pd → enforce_comparative pd = pd.
Proof.
  intros Hall. unfold enforce_comparative.
  destruct (has_key pd "Comparative_Mention") eqn:E1; [|done].
  destruct (has_key pd "Competitor_Named") eqn:E2; [|done].
  cbn [andb]. by rewrite (get_or_empty_mismatch _ _ Hall E1).
Qed.

Lemma enforce_abandonment_mismatch pd :
  all_values mismatch pd → enforce_abandonment pd = pd.
Proof.
  intros Hall. unfold enforce_abandonment.
  destruct (has_key pd "Abandonment_Mentioned") eqn:E1; [|done].
  destruct (has_key pd "Abandonment_Reason") eqn:E2; [|done].
  cbn [andb]. by rewrite (get_or_empty_mismatch _ _ Hall E1).
Qed.

Lemma validate_mismatch pd pd' :
  all_values mismatch pd →
  validate_processed_data self pd = Some pd' → pd' = pd.
Proof.
  intros Hall. unfold validate_processed_data.
  assert (match first_column self with
          | Some c => negb (bool_decide (c = EmptyString))
                      && from_option (λ x, eq_str x "N") false (pd !! c)
          | None => false
          end = false) as ->.
  { destruct (first_column self) as [c|]; [|done].
    destruct (pd !! c) as [x|] eqn:Ex; cbn; [|by rewrite andb_false_r].
    rewrite (Hall c x Ex). apply andb_false_r. }
  rewrite enforce_comparative_mismatch, enforce_abandonment_mismatch by done.
  by destruct (forallb _ _); intros [= <-].
Qed.

(** When the appended error record passes the per-record processing, it
    comes out with every configured column at ['ERROR_BATCH_MISMATCH']. *)
Lemma process_result_mismatch pd :
  process_result self (batch_mismatch self) = Some pd →
  ∀ col, col ∈ columns_to_code self → pd !! col = Some mismatch.
Proof.
  unfold process_result.
  assert (first_column_is self (batch_mismatch self) "NOT_APPLICABLE"
          = Some false) as ->.
  { unfold first_column_is, batch_mismatch.
    destruct (first_column self) as [c|]; [|done].
    case_bool_decide; [done|]. f_equal.
    destruct (assoc _ c) as [x|] eqn:Ex; [|done].
    by rewrite (assoc_const_inv _ _ _ _ Ex). }
  cbn. destruct (extract_columns self (batch_mismatch self)) as [pd0|] eqn:E;
    [|done].
  cbn. intros Hv. apply extract_columns_mismatch in E as [Hall Hcols].
  by rewrite (validate_mismatch _ _ Hall Hv).
Qed.

(** **** Records, padding and failed attempts *)

Lemma rules_iterable_empty : validation_rules self = ∅ → rules_iterable self.
Proof.
  intros He col v _ Hf. unfold find_valid_values in Hf.
  rewrite He in Hf. cbn in Hf. by rewrite !lookup_empty in Hf.
Qed.

Lemma mapM_app {A B} (f : A → option B) (l1 l2 : list A) o1 o2 :
  mapM f l1 = Some o1 → mapM f l2 = Some o2 →
  mapM f (l1 ++ l2) = Some (o1 ++ o2).
Proof.
  rewrite !mapM_Some. apply Forall2_app.
Qed.

Lemma mapM_replicate {A B} (f : A → option B) (k : nat) x y :
  f x = Some y → mapM f (replicate k x) = Some (replicate k y).
Proof.
  intros Hf. apply mapM_Some. apply Forall2_replicate. done.
Qed.

Lemma mapM_None_elem {A B} (f : A → option B) (l : list A) x :
  x ∈ l → f x = None → mapM f l = None.
Proof.
  intros Hin Hf. destruct (mapM f l) as [k|] eqn:E; [|done].
  apply mapM_Some in E.
  apply list_elem_of_lookup in Hin as [i Hi].
  destruct (Forall2_lookup_l _ _ _ _ _ E Hi) as (y & _ & Hy). congruence.
Qed.

Lemma reconciled_eq batch_size arr :
  reconciled self batch_size arr
  = take batch_size arr
    ++ replicate (batch_size - length arr) (batch_mismatch self).
Proof.
  destruct (decide (length arr < batch_size)%nat) as [Hlt|Hge].
  - rewrite reconciled_short by done. by rewrite take_ge by lia.
  - rewrite reconciled_long by lia.
    replace (batch_size - length arr)%nat with 0%nat by lia.
    by rewrite app_nil_r.
Qed.

(** Whatever is not a JSON object makes the per-record processing raise,
    as soon as there is a column to read. *)
Lemma process_result_not_object (x : json) :
  columns_to_code self ≠ [] → (∀ kvs, x ≠ JObj kvs) →
  process_result self x = None.
Proof.
  intros Hc Hx. unfold process_result, first_column_is, first_column, extract_columns.
  destruct (columns_to_code self) as [|c cols]; [done|]. cbn.
  case_bool_decide.
  - cbn. destruct x; try done. by destruct (Hx kvs).
  - destruct x; try done. by destruct (Hx kvs).
Qed.

(** Under [rules_iterable] the appended error record passes the per-record
    processing. *)
Lemma process_result_mismatch_Some :
  rules_iterable self → is_Some (process_result self (batch_mismatch self)).
Proof.
  intros Hrules. unfold process_result.
  assert (first_column_is self (batch_mismatch self) "NOT_APPLICABLE"
          = Some false) as ->.
  { unfold first_column_is, batch_mismatch.
    destruct (first_column self) as [c|]; [|done].
    case_bool_decide; [done|]. f_equal.
    destruct (assoc _ c) as [x|] eqn:Ex; [|done].
    by rewrite (assoc_const_inv _ _ _ _ Ex). }
  cbn.
  assert (∃ pd0, extract_columns self (batch_mismatch self) = Some pd0) as [pd0 E].
  { unfold extract_columns, batch_mismatch.
    destruct (columns_to_code self); eauto. }
  rewrite E. cbn.
  destruct (extract_columns_mismatch pd0 E) as [Hall Hcols].
  unfold validate_processed_data.
  assert (match first_column self with
          | Some c => negb (bool_decide (c = EmptyString))
                      && from_option (λ x, eq_str x "N") false (pd0 !! c)
          | None => false
          end = false) as ->.
  { destruct (first_column self) as [c|]; [|done].
    destruct (pd0 !! c) as [x|] eqn:Ex; cbn; [|by rewrite andb_false_r].
    rewrite (Hall c x Ex). apply andb_false_r. }
  rewrite enforce_comparative_mismatch, enforce_abandonment_mismatch by done.
  assert (forallb (check_column self pd0) (columns_to_code self) = true) as ->;
    [|done].
  apply forallb_forall. intros col Hin%list_elem_of_In.
  unfold check_column.
  destruct (find_valid_values self col) as [v|] eqn:Ev; [|done].
  destruct (truthy v) eqn:Et; [|done].
  unfold get_or_empty. rewrite (Hcols col Hin). cbn.
  specialize (Hrules col v Hin Ev Et). by destruct v.
Qed.

Lemma single_row_loop_Some (k n : nat) :
  is_Some (single_row_loop self w (S k) n).1.
Proof.
  revert n. induction k as [|k IH]; intros n; cbn [single_row_loop].
  - by destruct (single_attempt self w (chat w n)).
  - destruct (single_attempt self w (chat w n)); [done|]. apply IH.
Qed.

Lemma fallback_Some (rows : list Row) (n : nat) :
  1 ≤ retries self → Forall is_Some (fallback self w rows n).1.
Proof.
  intros Hr. revert n. induction rows as [|row rows IH]; intros n; [by constructor|].
  cbn [fallback].
  pose proof (single_row_loop_Some (Z.to_nat (retries self) - 1) n) as H1.
  replace (S (Z.to_nat (retries self) - 1)) with (Z.to_nat (retries self)) in H1 by lia.
  unfold process_single_row.
  destruct (single_row_loop self w (Z.to_nat (retries self)) n) as [result n1].
  specialize (IH n1). destruct (fallback self w rows n1) as [rest n2].
  cbn in *. by constructor.
Qed.

Lemma single_row_loop_mono (k n : nat) :
  (n ≤ (single_row_loop self w k n).2)%nat.
Proof.
  revert n. induction k as [|k IH]; intros n; cbn [single_row_loop]; [done|].
  destruct (single_attempt self w (chat w n)); [cbn; lia|].
  destruct k; [cbn; lia|]. specialize (IH (S n)). lia.
Qed.

Lemma fallback_mono (rows : list Row) (n : nat) :
  (n ≤ (fallback self w rows n).2)%nat.
Proof.
  revert n. induction rows as [|row rows IH]; intros n; [done|].
  cbn [fallback]. unfold process_single_row.
  pose proof (single_row_loop_mono (Z.to_nat (retries self)) n) as H1.
  destruct (single_row_loop self w (Z.to_nat (retries self)) n) as [result n1].
  specialize (IH n1). destruct (fallback self w rows n1) as [rest n2].
  cbn in *. lia.
Qed.

(** With at least one attempt, the retry loop of [process_batch] returns
    one record per row, after at least one call. *)
Lemma batch_loop_records (rows : list Row) (remaining n : nat) :
  1 ≤ retries self → (0 < remaining)%nat →
  ∃ res n', batch_loop self w rows remaining n = (Some res, n')
            ∧ length res = length rows ∧ Forall is_Some res ∧ (n < n')%nat.
Proof.
  intros Hr. revert n. induction remaining as [|k IH]; intros n Hpos; [lia|].
  cbn [batch_loop].
  destruct (batch_attempt self w (length rows) (chat w n)) as [res|] eqn:E.
  - eexists _, _. split; [done|].
    rewrite length_fmap. split; [by eapply batch_attempt_length|].
    split; [|lia]. apply Forall_fmap, Forall_true. by intros x; cbn.
  - destruct k as [|k].
    + pose proof (fallback_length rows (S n)) as Hf.
      pose proof (fallback_Some rows (S n) Hr) as Hs.
      pose proof (fallback_mono rows (S n)) as Hm.
      destruct (fallback self w rows (S n)) as [res n'].
      eexists _, _. split; [done|]. cbn in *. split; [done|]. split; [done|lia].
    + destruct (IH (S n)) as (res & n' & -> & ? & ? & ?); [lia|].
      eexists _, _. split; [done|]. split; [done|]. split; [done|lia].
Qed.

(** What [process_batch] does after a first attempt that failed. *)
Lemma process_batch_first_failed (rows : list Row) (n : nat) :
  1 ≤ retries self →
  batch_attempt self w (length rows) (chat w n) = None →
  process_batch self w rows n
  = if decide (retries self = 1)
    then (Some (fallback self w rows (S n)).1, (fallback self w rows (S n)).2)
    else batch_loop self w rows (Z.to_nat (retries self - 1)) (S n).
Proof.
  intros Hr E. unfold process_batch.
  destruct (Z.to_nat (retries self)) as [|k] eqn:Ek; [lia|].
  cbn [batch_loop]. rewrite E.
  case_decide as H1.
  - replace k with 0%nat by lia. by destruct (fallback self w rows (S n)).
  - replace (Z.to_nat (retries self - 1)) with k by lia.
    destruct k; [lia|done].
Qed.

(** **** Objects that pass the per-record processing *)

Lemma foldl_insert_lookup_elem (g : string → json) (cols : list string)
    (acc : Rec) (col : string) :
  col ∈ cols ∨ acc !! col = Some (g col) →
  foldl (λ (pd : Rec) c, <[c := g c]> pd) acc cols !! col = Some (g col).
Proof.
  revert acc. induction cols as [|c cols IH]; intros acc [Hin|Hacc]; cbn.
  - by apply elem_of_nil in Hin.
  - done.
  - apply IH. apply elem_of_cons in Hin as [->|Hin]; [right|by left].
    by rewrite lookup_insert_eq.
  - apply IH. right. destruct (decide (c = col)) as [->|Hne].
    + by rewrite lookup_insert_eq.
    + by rewrite lookup_insert_ne.
Qed.

Lemma reads_string_insert pd k v col :
  reads_string pd col → reads_string (<[k := JStr v]> pd) col.
Proof.
  unfold reads_string, get_or_empty. intros [s Hs].
  destruct (decide (k = col)) as [->|Hne].
  - rewrite lookup_insert_eq. by eexists.
  - rewrite lookup_insert_ne by done. by eexists.
Qed.

Lemma reads_string_comparative pd col :
  reads_string pd col → reads_string (enforce_comparative pd) col.
Proof.
  intros Hs. unfold enforce_comparative.
  repeat (match goal with
          | |- context [if ?b then _ else _] => destruct b
          end; cbn [negb andb];
          try done; try (by apply reads_string_insert);
          try (by do 2 apply reads_string_insert)).
Qed.

Lemma reads_string_abandonment pd col :
  reads_string pd col → reads_string (enforce_abandonment pd) col.
Proof.
  intros Hs. unfold enforce_abandonment.
  repeat (match goal with
          | |- context [if ?b then _ else _] => destruct b
          end; cbn [negb andb];
          try done; try (by apply reads_string_insert)).
Qed.

(** Under [rules_iterable] a well-formed object passes the per-record
    processing. *)
Lemma process_result_well_formed (x : json) :
  rules_iterable self → well_formed self x → is_Some (process_result self x).
Proof.
  intros Hrules (kvs & -> & Hstr). unfold process_result.
  assert (∃ b, first_column_is self (JObj kvs) "NOT_APPLICABLE" = Some b)
    as [b ->].
  { unfold first_column_is. destruct (first_column self); [|by eexists].
    case_bool_decide; by eexists. }
  cbn. destruct b; [done|].
  set (g := λ col, default (JStr "ERROR_MISSING_KEY") (assoc kvs col)).
  assert (∃ pd0, extract_columns self (JObj kvs) = Some pd0
                 ∧ ∀ col, col ∈ columns_to_code self → pd0 !! col = Some (g col))
    as (pd0 & -> & Hpd0).
  { unfold extract_columns.
    destruct (columns_to_code self) as [|c cols] eqn:Ec.
    - eexists. split; [done|]. by intros col ?%elem_of_nil.
    - eexists. split; [done|]. intros col Hin.
      apply (foldl_insert_lookup_elem g (c :: cols) ∅ col). by left. }
  cbn. unfold validate_processed_data.
  destruct (match first_column self with
            | Some c => _
            | None => false
            end); [done|].
  assert (forallb (check_column self (enforce_abandonment (enforce_comparative pd0)))
            (columns_to_code self) = true) as ->; [|done].
  apply forallb_forall. intros col Hin%list_elem_of_In.
  unfold check_column.
  destruct (find_valid_values self col) as [v|] eqn:Ev; [|done].
  destruct (truthy v) eqn:Et; [|done].
  assert (reads_string (enforce_abandonment (enforce_comparative pd0)) col)
    as [s ->].
  { apply reads_string_abandonment, reads_string_comparative.
    destruct (Hstr col v Hin Ev Et) as [s Hs].
    exists s. unfold get_or_empty. rewrite (Hpd0 col Hin). done. }
  specialize (Hrules col v Hin Ev Et). by destruct v.
Qed.

Lemma mapM_well_formed (l : list json) :
  rules_iterable self → Forall (well_formed self) l →
  is_Some (mapM (process_result self) l).
Proof.
  intros Hrules Hall. apply mapM_is_Some.
  eapply Forall_impl; [done|]. intros x Hx. by apply process_result_well_formed.
Qed.

End processor_facts.

Section processor_claims.
Import Data Processor.

(** C5 (as stated, refuted).  A response that parses to a JSON array does
  not make [process_batch] return the padded array: per-record processing
  reads every element with [.get] and raises on one that is not an object.
  The model answers [[1]] to a batch of two rows and is asked once: the
  array is shorter than the batch, yet the attempt fails, both rows go
  through [process_single_row], and the two records returned hold
  ['ERROR_ALL_RETRIES_FAILED'], after three calls; no record holds
  ['ERROR_BATCH_MISMATCH']. *)
Lemma process_batch_reconciles_counterexample :
1 ≤ retries Examples.ex_processor_once
∧ chat Examples.ex_world_number 0%nat = Content "[1]"
∧ parse_results_array Examples.ex_world_number (Py.strip "[1]")
  = Some (JArr [JInt 1])
∧ (length [JInt 1] < length (Examples.ex_rows 2))%nat
∧ process_batch Examples.ex_processor_once Examples.ex_world_number
    (Examples.ex_rows 2) 0%nat
  = (Some [Some (all_retries_failed Examples.ex_processor_once);
           Some (all_retries_failed Examples.ex_processor_once)], 3%nat)
∧ (∀ col, col ∈ columns_to_code Examples.ex_processor_once →
     all_retries_failed Examples.ex_processor_once !! col
     = Some (JStr "ERROR_ALL_RETRIES_FAILED"))
∧ ¬ ∃ res n' processed,
      process_batch Examples.ex_processor_once Examples.ex_world_number
        (Examples.ex_rows 2) 0%nat = (Some res, n')
      ∧ res !! 1%nat = Some (Some processed)
      ∧ ∀ col, col ∈ columns_to_code Examples.ex_processor_once →
               processed !! col = Some (JStr "ERROR_BATCH_MISMATCH").
Proof.
assert (Hpb : process_batch Examples.ex_processor_once Examples.ex_world_number
                (Examples.ex_rows 2) 0%nat
              = (Some [Some (all_retries_failed Examples.ex_processor_once);
                       Some (all_retries_failed Examples.ex_processor_once)], 3%nat))
  by (vm_compute; reflexivity).
assert (Hall : ∀ col, col ∈ columns_to_code Examples.ex_processor_once →
          all_retries_failed Examples.ex_processor_once !! col
          = Some (JStr "ERROR_ALL_RETRIES_FAILED")).
{ intros col Hcol. cbn in Hcol.
  apply elem_of_cons in Hcol as [->|Hcol]; [vm_compute; reflexivity|].
  apply elem_of_cons in Hcol as [->|Hcol]; [vm_compute; reflexivity|].
  by apply elem_of_nil in Hcol. }
split; [cbn; lia|]. split; [reflexivity|].
split; [vm_compute; reflexivity|]. split; [vm_compute; lia|].
split; [exact Hpb|]. split; [exact Hall|].
intros (res & n' & processed & Hres & Hlook & Hcols).
rewrite Hpb in Hres. injection Hres as <- <-.
cbn in Hlook. injection Hlook as <-.
specialize (Hcols "Topic"). rewrite Hall in Hcols.
- assert (Hc : "Topic" ∈ columns_to_code Examples.ex_processor_once)
    by (cbn; set_solver).
  specialize (Hcols Hc). discriminate Hcols.
- cbn; set_solver.
Qed.

(** C5 (amended).  With at least one attempt allowed, and the sleep between
  attempts returning (a non-negative delay; with [retries = 1] there is no
  sleep), for a batch whose model response parses to a JSON array
  [process_batch] returns exactly [batch_size] records.  The array is
  reconciled to [batch_size] elements: its first [batch_size] elements,
  followed when it is shorter by records with ['ERROR_BATCH_MISMATCH'] in
  every configured output column.  When per-record processing succeeds on
  every element of the reconciled array, the records returned after this
  one call are the processed elements.  Where every applicable validation
  rule is a list, a string or a dict, this needs the success on the first
  [batch_size] elements of the array only, which holds when each of them is
  a JSON object with strings under the validated columns; the padded tail
  then comes out with ['ERROR_BATCH_MISMATCH'] in every configured column.
  Otherwise, as when one of these elements is not a JSON object, the
  attempt counts as failed: with [retries = 1] every row goes through
  [process_single_row], with more the batch is tried again. *)
Theorem process_batch_reconciles (self : Processor) (w : World)
  (rows : list Row) (n : nat) (json_string : string) (arr : list json) :
1 ≤ retries self →
chat w n = Content json_string →
parse_results_array w (Py.strip json_string) = Some (JArr arr) →
reconcile self (length rows) (JArr arr)
  = Some (JArr (reconciled self (length rows) arr))
∧ reconciled self (length rows) arr
  = take (length rows) arr
    ++ replicate (length rows - length arr) (batch_mismatch self)
∧ (∃ res n', process_batch self w rows n = (Some res, n')
             ∧ length res = length rows ∧ Forall is_Some res ∧ (n < n')%nat)
∧ (∀ out, mapM (process_result self) (reconciled self (length rows) arr)
          = Some out →
     process_batch self w rows n = (Some (Some <$> out), S n)
     ∧ ∀ (i : nat) processed, (length arr ≤ i)%nat → out !! i = Some processed →
         ∀ col, col ∈ columns_to_code self →
                processed !! col = Some (JStr "ERROR_BATCH_MISMATCH"))
∧ (rules_iterable self →
   ∀ out, mapM (process_result self) (take (length rows) arr) = Some out →
     ∃ pad, (∀ col, col ∈ columns_to_code self →
                    pad !! col = Some (JStr "ERROR_BATCH_MISMATCH"))
            ∧ process_batch self w rows n
              = (Some (Some <$> (out ++ replicate (length rows - length arr) pad)),
                 S n))
∧ (rules_iterable self → Forall (well_formed self) (take (length rows) arr) →
   is_Some (mapM (process_result self) (take (length rows) arr)))
∧ (mapM (process_result self) (reconciled self (length rows) arr) = None →
     process_batch self w rows n
     = if decide (retries self = 1)
       then (Some (fallback self w rows (S n)).1, (fallback self w rows (S n)).2)
       else batch_loop self w rows (Z.to_nat (retries self - 1)) (S n))
∧ (columns_to_code self ≠ [] →
   ∀ x, x ∈ take (length rows) arr → (∀ kvs, x ≠ JObj kvs) →
     mapM (process_result self) (reconciled self (length rows) arr) = None).
Proof.
intros Hr Hchat Hparse.
pose proof (batch_attempt_array self w (length rows) _ _ Hparse) as Hba.
rewrite <- Hchat in Hba.
split; [done|].
split; [apply reconciled_eq|].
split; [apply batch_loop_records; [done|lia]|].
split.
{ intros out Hout. split.
  { apply process_batch_first_attempt; [done|]. by rewrite Hba. }
  intros i processed Hi Hlook col Hcol.
  pose proof Hout as Hlen%length_mapM. rewrite reconciled_length in Hlen.
  apply mapM_Some in Hout.
  destruct (Forall2_lookup_r _ _ _ _ _ Hout Hlook) as (x & Hx & Hpx).
  assert (Hib : (i < length rows)%nat).
  { rewrite Hlen. by eapply lookup_lt_Some. }
  rewrite reconciled_short in Hx by lia.
  rewrite lookup_app_r in Hx by lia.
  apply lookup_replicate in Hx as [-> _].
  by apply (process_result_mismatch self processed Hpx). }
split.
{ intros Hrules out Hout.
  destruct (process_result_mismatch_Some self Hrules) as [pad Hpad].
  exists pad. split; [by apply process_result_mismatch|].
  apply process_batch_first_attempt; [done|].
  rewrite Hba, reconciled_eq.
  apply mapM_app; [done|]. by apply mapM_replicate. }
split; [apply mapM_well_formed|].
split.
{ intros Hnone. apply process_batch_first_failed; [done|]. by rewrite Hba. }
intros Hcols x Hx Hobj. rewrite reconciled_eq.
apply (mapM_None_elem _ _ x).
- apply elem_of_app. by left.
- by apply process_result_not_object.
Qed.

Lemma process_batch_reconciles_witness :
1 ≤ retries Examples.ex_processor
∧ chat Examples.ex_world 0%nat = Content " [{}] "
∧ parse_results_array Examples.ex_world (Py.strip " [{}] ") = Some (JArr [JObj []])
∧ ∃ out pad,
    length out = 1%nat
    ∧ (∀ col, col ∈ columns_to_code Examples.ex_processor →
              pad !! col = Some (JStr "ERROR_BATCH_MISMATCH"))
    ∧ process_batch Examples.ex_processor Examples.ex_world
        (Examples.ex_rows 3) 0%nat
      = (Some (Some <$> (out ++ replicate 2 pad)), 1%nat).
Proof.
assert (H1 : 1 ≤ retries Examples.ex_processor) by (cbn; lia).
assert (H2 : chat Examples.ex_world 0%nat = Content " [{}] ") by reflexivity.
assert (H3 : parse_results_array Examples.ex_world (Py.strip " [{}] ")
             = Some (JArr [JObj []])) by (vm_compute; reflexivity).
split; [exact H1|]. split; [exact H2|]. split; [exact H3|].
destruct (process_batch_reconciles Examples.ex_processor Examples.ex_world
            (Examples.ex_rows 3) 0%nat " [{}] " [JObj []] H1 H2 H3)
  as (_ & _ & _ & _ & Hpad & _).
destruct (mapM (process_result Examples.ex_processor)
            (take (length (Examples.ex_rows 3)) [JObj []])) as [out|] eqn:E;
  [|vm_compute in E; discriminate E].
destruct (Hpad (rules_iterable_empty Examples.ex_processor eq_refl) out eq_refl)
  as (pad & Hcols & Hpb).
exists out, pad. split; [|split; [exact Hcols|exact Hpb]].
apply length_mapM in E. rewrite <- E. reflexivity.
Defined.

End processor_claims.

(** *** The processing loop and its checkpoints *)
Section parts_facts.
Import Data Processor.
Variable df : list Row.
Variable serializer : Serializer.Serializer.
Variable job_id : string.

Lemma last_from_cons (p c : nat) (l : list nat) : last_from p (c :: l) = last_from c l.
Proof. unfold last_from. rewrite last_cons. by destruct (last l). Qed.

Lemma last_from_snoc (p c : nat) (l : list nat) : last_from p (l ++ [c]) = c.
Proof. unfold last_from. by rewrite last_snoc. Qed.

Lemma increasing_from_snoc (p c : nat) (l : list nat) :
  increasing_from p (l ++ [c]) ↔ increasing_from p l ∧ (last_from p l < c)%nat.
Proof.
  revert p. induction l as [|x l IH]; intros p.
  - cbn. unfold last_from. cbn. tauto.
  - cbn [app increasing_from]. rewrite IH, last_from_cons. tauto.
Qed.

Lemma increasing_from_le (p : nat) (l : list nat) :
  increasing_from p l → (p ≤ last_from p l)%nat ∧ Forall (λ c, c ≤ last_from p l)%nat l.
Proof.
  revert p. induction l as [|x l IH]; intros p.
  - unfold last_from. cbn. auto.
  - intros [Hpx Hinc]. rewrite last_from_cons.
    destruct (IH x Hinc) as [Hx Hall]. split; [lia|]. by constructor.
Qed.

Lemma part_table_app (results more : list (option Rec)) (i j : nat) :
  (j ≤ length results)%nat →
  part_table df (results ++ more) i j = part_table df results i j.
Proof.
  intros Hj. unfold part_table, rows_between. f_equal.
  destruct (decide (i ≤ length results)%nat) as [Hi|Hi].
  - rewrite drop_app_le by lia. rewrite take_app_le; [done|].
    rewrite length_drop. lia.
  - replace (j - i)%nat with 0%nat by lia. done.
Qed.

Lemma expected_parts_app (results more : list (option Rec)) p num cuts :
  Forall (λ c, c ≤ length results)%nat cuts →
  expected_parts df serializer job_id (results ++ more) p num cuts
  = expected_parts df serializer job_id results p num cuts.
Proof.
  revert p num. induction cuts as [|c cuts IH]; intros p num Hall; [done|].
  apply Forall_cons in Hall as [Hc Hall]. cbn.
  by rewrite part_table_app, IH.
Qed.

Lemma expected_parts_snoc (results : list (option Rec)) p num cuts c :
  expected_parts df serializer job_id results p num (cuts ++ [c])
  = expected_parts df serializer job_id results p num cuts
    ++ [mkPart (num + Z.of_nat (length cuts))
               (Serializer.get_checkpoint_filename serializer job_id
                  (num + Z.of_nat (length cuts)))
               (part_table df results (last_from p cuts) c) c].
Proof.
  revert p num. induction cuts as [|x cuts IH]; intros p num.
  - cbn. unfold last_from. cbn. by rewrite Z.add_0_r.
  - cbn [app expected_parts length]. rewrite IH, last_from_cons.
    replace (num + 1 + Z.of_nat (length cuts)) with (num + Z.of_nat (S (length cuts)))
      by lia.
    done.
Qed.

Lemma expected_parts_rows_done results p num cuts :
  rows_done <$> expected_parts df serializer job_id results p num cuts = cuts.
Proof.
  revert p num. induction cuts as [|c cuts IH]; intros p num; [done|].
  cbn. by rewrite IH.
Qed.

Lemma expected_parts_part_num results p num cuts :
  part_num <$> expected_parts df serializer job_id results p num cuts
  = seqZ num (Z.of_nat (length cuts)).
Proof.
  revert p num. induction cuts as [|c cuts IH]; intros p num.
  - cbn. by rewrite seqZ_nil.
  - cbn [expected_parts fmap list_fmap length]. rewrite IH.
    rewrite (seqZ_cons num) by lia. do 2 f_equal; lia.
Qed.

(** Two neighbouring parts meet at the first one's end. *)
Lemma expected_parts_adjacent results p num cuts (i : nat) pa pb :
  increasing_from p cuts →
  expected_parts df serializer job_id results p num cuts !! i = Some pa →
  expected_parts df serializer job_id results p num cuts !! S i = Some pb →
  ∃ a c c', (a < c)%nat ∧ (c < c')%nat ∧ (c' ≤ last_from p cuts)%nat
            ∧ part_rows pa = part_table df results a c
            ∧ part_rows pb = part_table df results c c'.
Proof.
  revert p num i. induction cuts as [|c cuts IH]; intros p num i Hinc Ha Hb; [done|].
  destruct Hinc as [Hpc Hinc]. rewrite last_from_cons.
  destruct i as [|i]; cbn in Ha, Hb.
  - injection Ha as <-. destruct cuts as [|c' cuts]; [done|].
    cbn in Hb. injection Hb as <-. destruct Hinc as [Hcc' Hinc].
    exists p, c, c'. split; [done|]. split; [done|].
    split; [|done].
    rewrite last_from_cons. by apply increasing_from_le.
  - by apply (IH c (num + 1) i).
Qed.

Lemma rows_between_split {A} (l : list A) (p c e : nat) :
  (p ≤ c)%nat → (c ≤ e)%nat →
  rows_between p e l = rows_between p c l ++ rows_between c e l.
Proof.
  intros Hpc Hce. unfold rows_between.
  replace (e - p)%nat with ((c - p) + (e - c))%nat by lia.
  rewrite <- take_take_drop, drop_drop.
  by replace (p + (c - p))%nat with c by lia.
Qed.

Lemma rows_between_length {A} (l : list A) (p c : nat) :
  (c ≤ length l)%nat → length (rows_between p c l) = (c - p)%nat.
Proof. intros Hc. unfold rows_between. rewrite length_take, length_drop. lia. Qed.

(** The parts laid end to end are the table of everything up to the last
    cut. *)
Lemma expected_parts_concat results p num cuts :
  increasing_from p cuts →
  (last_from p cuts ≤ length df)%nat → (last_from p cuts ≤ length results)%nat →
  concat (part_rows <$> expected_parts df serializer job_id results p num cuts)
  = part_table df results p (last_from p cuts).
Proof.
  revert p num. induction cuts as [|c cuts IH]; intros p num Hinc Hdf Hres.
  - cbn. unfold last_from, part_table, rows_between. cbn.
    by rewrite Nat.sub_diag.
  - destruct Hinc as [Hpc Hinc]. rewrite last_from_cons in *.
    cbn [expected_parts fmap list_fmap concat part_rows]. rewrite IH by done.
    pose proof (increasing_from_le _ _ Hinc) as [Hcl _].
    unfold part_table.
    rewrite (rows_between_split df p c (last_from c cuts)) by lia.
    rewrite (rows_between_split results p c (last_from c cuts)) by lia.
    rewrite zip_with_app; [done|].
    rewrite !rows_between_length by lia. done.
Qed.

End parts_facts.

Section dataframe_facts.
Import Data Processor.
Context {M : Type} `{Monitor M}.
Variable self : Processor.
Variable w : World.
Variable df : list Row.
Variable batch_size : Z.
Variable serializer : Serializer.Serializer.
Variable job_id : string.
Variable metadata : gmap string json.
Variable pause_event : bool.

(** A property of the monitor that progress updates within the total and
    checkpoint records preserve. *)
Variable Q : M → Prop.
Hypothesis Q_update : ∀ (c : nat) a metrics m,
  (c ≤ length df)%nat → Q m →
  Q (update_progress (Z.of_nat c) (Z.of_nat (length df)) a metrics m).
Hypothesis Q_record : ∀ n f m, Q m → Q (record_checkpoint n f m).

Local Abbreviation cuts st := (rows_done <$> saved st).
Local Abbreviation part_path num :=
  (Serializer.get_checkpoint_filename serializer job_id num).

(** What holds of the state however the run ends. *)
Definition weak (st : Run M) : Prop :=
  (length (results st) ≤ length df)%nat
  ∧ last_checkpoint_row st = last_from 0 (cuts st)
  ∧ (last_checkpoint_row st ≤ length (results st))%nat
  ∧ increasing_from 0 (cuts st)
  ∧ saved st = expected_parts df serializer job_id (results st) 0 1 (cuts st)
  ∧ Q (monitor st).

(** What holds between two iterations, [k] rows being done. *)
Definition inv (k : nat) (st : Run M) : Prop :=
  weak st ∧ length (results st) = k
  ∧ checkpoint_counter st = Z.of_nat (length (saved st)).

(** Nothing outside the program stops the run. *)
Definition unhindered (d : Disk) : Prop :=
  (pause_event = false ∨ ∀ i, pause_ends w i = true)
  ∧ (batch_size = 1 ∨ 1 ≤ retries self)
  ∧ Serializer.checkpoint_interval serializer ≠ 0
  ∧ ∀ num, fault d (part_path num) = None.

Lemma mapM_lookup_seq {A} (l : list A) (i n : nat) :
  (i + n ≤ length l)%nat →
  mapM (λ j, l !! j) (seq i n) = Some (take n (drop i l)).
Proof.
  revert i. induction n as [|n IH]; intros i Hle; [done|].
  cbn [seq]. rewrite mapM_cons.
  destruct (lookup_lt_is_Some_2 l i) as [x Hx]; [lia|].
  rewrite Hx, IH by lia. cbn.
  by rewrite (drop_S _ _ _ Hx).
Qed.

Lemma process_batch_some_length (rows : list Row) (n : nat) res n' :
  process_batch self w rows n = (Some res, n') → length res = length rows.
Proof.
  unfold process_batch. intros E.
  destruct (Z.to_nat (retries self)) as [|k] eqn:Ek; [done|].
  destruct (batch_loop_length self w rows (S k) n) as (res' & n'' & E' & Hlen);
    [lia|].
  rewrite E' in E. by injection E as <- <-.
Qed.

Lemma should_checkpoint_is_cut (c : nat) b :
  Serializer.should_checkpoint serializer (Z.of_nat c) (Z.of_nat (length df)) = Some b →
  Serializer.checkpoint_interval serializer ≠ 0
  ∧ b = is_cut (Serializer.checkpoint_interval serializer) (length df) c.
Proof.
  unfold Serializer.should_checkpoint, is_cut. case_decide; [done|].
  intros [= <-]. split; [done|]. f_equal.
  apply bool_decide_ext. lia.
Qed.

Lemma weak_monitor st m :
  weak st → Q m →
  weak (mkRun (results st) (api_call_count st) (last_checkpoint_row st)
              (checkpoint_counter st) (chat_calls st) (disk st) m (saved st)).
Proof. unfold weak. cbn. tauto. Qed.

Lemma progress_update_inv k metrics st :
  (k ≤ length df)%nat → inv k st →
  inv k (progress_update df batch_size k metrics st)
  ∧ disk (progress_update df batch_size k metrics st) = disk st
  ∧ saved (progress_update df batch_size k metrics st) = saved st.
Proof.
  intros Hk (Hw & Hlen & Hc). unfold progress_update.
  case_bool_decide; [|done].
  destruct (_ || _); [|done].
  cbn. split; [|done]. split; [|done].
  apply (weak_monitor st); [done|]. apply Q_update; [done|]. apply Hw.
Qed.

(** The checkpoint taken when [current_row_num] rows are done and the last
    checkpoint is behind: either the next part is saved, or the write
    faults. *)
Lemma checkpoint_step (current_row_num : nat) metrics st :
  inv current_row_num st →
  (current_row_num ≤ length df)%nat →
  (last_checkpoint_row st < current_row_num)%nat →
  match checkpoint w df serializer job_id metadata current_row_num metrics st with
  | Returned st' =>
      inv current_row_num st'
      ∧ fault (disk st') = fault (disk st)
      ∧ cuts st' = cuts st ++ [current_row_num]
      ∧ fault (disk st) (part_path (checkpoint_counter st + 1)) = None
  | Raised st' =>
      weak st' ∧ fault (disk st) (part_path (checkpoint_counter st + 1)) ≠ None
  | Hangs st' => False
  end.
Proof.
  intros ((Hle & Hlcr & Hlcr_le & Hinc & Hsaved & HQ) & Hlen & Hctr) Hcur Hlt.
  unfold checkpoint.
  rewrite bool_decide_true by lia.
  replace (length (results st) - (current_row_num - last_checkpoint_row st))%nat
    with (last_checkpoint_row st) by lia.
  assert (Hidx : take (current_row_num - last_checkpoint_row st)
                   (drop (last_checkpoint_row st) (row_indices df))
                 = seq (last_checkpoint_row st)
                       (current_row_num - last_checkpoint_row st)).
  { unfold row_indices. rewrite drop_seq, take_seq. cbn. f_equal. lia. }
  rewrite Hidx. unfold prepare_checkpoint_data.
  rewrite mapM_lookup_seq by lia. cbn.
  rewrite bool_decide_true by (rewrite length_drop, length_seq; lia).
  assert (Htab : zip_with (λ row r, row_columns row ∪ result_columns r)
                   (take (current_row_num - last_checkpoint_row st)
                      (drop (last_checkpoint_row st) df))
                   (drop (last_checkpoint_row st) (results st))
                 = part_table df (results st) (last_checkpoint_row st)
                              current_row_num).
  { unfold part_table, rows_between. f_equal.
    symmetry. apply take_ge. rewrite length_drop. lia. }
  rewrite Htab.
  unfold Serializer.save_checkpoint, to_csv.
  destruct (fault (disk st) (part_path (checkpoint_counter st + 1))) as [k|] eqn:Ef.
  - split; [|done]. unfold weak. cbn. tauto.
  - cbn. split; [|split; [done|split; [|done]]].
    + split; [|split; [done|]].
      * unfold weak. cbn. rewrite fmap_app. cbn.
        split; [lia|]. split; [by rewrite last_from_snoc|]. split; [lia|].
        split; [apply increasing_from_snoc; split; [done | lia]|].
        split; [|by apply Q_record].
        rewrite expected_parts_snoc, <- Hsaved, length_fmap, Hlcr.
        replace (1 + Z.of_nat (length (saved st))) with (checkpoint_counter st + 1)
          by lia.
        done.
      * cbn. rewrite length_app. cbn. lia.
    + cbn. by rewrite fmap_app.
Qed.

Lemma weak_extend st res api n' m :
  weak st → (length (results st ++ res) ≤ length df)%nat → Q m →
  weak (mkRun (results st ++ res) api (last_checkpoint_row st)
              (checkpoint_counter st) n' (disk st) m (saved st)).
Proof.
  intros (Hle & Hlcr & Hlcr_le & Hinc & Hsaved & HQ) Hlen Hm.
  unfold weak. cbn.
  split; [done|]. split; [done|]. split; [rewrite length_app; lia|].
  split; [done|]. split; [|done].
  rewrite expected_parts_app; [done|].
  apply increasing_from_le in Hinc as [_ Hall].
  eapply Forall_impl; [exact Hall|]. cbn. intros c Hc. lia.
Qed.

Lemma weak_calls st n' :
  weak st →
  weak (mkRun (results st) (api_call_count st) (last_checkpoint_row st)
              (checkpoint_counter st) n' (disk st) (monitor st) (saved st)).
Proof. unfold weak. cbn. tauto. Qed.

(** One iteration of the loop on the batch of the [len] rows after the first
    [k]. *)
Lemma process_one_batch_step (batch_no k len : nat) st :
  inv k st → (0 < len)%nat → (k + len ≤ length df)%nat →
  (batch_size = 1 → len = 1%nat) →
  match process_one_batch self w df batch_size serializer job_id metadata
          pause_event batch_no (seq k len) st with
  | Returned st' =>
      inv (k + len) st'
      ∧ fault (disk st') = fault (disk st)
      ∧ cuts st'
        = cuts st ++ (if is_cut (Serializer.checkpoint_interval serializer)
                                (length df) (k + len)
                      then [(k + len)%nat] else [])
  | Raised st' => weak st' ∧ ¬ unhindered (disk st)
  | Hangs st' => weak st' ∧ ¬ unhindered (disk st)
  end.
Proof.
  intros Hinv Hlen Hle Hone. pose proof Hinv as (Hw & Hres & Hctr).
  unfold process_one_batch. rewrite mapM_lookup_seq by lia.
  destruct (pause_event && negb (pause_ends w batch_no)) eqn:Ep.
  { split; [done|]. intros ([Hp|Hp] & _).
    - by rewrite Hp in Ep.
    - rewrite Hp in Ep. by rewrite andb_false_r in Ep. }
  assert (Hdf : length (take len (drop k df)) = len).
  { rewrite length_take, length_drop. lia. }
  destruct (if bool_decide (batch_size = 1)
            then match take len (drop k df) with
                 | [] => (None, chat_calls st)
                 | row :: _ =>
                     let '(processed_data, n) :=
                       process_single_row self w row (chat_calls st) in
                     (Some [processed_data], n)
                 end
            else process_batch self w (take len (drop k df)) (chat_calls st))
    as [br n'] eqn:Ebr.
  assert (Hbr : (∀ res, br = Some res → length res = len)
                ∧ (br = None → ¬ (batch_size = 1 ∨ 1 ≤ retries self))).
  { case_bool_decide as Hb.
    - destruct (take len (drop k df)) as [|row rest]; [cbn in Hdf; lia|].
      destruct (process_single_row self w row (chat_calls st)) as [pd n1].
      injection Ebr as <- <-. split; [|done].
      intros res [= <-]. cbn. by rewrite Hone.
    - split.
      + intros res ->. etrans; [|exact Hdf].
        by eapply process_batch_some_length.
      + intros -> [?|Hr]; [done|].
        destruct (process_batch_length self w (take len (drop k df))
                    (chat_calls st) Hr) as (res & n'' & E & _).
        rewrite E in Ebr. done. }
  destruct Hbr as [Hsome Hnone].
  destruct br as [res|].
  2:{ split; [by apply weak_calls|].
      intros (_ & Hr & _). by apply Hnone. }
  specialize (Hsome res eq_refl).
  assert (Hk : length (results st ++ res) = (k + len)%nat).
  { rewrite length_app. lia. }
  rewrite Hk.
  destruct (Serializer.should_checkpoint serializer (Z.of_nat (k + len))
              (Z.of_nat (total_rows df))) as [b|] eqn:Esc.
  2:{ split.
      - apply weak_extend; [done | lia | apply Hw].
      - intros (_ & _ & Hi & _). unfold Serializer.should_checkpoint in Esc.
        by case_decide. }
  apply should_checkpoint_is_cut in Esc as [Hi ->].
  destruct (is_cut (Serializer.checkpoint_interval serializer) (length df) (k + len)).
  - pose proof (checkpoint_step (k + len)
                  (build_metrics w (k + len))
                  (mkRun (results st ++ res) (api_call_count st + 1)
                     (last_checkpoint_row st) (checkpoint_counter st) n' (disk st)
                     (update_progress (Z.of_nat (k + len))
                        (Z.of_nat (total_rows df)) (api_call_count st + 1)
                        (build_metrics w (k + len)) (monitor st))
                     (saved st))) as Hstep.
    cbn [results last_checkpoint_row checkpoint_counter disk saved] in Hstep.
    destruct (checkpoint w df serializer job_id metadata (k + len) _ _)
      as [st3|st3|st3].
    + destruct Hstep as (Hinv3 & Hf3 & Hc3 & _).
      { split; [|done]. apply weak_extend; [done | lia |].
        apply Q_update; [lia | apply Hw]. }
      { lia. }
      { destruct Hw as (_ & _ & Hl & _). lia. }
      destruct (progress_update_inv (k + len) (build_metrics w (k + len)) st3)
        as (Hinv4 & Hd4 & Hs4); [lia | done |].
      split; [done|]. by rewrite Hd4, Hs4.
    + destruct Hstep as (Hw3 & Hf3).
      { split; [|done]. apply weak_extend; [done | lia |].
        apply Q_update; [lia | apply Hw]. }
      { lia. }
      { destruct Hw as (_ & _ & Hl & _). lia. }
      split; [done|]. intros (_ & _ & _ & Hfault). by apply Hf3.
    + destruct Hstep.
      { split; [|done]. apply weak_extend; [done | lia |].
        apply Q_update; [lia | apply Hw]. }
      { lia. }
      { destruct Hw as (_ & _ & Hl & _). lia. }
  - destruct (progress_update_inv (k + len) (build_metrics w (k + len))
                (mkRun (results st ++ res) (api_call_count st + 1)
                   (last_checkpoint_row st) (checkpoint_counter st) n' (disk st)
                   (monitor st) (saved st)))
      as (Hinv4 & Hd4 & Hs4); [lia | |].
    { split; [|done]. apply weak_extend; [done | lia | apply Hw]. }
    split; [done|]. rewrite Hd4, Hs4. cbn. by rewrite app_nil_r.
Qed.

Lemma chunks_go_seq (fuel b k n : nat) :
  (0 < n)%nat →
  chunks_go (S fuel) b (seq k n)
  = seq k (b `min` n) :: chunks_go fuel b (seq (k + b `min` n) (n - b `min` n)).
Proof.
  intros Hn. destruct n as [|n]; [lia|].
  change (chunks_go (S fuel) b (seq k (S n)))
    with (take b (seq k (S n)) :: chunks_go fuel b (drop b (seq k (S n)))).
  rewrite take_seq, drop_seq. f_equal. f_equal.
  destruct (decide (b ≤ S n)%nat).
  - by rewrite Nat.min_l by lia.
  - rewrite Nat.min_r by lia.
    replace (S n - b)%nat with 0%nat by lia.
    by replace (S n - S n)%nat with 0%nat by lia.
Qed.

Lemma unhindered_fault d d' : fault d' = fault d → unhindered d → unhindered d'.
Proof. unfold unhindered. intros ->. done. Qed.

Local Abbreviation cut_here c :=
  (is_cut (Serializer.checkpoint_interval serializer) (length df) c = true).

(** The whole loop, from the state reached after [k] rows with [n] rows
    still to do. *)
Lemma run_batches_inv (fuel : nat) : ∀ (k n batch_no : nat) st,
  (k + n = length df)%nat → (n ≤ fuel)%nat → 0 < batch_size → inv k st →
  match run_batches self w df batch_size serializer job_id metadata pause_event
          batch_no (chunks_go fuel (Z.to_nat batch_size) (seq k n)) st with
  | Returned st' =>
      inv (length df) st'
      ∧ fault (disk st') = fault (disk st)
      ∧ cuts st'
        = cuts st ++ filter (λ c, cut_here c)
                            (batch_ends_go fuel (Z.to_nat batch_size) k n)
  | Raised st' => weak st' ∧ ¬ unhindered (disk st)
  | Hangs st' => weak st' ∧ ¬ unhindered (disk st)
  end.
Proof.
  induction fuel as [|fuel IH]; intros k n batch_no st Hkn Hn Hb Hinv.
  { assert (n = 0%nat) as -> by lia. cbn.
    replace (length df) with k by lia.
    split; [done|]. split; [done|]. by rewrite app_nil_r. }
  destruct n as [|n].
  { cbn. replace (length df) with k by lia.
    split; [done|]. split; [done|]. by rewrite app_nil_r. }
  rewrite chunks_go_seq by lia. cbn [run_batches batch_ends_go].
  set (len := (Z.to_nat batch_size `min` S n)%nat).
  assert (Hlen : (0 < len ≤ S n)%nat) by (unfold len; lia).
  pose proof (process_one_batch_step batch_no k len st Hinv) as Hstep.
  destruct (process_one_batch self w df batch_size serializer job_id metadata
              pause_event batch_no (seq k len) st) as [st1|st1|st1].
  - destruct Hstep as (Hinv1 & Hf1 & Hc1); [lia | lia | unfold len; lia |].
    specialize (IH (k + len)%nat (S n - len)%nat (S batch_no) st1).
    destruct (run_batches self w df batch_size serializer job_id metadata
                pause_event (S batch_no) _ st1) as [st2|st2|st2].
    + destruct IH as (Hinv2 & Hf2 & Hc2); [lia | lia | done | done |].
      split; [done|]. split; [congruence|].
      rewrite Hc2, Hc1, <- app_assoc. f_equal.
      destruct (is_cut _ _ (k + len)) eqn:Ecut.
      * by rewrite filter_cons_True.
      * rewrite filter_cons_False; [done|]. by rewrite Ecut.
    + destruct IH as (Hw2 & Hu2); [lia | lia | done | done |].
      split; [done|]. intros Hu. apply Hu2. by apply (unhindered_fault (disk st)).
    + destruct IH as (Hw2 & Hu2); [lia | lia | done | done |].
      split; [done|]. intros Hu. apply Hu2. by apply (unhindered_fault (disk st)).
  - apply Hstep; [lia | lia | unfold len; lia].
  - apply Hstep; [lia | lia | unfold len; lia].
Qed.

Lemma inv_init mon n d :
  Q mon → inv 0 (mkRun [] 0 0%nat 0 n d mon []).
Proof. intros HQ. unfold inv, weak. cbn. unfold last_from. cbn. repeat split; done || lia. Qed.

(** However [process_dataframe] ends, the state it reaches satisfies
    [weak]. *)
Lemma process_dataframe_weak mon n d :
  Q mon →
  weak (state_of (process_dataframe self w df batch_size serializer job_id
                    metadata pause_event mon n d)).
Proof.
  intros HQ. unfold process_dataframe.
  case_decide; [apply (inv_init mon n d HQ)|].
  case_decide; [apply (inv_init mon n d HQ)|].
  unfold chunks, row_indices. rewrite length_seq.
  pose proof (run_batches_inv (length df) 0 (length df) 0
                (mkRun [] 0 0%nat 0 n d mon [])) as Hrun.
  destruct (run_batches _ _ _ _ _ _ _ _ _ _ _) as [st|st|st]; cbn;
    apply Hrun; (lia || by apply inv_init).
Qed.

(** When it returns after running with a positive batch size, every row has
    a result and the parts end exactly at the batch ends that
    [should_checkpoint] selects. *)
Lemma process_dataframe_returned mon n d st :
  Q mon → 1 ≤ batch_size →
  process_dataframe self w df batch_size serializer job_id metadata pause_event
                    mon n d = Returned st →
  inv (length df) st
  ∧ cuts st = filter (λ c, cut_here c) (batch_ends (Z.to_nat batch_size) (length df)).
Proof.
  intros HQ Hb. unfold process_dataframe.
  case_decide; [lia|]. case_decide; [lia|].
  unfold chunks, row_indices. rewrite length_seq.
  pose proof (run_batches_inv (length df) 0 (length df) 0
                (mkRun [] 0 0%nat 0 n d mon [])) as Hrun.
  intros E. rewrite E in Hrun.
  destruct Hrun as (Hinv & _ & Hc); [lia | lia | lia | by apply inv_init |].
  split; [done|]. by rewrite Hc.
Qed.

(** With nothing in its way and a positive batch size, it returns. *)
Lemma process_dataframe_returns mon n d :
  Q mon → 1 ≤ batch_size → unhindered d →
  ∃ st, process_dataframe self w df batch_size serializer job_id metadata
                          pause_event mon n d = Returned st.
Proof.
  intros HQ Hb Hu. unfold process_dataframe.
  case_decide; [lia|]. case_decide; [lia|].
  unfold chunks, row_indices. rewrite length_seq.
  pose proof (run_batches_inv (length df) 0 (length df) 0
                (mkRun [] 0 0%nat 0 n d mon [])) as Hrun.
  destruct (run_batches _ _ _ _ _ _ _ _ _ _ _) as [st|st|st].
  - by exists st.
  - destruct Hrun as (_ & Hnu); [lia | lia | lia | by apply inv_init |].
    by destruct Hnu.
  - destruct Hrun as (_ & Hnu); [lia | lia | lia | by apply inv_init |].
    by destruct Hnu.
Qed.

Lemma last_cut_total (fuel b : nat) : ∀ (p k n : nat),
  (0 < b)%nat → (0 < n ≤ fuel)%nat → (k + n = length df)%nat →
  last_from p (filter (λ c, cut_here c) (batch_ends_go fuel b k n)) = length df.
Proof.
  induction fuel as [|fuel IH]; intros p k n Hb Hn Hkn; [lia|].
  destruct n as [|n]; [lia|]. cbn [batch_ends_go].
  set (len := (b `min` S n)%nat).
  destruct (decide (S n - len = 0)%nat) as [Hz|Hnz].
  - rewrite Hz. assert (batch_ends_go fuel b (k + len) 0 = []) as ->
      by (by destruct fuel).
    rewrite filter_cons_True.
    + unfold last_from. cbn. unfold len in *. lia.
    + unfold is_cut. rewrite orb_true_iff. right.
      apply bool_decide_eq_true. unfold len in *. lia.
  - destruct (is_cut (Serializer.checkpoint_interval serializer) (length df)
                     (k + len)) eqn:Ecut.
    + rewrite filter_cons_True by done. rewrite last_from_cons.
      apply IH; unfold len in *; lia.
    + rewrite filter_cons_False by (by rewrite Ecut).
      apply IH; unfold len in *; lia.
Qed.

End dataframe_facts.

Section parts_row_ids.
Import Data Processor.

Lemma row_id_lookup (row : Row) (r : option Rec) :
  (row_columns row ∪ result_columns r) !! "RowID" = Some (JInt (RowID row)).
Proof.
  apply lookup_union_Some_l. unfold row_columns. by rewrite lookup_insert_eq.
Qed.

(** The RowIDs in the table of the rows [a .. c-1] are RowIDs of those
    rows. *)
Lemma part_row_ids_table (df : list Row) results (a c : nat) p x :
  part_rows p = part_table df results a c →
  x ∈ part_row_ids p → x ∈ RowID <$> rows_between a c df.
Proof.
  intros Hp Hx. unfold part_row_ids in Hx. rewrite Hp in Hx.
  apply list_elem_of_omap in Hx as (trow & Hin & Hg).
  unfold part_table in Hin.
  apply elem_of_zip_with in Hin as (row & r & -> & Hrow & _).
  rewrite row_id_lookup in Hg. injection Hg as <-.
  by apply list_elem_of_fmap_2.
Qed.

Lemma rows_between_before {A} (l : list A) (a c : nat) x :
  (a ≤ c)%nat → x ∈ rows_between a c l → x ∈ take c l.
Proof.
  intros Hac Hx.
  assert (take c l = rows_between 0 c l) as ->
    by (unfold rows_between; cbn; by rewrite Nat.sub_0_r).
  rewrite (rows_between_split l 0 a c) by lia.
  apply elem_of_app. by right.
Qed.

Lemma rows_between_after {A} (l : list A) (c e : nat) x :
  x ∈ rows_between c e l → x ∈ drop c l.
Proof. unfold rows_between. apply subseteq_take. Qed.

End parts_row_ids.

Section dataframe_claims.
Import Data Processor Examples.

(** C4 (as stated, refuted). For an input frame whose RowIDs are 2 then 1,
    with batch size 1 and checkpoint interval 1, the run writes part 1 with
    RowID 2 and part 2 with RowID 1: the RowIDs of part 2 are not greater
    than those of part 1. *)
Lemma process_dataframe_unsorted_counterexample :
  part_row_ids
    <$> saved (state_of (process_dataframe ex_processor ex_world ex_unsorted 1
                           (Serializer.mkSerializer "checkpoints" 1) ex_job ∅
                           false (ex_monitor 2) 0%nat ex_disk_empty))
  = [[2]; [1]]
  ∧ ¬ (∀ (i : nat) p p',
         saved (state_of (process_dataframe ex_processor ex_world ex_unsorted 1
                            (Serializer.mkSerializer "checkpoints" 1) ex_job ∅
                            false (ex_monitor 2) 0%nat ex_disk_empty)) !! i = Some p →
         saved (state_of (process_dataframe ex_processor ex_world ex_unsorted 1
                            (Serializer.mkSerializer "checkpoints" 1) ex_job ∅
                            false (ex_monitor 2) 0%nat ex_disk_empty)) !! S i = Some p' →
         ∀ x y, x ∈ part_row_ids p → y ∈ part_row_ids p' → x < y).
Proof.
  assert (Hids : part_row_ids
            <$> saved (state_of (process_dataframe ex_processor ex_world
                                   ex_unsorted 1
                                   (Serializer.mkSerializer "checkpoints" 1)
                                   ex_job ∅ false (ex_monitor 2) 0%nat ex_disk_empty))
          = [[2]; [1]]) by (vm_compute; reflexivity).
  split; [exact Hids|].
  remember (saved (state_of (process_dataframe ex_processor ex_world ex_unsorted 1
                               (Serializer.mkSerializer "checkpoints" 1) ex_job ∅
                               false (ex_monitor 2) 0%nat ex_disk_empty))) as parts.
  clear Heqparts. intros Hall.
  destruct parts as [|p [|p' parts]]; [discriminate Hids..|].
  injection Hids as H1 H2 _.
  specialize (Hall 0%nat p p' eq_refl eq_refl 2 1).
  rewrite H1, H2 in Hall.
  assert (2 < 1) by (apply Hall; by left). lia.
Qed.

(** C4 (amended). For every input frame, batch size and checkpoint interval,
    however the run of [process_dataframe] ends, the parts it has saved are
    numbered 1, 2, 3, ... without gap; each part holds exactly the rows and
    results between the end of the previous part and its own end, so that
    the parts laid end to end are the first [last_checkpoint_row] processed
    results with no overlap and no gap; and when the run returns with a
    batch size of at least 1, that is every row of the frame.  When the
    RowIDs of the input frame are strictly increasing in row order, every
    RowID of a part is greater than every RowID of the part before it. *)
Theorem process_dataframe_parts {M : Type} `{Monitor M} (self : Processor)
    (w : World) (df : list Row) (batch_size : Z)
    (serializer : Serializer.Serializer) (job_id : string)
    (metadata : gmap string json) (pause_event : bool) (mon : M) (n : nat)
    (d : Disk) :
  let o := process_dataframe self w df batch_size serializer job_id metadata
                             pause_event mon n d in
  let st := state_of o in
  part_num <$> saved st = seqZ 1 (Z.of_nat (length (saved st)))
  ∧ increasing_from 0 (rows_done <$> saved st)
  ∧ saved st = expected_parts df serializer job_id (results st) 0 1
                              (rows_done <$> saved st)
  ∧ concat (part_rows <$> saved st)
    = part_table df (results st) 0 (last_checkpoint_row st)
  ∧ (last_checkpoint_row st ≤ length (results st))%nat
  ∧ (length (results st) ≤ length df)%nat
  ∧ (1 ≤ batch_size → o = Returned st →
     last_checkpoint_row st = length df ∧ length (results st) = length df)
  ∧ (StronglySorted Z.lt (RowID <$> df) →
     ∀ (i : nat) p p', saved st !! i = Some p → saved st !! S i = Some p' →
       ∀ x y, x ∈ part_row_ids p → y ∈ part_row_ids p' → x < y).
Proof.
  intros o st.
  pose proof (process_dataframe_weak self w df batch_size serializer job_id
                metadata pause_event (λ _, True) (λ _ _ _ _ _ _, I)
                (λ _ _ _ _, I) mon n d I)
    as (Hle & Hlcr & Hlcr_le & Hinc & Hsaved & _).
  fold o in Hle, Hlcr, Hlcr_le, Hinc, Hsaved. fold st in Hle, Hlcr, Hlcr_le, Hinc, Hsaved.
  split.
  { rewrite Hsaved at 1. rewrite expected_parts_part_num. by rewrite length_fmap. }
  split; [done|]. split; [done|].
  split.
  { rewrite Hsaved at 1. rewrite expected_parts_concat, <- Hlcr; [done|done|lia|lia]. }
  split; [done|]. split; [done|].
  split.
  { intros Hb Ho.
    destruct (process_dataframe_returned self w df batch_size serializer job_id
                metadata pause_event (λ _, True) (λ _ _ _ _ _ _, I)
                (λ _ _ _ _, I) mon n d st I Hb Ho) as ((_ & Hlen & _) & Hcuts).
    split; [|done].
    destruct (decide (length df = 0)%nat) as [Hz|Hnz]; [lia|].
    rewrite Hlcr, Hcuts. apply last_cut_total; lia. }
  intros Hsorted i p p' Hp Hp' x y Hx Hy.
  rewrite Hsaved in Hp, Hp'.
  destruct (expected_parts_adjacent df serializer job_id _ _ _ _ i p p' Hinc Hp Hp')
    as (a & c & c' & Hac & Hcc' & _ & Hrows & Hrows').
  apply (part_row_ids_table df _ _ _ _ _ Hrows) in Hx.
  apply (part_row_ids_table df _ _ _ _ _ Hrows') in Hy.
  rewrite <- (take_drop c df), fmap_app in Hsorted.
  apply (StronglySorted_app_1_elem_of _ _ _ _ _ Hsorted).
  - apply list_elem_of_fmap in Hx as (row & -> & Hrow).
    apply list_elem_of_fmap_2. apply (rows_between_before df a c); [lia | done].
  - apply list_elem_of_fmap in Hy as (row & -> & Hrow).
    apply list_elem_of_fmap_2. by apply (rows_between_after df c c').
Qed.

Lemma process_dataframe_parts_witness :
  1 ≤ 2
  ∧ StronglySorted Z.lt (RowID <$> ex_rows 3)
  ∧ (∃ st, process_dataframe ex_processor ex_world (ex_rows 3) 2
             (Serializer.mkSerializer "checkpoints" 2) ex_job ∅ false
             (ex_monitor 3) 0%nat ex_disk_empty = Returned st)
  ∧ ∀ (i : nat) p p',
      saved (state_of (process_dataframe ex_processor ex_world (ex_rows 3) 2
                         (Serializer.mkSerializer "checkpoints" 2) ex_job ∅ false
                         (ex_monitor 3) 0%nat ex_disk_empty)) !! i = Some p →
      saved (state_of (process_dataframe ex_processor ex_world (ex_rows 3) 2
                         (Serializer.mkSerializer "checkpoints" 2) ex_job ∅ false
                         (ex_monitor 3) 0%nat ex_disk_empty)) !! S i = Some p' →
      ∀ x y, x ∈ part_row_ids p → y ∈ part_row_ids p' → x < y.
Proof.
  assert (Hs : StronglySorted Z.lt (RowID <$> ex_rows 3)).
  { vm_compute. repeat constructor. }
  split; [lia|]. split; [exact Hs|].
  split.
  { eexists. vm_compute. reflexivity. }
  pose proof (process_dataframe_parts ex_processor ex_world (ex_rows 3) 2
                (Serializer.mkSerializer "checkpoints" 2) ex_job ∅ false
                (ex_monitor 3) 0%nat ex_disk_empty) as Hparts.
  cbv zeta in Hparts.
  destruct Hparts as (_ & _ & _ & _ & _ & _ & _ & Hsorted).
  exact (Hsorted Hs).
Defined.

Lemma pairs_fmap {A B C} (f : A → B) (g : A → C) (l : list A) :
  (λ x, (f x, g x)) <$> l = zip (f <$> l) (g <$> l).
Proof. induction l as [|x l IH]; [done|]. cbn. by rewrite IH. Qed.

(** A batch size that covers all remaining rows gives a single batch. *)
Lemma batch_ends_go_single (fuel b k n : nat) :
  (0 < n)%nat → (n ≤ b)%nat → (n ≤ S fuel)%nat →
  batch_ends_go (S fuel) b k n = [(k + n)%nat].
Proof.
  intros Hn Hb Hf. destruct n as [|n]; [lia|].
  cbn [batch_ends_go]. rewrite Nat.min_r by lia.
  replace (S n - S n)%nat with 0%nat by lia.
  by destruct fuel.
Qed.

Lemma bool_decide_agree (P R : Prop) `{Decision P, Decision R} :
  bool_decide P = bool_decide R → (P ↔ R).
Proof. intros E. by rewrite <- (bool_decide_eq_true P), E, bool_decide_eq_true. Qed.

Lemma cadence_up_to_120 :
  Forall (λ b : nat,
            bool_decide (filter (λ c, is_cut 50 120 c = true) (batch_ends b 120)
                         = [50; 100; 120]%nat)
            = bool_decide (50 `mod` Z.of_nat b = 0))
         (seq 1 120).
Proof. eapply bool_decide_eq_true_1. vm_compute. reflexivity. Qed.

(** For 120 rows and interval 50, the batch ends that are checkpoints are
    50, 100 and 120 exactly when the batch size divides 50. *)
Lemma cadence_120 (b : nat) :
  (0 < b)%nat →
  filter (λ c, is_cut 50 120 c = true) (batch_ends b 120) = [50; 100; 120]%nat
  ↔ (Z.of_nat b | 50).
Proof.
  intros Hb. destruct (decide (b ≤ 120)%nat) as [Hle|Hgt].
  - pose proof cadence_up_to_120 as Hall.
    rewrite Forall_forall in Hall.
    rewrite <- Z.mod_divide by lia.
    refine (bool_decide_agree _ _ _).
    apply (Hall b). apply elem_of_seq. lia.
  - split.
    + unfold batch_ends. rewrite batch_ends_go_single by lia.
      rewrite filter_cons_True by reflexivity. discriminate.
    + intros Hd. apply Z.divide_pos_le in Hd; lia.
Qed.

(** C6 (as stated, refuted). With batch size 15 the processed-row counts
    after each batch are 15, 30, ..., 105, 120: neither 50 nor 100 is ever
    reached, and the run over 120 rows with interval 50 writes a single part,
    at 120. *)
Lemma checkpoint_cadence_counterexample :
  (λ p, (part_num p, rows_done p))
    <$> saved (state_of (process_dataframe ex_processor ex_world (ex_rows 120) 15
                           ex_serializer ex_job ∅ false (ex_monitor 120) 0%nat
                           ex_disk_empty))
  = [(1, 120%nat)]
  ∧ (λ p, (part_num p, rows_done p))
      <$> saved (state_of (process_dataframe ex_processor ex_world (ex_rows 120) 15
                             ex_serializer ex_job ∅ false (ex_monitor 120) 0%nat
                             ex_disk_empty))
    ≠ [(1, 50%nat); (2, 100%nat); (3, 120%nat)].
Proof.
  assert (E : (λ p, (part_num p, rows_done p))
                <$> saved (state_of (process_dataframe ex_processor ex_world
                                       (ex_rows 120) 15 ex_serializer ex_job ∅
                                       false (ex_monitor 120) 0%nat ex_disk_empty))
              = [(1, 120%nat)]) by (vm_compute; reflexivity).
  split; [exact E|]. rewrite E. discriminate.
Qed.

(** C6 (amended). For a non-zero checkpoint interval,
    [should_checkpoint(processed_count, total)] returns true exactly when
    [processed_count] is a multiple of the interval or equals [total] (a zero
    interval raises).  It is consulted only after whole batches; consequently
    a run over 120 rows with interval 50 that nothing outside stops produces
    parts at the processed-row counts 50, 100 and 120, numbered 1, 2 and 3,
    exactly when the batch size divides 50 (1, 2, 5, 10, 25 or 50). *)
Theorem checkpoint_cadence :
  (∀ (serializer : Serializer.Serializer) (processed_count total : Z),
     Serializer.checkpoint_interval serializer ≠ 0 →
     ∃ b, Serializer.should_checkpoint serializer processed_count total = Some b
          ∧ (b = true ↔ (Serializer.checkpoint_interval serializer | processed_count)
                         ∨ processed_count = total))
  ∧ (∀ {M : Type} `{Monitor M} (self : Processor) (w : World) (df : list Row)
       (batch_size : Z) (serializer : Serializer.Serializer) (job_id : string)
       (metadata : gmap string json) (pause_event : bool) (mon : M) (n : nat)
       (d : Disk),
       length df = 120%nat →
       Serializer.checkpoint_interval serializer = 50 →
       1 ≤ batch_size →
       unhindered self w batch_size serializer job_id pause_event d →
       ∃ st, process_dataframe self w df batch_size serializer job_id metadata
                               pause_event mon n d = Returned st
             ∧ ((λ p, (part_num p, rows_done p)) <$> saved st
                = [(1, 50%nat); (2, 100%nat); (3, 120%nat)]
                ↔ (batch_size | 50))).
Proof.
  split; [intros; by apply should_checkpoint_iff|].
  intros M HM self w df batch_size serializer job_id metadata pause_event mon n d
         Hlen Hint Hb Hun.
  destruct (process_dataframe_returns self w df batch_size serializer job_id
              metadata pause_event (λ _, True) (λ _ _ _ _ _ _, I) (λ _ _ _ _, I)
              mon n d I Hb Hun) as [st Hst].
  exists st. split; [done|].
  destruct (process_dataframe_returned self w df batch_size serializer job_id
              metadata pause_event (λ _, True) (λ _ _ _ _ _ _, I) (λ _ _ _ _, I)
              mon n d st I Hb Hst) as (((_ & _ & _ & _ & Hsaved & _) & _) & Hcuts).
  rewrite Hlen, Hint in Hcuts.
  assert (Hnum : part_num <$> saved st = seqZ 1 (Z.of_nat (length (saved st)))).
  { rewrite Hsaved at 1. rewrite expected_parts_part_num. by rewrite length_fmap. }
  transitivity (Z.of_nat (Z.to_nat batch_size) | 50);
    [|by rewrite Z2Nat.id by lia].
  rewrite <- (cadence_120 (Z.to_nat batch_size)) by lia.
  rewrite <- Hcuts, pairs_fmap. split.
  - intros Hp. apply (f_equal (fmap snd)) in Hp.
    rewrite snd_zip in Hp; [done|]. by rewrite !length_fmap.
  - intros Hr. rewrite Hr, Hnum.
    apply (f_equal length) in Hr. rewrite length_fmap in Hr. by rewrite Hr.
Qed.

Lemma checkpoint_cadence_witness :
  length (ex_rows 120) = 120%nat
  ∧ Serializer.checkpoint_interval ex_serializer = 50
  ∧ 1 ≤ 10
  ∧ unhindered ex_processor ex_world 10 ex_serializer ex_job false ex_disk_empty
  ∧ ∃ st, process_dataframe ex_processor ex_world (ex_rows 120) 10 ex_serializer
            ex_job ∅ false (ex_monitor 120) 0%nat ex_disk_empty = Returned st
          ∧ ((λ p, (part_num p, rows_done p)) <$> saved st
             = [(1, 50%nat); (2, 100%nat); (3, 120%nat)]
             ↔ (10 | 50)).
Proof.
  assert (H1 : length (ex_rows 120) = 120%nat) by (vm_compute; reflexivity).
  assert (H2 : Serializer.checkpoint_interval ex_serializer = 50) by reflexivity.
  assert (H3 : 1 ≤ 10) by lia.
  assert (H4 : unhindered ex_processor ex_world 10 ex_serializer ex_job false
                          ex_disk_empty).
  { split; [by left|]. split; [right; cbn; lia|]. split; [done|]. done. }
  split; [exact H1|]. split; [exact H2|]. split; [exact H3|]. split; [exact H4|].
  destruct checkpoint_cadence as [_ Hrun].
  exact (Hrun _ _ ex_processor ex_world (ex_rows 120) 10 ex_serializer ex_job ∅
              false (ex_monitor 120) 0%nat ex_disk_empty H1 H2 H3 H4).
Defined.

End dataframe_claims.

(** *** The worker's status documents *)
Section worker_facts.
Import Data Worker.

(** The documents a worker has written to its status file when [run] is
    over, oldest first. *)
Definition documents (cfg : Config) (env : Env) : list Status :=
  written (worker_status (run cfg env).1.2).

(** A document written before the worker completes. *)
Definition running_doc (s : Status) : Prop :=
  rows_processed s ≤ Worker.total_rows s ∧ state s ≠ completed.

(** The status object while [n] rows are to be processed. *)
Definition status_inv (n : Z) (ws : WorkerStatus) : Prop :=
  Forall running_doc (written ws)
  ∧ Worker.total_rows (status ws) = n
  ∧ rows_processed (status ws) ≤ n
  ∧ state (status ws) ≠ completed.

Lemma written_update f ws : written (update f ws) = written ws ++ [f (status ws)].
Proof. reflexivity. Qed.

Lemma status_update f ws : status (update f ws) = f (status ws).
Proof. reflexivity. Qed.

Lemma status_inv_update f n n' ws :
  status_inv n ws →
  Worker.total_rows (f (status ws)) = n' →
  rows_processed (f (status ws)) ≤ n' →
  state (f (status ws)) ≠ completed →
  status_inv n' (update f ws).
Proof.
  intros (Hw & _ & _ & _) Ht Hr Hs. unfold status_inv.
  rewrite written_update, status_update.
  split; [|done]. apply Forall_app. split; [done|].
  apply Forall_singleton. split; [lia|done].
Qed.

Lemma status_inv_new worker_id : status_inv 0 (new worker_id).
Proof.
  unfold status_inv, new, save. cbn.
  split; [|done]. apply Forall_singleton. by split.
Qed.

Lemma status_inv_set_running n n' rs re ws :
  0 ≤ n' → rows_processed (status ws) ≤ 0 →
  status_inv n ws → status_inv n' (set_running rs re n' ws).
Proof.
  intros Hn Hr Hi. unfold set_running.
  apply (status_inv_update _ n); [done|done|cbn; lia|done].
Qed.

Lemma status_inv_set_progress n c a metrics ws :
  c ≤ n → status_inv n ws → status_inv n (set_progress c c a metrics ws).
Proof.
  intros Hc Hi. unfold set_progress.
  assert (status_inv n
            (update (λ s, mkStatus (worker_id s) (state s) (row_start s) (row_end s)
                            c c (Worker.total_rows s) a
                            (rows_per_sec s) (tokens_per_sec s)
                            (avg_tokens_per_row s) (tokens_total s)
                            (errors s) (last_error s) (output_file s)
                            (checkpoints s)) ws)) as Hi'.
  { apply (status_inv_update _ n); [done|apply Hi|done|apply Hi]. }
  destruct metrics as [m|]; [|done].
  apply (status_inv_update _ n); [done|apply Hi'|apply Hi'|apply Hi'].
Qed.

Lemma status_inv_add_checkpoint n f ws :
  status_inv n ws → status_inv n (add_checkpoint f ws).
Proof.
  intros (Hw & Ht & Hr & Hs). unfold status_inv, add_checkpoint, save. cbn.
  split; [|done]. apply Forall_app. split; [done|].
  apply Forall_singleton. split; [cbn; lia|done].
Qed.

Lemma status_inv_set_failed n msg ws :
  status_inv n ws → status_inv n (set_failed msg ws).
Proof.
  intros Hi. unfold set_failed.
  apply (status_inv_update _ n); [done|apply Hi|apply Hi|done].
Qed.

(** Whatever the exception handler does, the documents stay those of a
    worker that has not completed. *)
Lemma on_exception_documents n bridge d :
  status_inv n (worker_status bridge) →
  Forall running_doc (written (worker_status (on_exception bridge d).1.2)).
Proof.
  intros Hi. unfold on_exception.
  destruct (Monitor.finish (monitor bridge)) as [m|]; cbn.
  - by apply (status_inv_set_failed n "error") in Hi as [? _].
  - apply Hi.
Qed.

Lemma running_doc_le (l : list Status) :
  Forall running_doc l → Forall (λ s, rows_processed s ≤ Worker.total_rows s) l.
Proof. intros Hl. eapply Forall_impl; [done|]. by intros s [? _]. Qed.

Lemma running_doc_completed (l : list Status) :
  Forall running_doc l →
  Forall (λ s, state s = completed → rows_processed s = Worker.total_rows s) l.
Proof. intros Hl. eapply Forall_impl; [done|]. by intros s [_ ?] ?. Qed.

(** The documents of a worker that completes with [k] of its [n] rows. *)
Lemma set_completed_documents n k out ws :
  status_inv n ws →
  written (set_completed out k ws)
  = written ws ++ [mkStatus (worker_id (status ws)) completed
                     (row_start (status ws)) (row_end (status ws))
                     (current_row (status ws)) k n (api_calls (status ws))
                     (rows_per_sec (status ws)) (tokens_per_sec (status ws))
                     (avg_tokens_per_row (status ws)) (tokens_total (status ws))
                     (errors (status ws)) (last_error (status ws)) out
                     (checkpoints (status ws))].
Proof. intros (_ & <- & _). reflexivity. Qed.

(** The shape of a worker's documents: all but possibly the last are
    written before completion; the last may be the completion document,
    with as many rows as the run produced results. *)
Lemma documents_shape (cfg : Config) (env : Env) :
  Forall running_doc (documents cfg env)
  ∨ ∃ l s k, documents cfg env = l ++ [s]
             ∧ Forall running_doc l
             ∧ state s = completed
             ∧ rows_processed s = k
             ∧ 0 ≤ k ≤ Worker.total_rows s
             ∧ (1 ≤ cfg_batch_size cfg → k = Worker.total_rows s).
Proof.
  unfold documents, run.
  pose proof (status_inv_new (cfg_worker_id cfg)) as H0.
  destruct (prompts_config env) as [[[vr cc] nad]|];
    [|left; by apply (on_exception_documents 0)].
  destruct (input_file env) as [input|];
    [|left; by apply (on_exception_documents 0)].
  set (df := load_data cfg input).
  case_decide as Hz.
  { right. eexists _, _, 0. cbn [fst snd worker_status].
    rewrite (set_completed_documents 0) by done.
    split; [done|]. split; [apply H0|]. cbn. split; [done|]. split; [done|]. lia. }
  set (ws1 := update (set_rows (cfg_row_start cfg) (cfg_row_end cfg))
                (new (cfg_worker_id cfg))).
  assert (H1 : status_inv 0 ws1).
  { apply (status_inv_update _ 0); [done|done|done|done]. }
  set (n := Z.of_nat (length df)) in *.
  assert (H2 : status_inv n (worker_status
                               (bridge_start n (mkBridge Monitor.init ws1)))).
  { apply (status_inv_set_running 0); [lia|done|done]. }
  cbn [monitor worker_status].
  destruct (ollama_up env); cbn [negb];
    [|left; by apply (on_exception_documents n)].
  set (Q := λ b : MonitorBridge, status_inv n (worker_status b)).
  assert (HQu : ∀ (c : nat) a metrics m,
             (c ≤ length df)%nat → Q m →
             Q (Processor.update_progress (Z.of_nat c) (Z.of_nat (length df))
                  a metrics m)).
  { intros c a metrics m Hc Hm.
    apply (status_inv_set_progress n (Z.of_nat c) a (Some metrics)
             (worker_status m)); [unfold n; lia|done]. }
  assert (HQr : ∀ num f m, Q m → Q (Processor.record_checkpoint num f m)).
  { intros num f m Hm.
    by apply (status_inv_add_checkpoint n f (worker_status m)). }
  pose proof (process_dataframe_weak
                (Processor.mkProcessor (cfg_retries cfg) vr cc nad) (world env) df
                (cfg_batch_size cfg)
                (Serializer.mkSerializer (cfg_checkpoint_dir cfg)
                                         (cfg_checkpoint_interval cfg))
                (job_id cfg) (metadata cfg) true Q HQu HQr
                (bridge_start n (mkBridge Monitor.init ws1)) 0%nat (disk0 env) H2)
    as Hweak.
  pose proof (process_dataframe_returned
                (Processor.mkProcessor (cfg_retries cfg) vr cc nad) (world env) df
                (cfg_batch_size cfg)
                (Serializer.mkSerializer (cfg_checkpoint_dir cfg)
                                         (cfg_checkpoint_interval cfg))
                (job_id cfg) (metadata cfg) true Q HQu HQr
                (bridge_start n (mkBridge Monitor.init ws1)) 0%nat (disk0 env))
    as Hret.
  destruct (Processor.process_dataframe _ _ _ _ _ _ _ _ _ _ _) as [st|st|st];
    cbn [Processor.state_of] in Hweak;
    destruct Hweak as (Hlen & _ & _ & _ & _ & HQ);
    [|left; by apply (on_exception_documents n)|left; apply HQ].
  destruct (Serializer.merge_checkpoints _ _ _ _) as [[b|] d];
    [|left; by apply (on_exception_documents n)].
  destruct (Monitor.finish _) as [m|] eqn:Ef;
    [|left; by apply (on_exception_documents n)].
  right. eexists _, _, (Z.of_nat (length (Processor.results st))).
  cbn [fst snd worker_status].
  rewrite (set_completed_documents n) by done.
  split; [done|]. split; [apply HQ|]. cbn. split; [done|]. split; [done|].
  split; [unfold n; lia|].
  intros Hb. destruct (Hret st H2 Hb eq_refl) as ((_ & Hres & _) & _).
  unfold n. by rewrite Hres.
Qed.

End worker_facts.

Section worker_claims.
Import Data Worker Examples.

(** C8 (as stated, refuted). A worker for three rows that runs to success
    writes fourteen documents.  The first two have [rows_processed] equal to
    [total_rows] (both 0) in state [initializing], and the five written after
    the last batch have both equal to 3 in state [running]: equality does not
    imply [completed]. *)
Lemma worker_status_rows_processed_counterexample :
  (run ex_config ex_env).1.1 = Success
  ∧ (λ s, (state s, rows_processed s, Worker.total_rows s))
      <$> documents ex_config ex_env
    = [(initializing, 0, 0); (initializing, 0, 0); (running, 0, 3);
       (running, 2, 3); (running, 2, 3); (running, 2, 3); (running, 2, 3);
       (running, 2, 3); (running, 3, 3); (running, 3, 3); (running, 3, 3);
       (running, 3, 3); (running, 3, 3); (completed, 3, 3)]
  ∧ ¬ Forall (λ s, rows_processed s ≤ Worker.total_rows s
                   ∧ (rows_processed s = Worker.total_rows s
                      ↔ state s = completed))
             (documents ex_config ex_env).
Proof.
  assert (E : (λ s, (state s, rows_processed s, Worker.total_rows s))
                <$> documents ex_config ex_env
              = [(initializing, 0, 0); (initializing, 0, 0); (running, 0, 3);
                 (running, 2, 3); (running, 2, 3); (running, 2, 3);
                 (running, 2, 3); (running, 2, 3); (running, 3, 3);
                 (running, 3, 3); (running, 3, 3); (running, 3, 3);
                 (running, 3, 3); (completed, 3, 3)])
    by (vm_compute; reflexivity).
  split; [vm_compute; reflexivity|]. split; [exact E|].
  intros HF.
  assert (HF' : Forall (λ t : State * Z * Z, t.1.2 = t.2 → t.1.1 = completed)
                  ((λ s, (state s, rows_processed s, Worker.total_rows s))
                     <$> documents ex_config ex_env)).
  { apply Forall_fmap. eapply Forall_impl; [exact HF|].
    intros s [_ Hiff]. cbn. apply Hiff. }
  rewrite E in HF'. apply Forall_cons in HF' as [Hc _].
  discriminate (Hc eq_refl).
Qed.

(** C8 (amended). In every WorkerStatus document a worker writes,
    [rows_processed <= total_rows].  When the batch size is at least 1,
    every document in state [completed] has [rows_processed = total_rows].
    The converse does not hold: the documents written before [start] have
    both at 0, and those written after the last batch have both at the total
    while the state is still [running]. *)
Theorem worker_status_rows_processed :
  (∀ (cfg : Config) (env : Env),
     Forall (λ s, rows_processed s ≤ Worker.total_rows s) (documents cfg env))
  ∧ (∀ (cfg : Config) (env : Env),
       1 ≤ cfg_batch_size cfg →
       Forall (λ s, state s = completed
                    → rows_processed s = Worker.total_rows s)
              (documents cfg env)).
Proof.
  split.
  - intros cfg env.
    destruct (documents_shape cfg env) as [Hall|(l & s & k & -> & Hl & _ & Hk & Hle & _)].
    + by apply running_doc_le.
    + apply Forall_app. split; [by apply running_doc_le|].
      apply Forall_singleton. lia.
  - intros cfg env Hb.
    destruct (documents_shape cfg env) as [Hall|(l & s & k & -> & Hl & _ & Hk & _ & Heq)].
    + by apply running_doc_completed.
    + apply Forall_app. split; [by apply running_doc_completed|].
      apply Forall_singleton. intros _. rewrite Hk. by apply Heq.
Qed.

Lemma worker_status_rows_processed_witness :
  1 ≤ cfg_batch_size ex_config
  ∧ Forall (λ s, state s = completed → rows_processed s = Worker.total_rows s)
           (documents ex_config ex_env).
Proof.
  assert (H1 : 1 ≤ cfg_batch_size ex_config) by (cbn; lia).
  split; [exact H1|].
  destruct worker_status_rows_processed as [_ Hc].
  exact (Hc ex_config ex_env H1).
Defined.

End worker_claims.

(** ** Part III: further properties of the code *)

(** *** Plans and the rows the workers load *)

Section plan_facts.
Import Orchestrator.

(** In the closed form, a later range starts after an earlier one ends. *)
Lemma nth_range_order (q m i j : Z) :
  0 ≤ q → 0 ≤ i → i < j → end_ (nth_range q m i) < start (nth_range q m j).
Proof.
  intros Hq Hi Hij. unfold nth_range. cbn.
  assert ((i + 1) * q ≤ j * q) by nia. lia.
Qed.

Lemma calculate_row_ranges_rows (total_rows num_workers : Z) :
  0 ≤ total_rows → 1 ≤ num_workers →
  ∃ rs, calculate_row_ranges total_rows num_workers = Some rs
        ∧ concat (rows_of <$> rs) = seqZ 1 total_rows.
Proof.
  intros Ht Hn. eexists. split; [by apply calculate_row_ranges_closed|].
  set (q := total_rows `div` num_workers).
  set (m := total_rows `mod` num_workers).
  assert (Hm : 0 ≤ m < num_workers) by (apply Z.mod_pos_bound; lia).
  assert (Hdiv : total_rows = num_workers * q + m) by (apply Z.div_mod; lia).
  assert (Hq : 0 ≤ q) by (apply Z.div_pos; lia).
  rewrite <- (Z2Nat.id num_workers) at 1 by lia.
  rewrite rows_closed by lia. f_equal. lia.
Qed.

Lemma elem_of_concat {A} (x : A) (ls : list (list A)) :
  x ∈ concat ls ↔ ∃ l, x ∈ l ∧ l ∈ ls.
Proof.
  induction ls as [|l ls IH]; cbn.
  - split; [by intros ?%elem_of_nil|]. by intros (? & _ & ?%elem_of_nil).
  - rewrite elem_of_app, IH. split.
    + intros [?|(l' & ? & ?)]; [exists l|exists l']; split; try done;
        [by left|by right].
    + intros (l' & Hx & [->|?]%elem_of_cons); [by left|right; by exists l'].
Qed.

Lemma calculate_row_ranges_ids (total_rows num_workers : Z) rs :
  calculate_row_ranges total_rows num_workers = Some rs →
  length rs = Z.to_nat num_workers ∧ worker_id <$> rs = seqZ 1 num_workers.
Proof.
  intros Hrs.
  destruct (decide (1 ≤ num_workers)) as [Hn|Hn].
  - rewrite calculate_row_ranges_closed in Hrs by done. injection Hrs as <-.
    split; [by rewrite length_fmap, length_seqZ|].
    rewrite <- list_fmap_compose.
    change (seqZ 1 num_workers) with (seqZ (1 + 0) num_workers).
    rewrite <- fmap_add_seqZ.
    apply list_fmap_ext. intros _ i _. cbn. lia.
  - unfold calculate_row_ranges in Hrs. case_decide; [done|].
    rewrite seqZ_nil in Hrs by lia. cbn in Hrs. injection Hrs as <-.
    split; [cbn; lia|]. by rewrite seqZ_nil by lia.
Qed.

(** The one position of the plan whose range holds a given row number. *)
Lemma plan_row_owner (total_rows num_workers : Z) (rs : list Range) (x : Z) :
  0 ≤ total_rows → 1 ≤ num_workers →
  calculate_row_ranges total_rows num_workers = Some rs →
  concat (rows_of <$> rs) = seqZ 1 total_rows →
  1 ≤ x ≤ total_rows →
  ∃ i r, rs !! i = Some r ∧ start r ≤ x ≤ end_ r
         ∧ ∀ j r', rs !! j = Some r' → start r' ≤ x ≤ end_ r' → j = i.
Proof.
  intros Ht Hn Hrs Hrows Hx.
  assert (Hin : x ∈ concat (rows_of <$> rs)).
  { rewrite Hrows. apply elem_of_seqZ. lia. }
  apply elem_of_concat in Hin as (l & Hxl & Hl).
  apply list_elem_of_fmap in Hl as (r & -> & Hr).
  apply list_elem_of_lookup in Hr as [i Hi].
  exists i, r. split; [done|].
  unfold rows_of in Hxl. apply elem_of_seqZ in Hxl.
  split; [lia|].
  intros j r' Hj Hx'.
  rewrite calculate_row_ranges_closed in Hrs by done. injection Hrs as <-.
  apply lookup_nth_range in Hi as [-> Hi].
  apply lookup_nth_range in Hj as [-> Hj].
  assert (Hq : 0 ≤ total_rows `div` num_workers) by (apply Z.div_pos; lia).
  destruct (decide (j = i)) as [|Hne]; [done|exfalso].
  destruct (decide (j < i)%nat).
  - pose proof (nth_range_order (total_rows `div` num_workers)
                  (total_rows `mod` num_workers) (Z.of_nat j) (Z.of_nat i)).
    lia.
  - pose proof (nth_range_order (total_rows `div` num_workers)
                  (total_rows `mod` num_workers) (Z.of_nat i) (Z.of_nat j)).
    lia.
Qed.

End plan_facts.

Section plan_props.
Import Orchestrator.

(** X1. Whatever the number of workers, [calculate_row_ranges] raises exactly
    when it is zero; otherwise the plan has one range per worker (none for
    a negative count), with worker ids 1, 2, ... in order. *)
Theorem calculate_row_ranges_worker_ids (total_rows num_workers : Z) :
  (calculate_row_ranges total_rows num_workers = None ↔ num_workers = 0)
  ∧ ∀ rs, calculate_row_ranges total_rows num_workers = Some rs →
          length rs = Z.to_nat num_workers
          ∧ worker_id <$> rs = seqZ 1 num_workers.
Proof.
  split.
  - unfold calculate_row_ranges. by case_decide.
  - apply calculate_row_ranges_ids.
Qed.

(** X2. For any row count and at least one worker, also more workers than rows,
    the plan covers [1..total_rows] without gap or overlap: the rows of the
    ranges, read in order, are [1, 2, ..., total_rows], and every row number
    lies in the range of exactly one position of the plan. *)
Theorem calculate_row_ranges_covers (total_rows num_workers : Z) :
  0 ≤ total_rows → 1 ≤ num_workers →
  ∃ rs, calculate_row_ranges total_rows num_workers = Some rs
        ∧ concat (rows_of <$> rs) = seqZ 1 total_rows
        ∧ ∀ x, 1 ≤ x ≤ total_rows →
            ∃ i r, rs !! i = Some r ∧ start r ≤ x ≤ end_ r
                   ∧ ∀ j r', rs !! j = Some r' → start r' ≤ x ≤ end_ r' → j = i.
Proof.
  intros Ht Hn.
  destruct (calculate_row_ranges_rows total_rows num_workers Ht Hn)
    as (rs & Hrs & Hrows).
  exists rs. split; [done|]. split; [done|].
  intros x Hx. by apply (plan_row_owner total_rows num_workers rs).
Qed.

Lemma calculate_row_ranges_covers_witness :
  0 ≤ 2 ∧ 1 ≤ 4
  ∧ ∃ rs, calculate_row_ranges 2 4 = Some rs
          ∧ concat (rows_of <$> rs) = seqZ 1 2.
Proof.
  split; [lia|]. split; [lia|].
  destruct (calculate_row_ranges_covers 2 4) as (rs & H1 & H2 & _); [lia|lia|].
  by exists rs.
Defined.

End plan_props.

Section load_data_facts.
Import Orchestrator Processor Worker.

Lemma py_slice_inside {A} (i j : Z) (l : list A) :
  0 ≤ i → i ≤ j → j ≤ Z.of_nat (length l) →
  py_slice i j l = take (Z.to_nat j - Z.to_nat i) (drop (Z.to_nat i) l).
Proof.
  intros Hi Hij Hj. unfold py_slice.
  repeat case_decide; try lia.
  rewrite !Z.min_l by lia. f_equal. lia.
Qed.

(** The rows a worker without a [RowID] column loads for the range at
    position [i] of the closed form. *)
Definition renumber (r : Row) (id : Z) : Row :=
  mkRow id (Sentiment r) (Title r) (Message r).

Lemma load_data_positional (cfg : Config) (input : InputTable) (a b : Z) :
  has_RowID input = false →
  cfg_row_start cfg = 1 + a → cfg_row_end cfg = b →
  0 ≤ a → a ≤ b → b ≤ Z.of_nat (length (table input)) →
  load_data cfg input
  = zip_with renumber
      (take (Z.to_nat b - Z.to_nat a) (drop (Z.to_nat a) (table input)))
      (seqZ (1 + a) (b - a)).
Proof.
  intros Hno Hs He Ha Hab Hb. unfold load_data. rewrite Hno, Hs, He.
  replace (1 + a - 1) with a by lia.
  rewrite py_slice_inside by lia.
  f_equal. f_equal. rewrite length_take, length_drop. lia.
Qed.

Lemma positional_prefix (q m : Z) (input : InputTable) (cfg_of : Range → Config) :
  has_RowID input = false →
  (∀ r, cfg_row_start (cfg_of r) = start r ∧ cfg_row_end (cfg_of r) = end_ r) →
  0 ≤ q → 0 ≤ m →
  ∀ n : nat,
    Z.of_nat n * q + Z.min (Z.of_nat n) m ≤ Z.of_nat (length (table input)) →
    concat ((λ r, load_data (cfg_of r) input)
              <$> (nth_range q m <$> seqZ 0 (Z.of_nat n)))
    = zip_with renumber
        (take (Z.to_nat (Z.of_nat n * q + Z.min (Z.of_nat n) m)) (table input))
        (seqZ 1 (Z.of_nat n * q + Z.min (Z.of_nat n) m)).
Proof.
  intros Hno Hcfg Hq Hm n. induction n as [|n IH]; intros Hle.
  - change (Z.of_nat 0) with 0. rewrite (seqZ_nil 0) by lia. cbn.
    by rewrite Z.min_l by lia.
  - rewrite seqZ_S, !fmap_app, concat_app. cbn [fmap list_fmap concat].
    rewrite app_nil_r.
    set (a := Z.of_nat n * q + Z.min (Z.of_nat n) m) in *.
    set (b := Z.of_nat (S n) * q + Z.min (Z.of_nat (S n)) m) in *.
    assert (Hab : a ≤ b) by (unfold a, b; nia).
    assert (Ha : 0 ≤ a) by (unfold a; nia).
    rewrite IH by lia.
    destruct (Hcfg (nth_range q m (0 + Z.of_nat n))) as [Hs He].
    rewrite (load_data_positional _ input a b);
      [|done|rewrite Hs; unfold nth_range, a; cbn; lia
       |rewrite He; unfold nth_range, b; cbn; f_equal; lia|lia|lia|lia].
    replace (seqZ 1 b) with (seqZ 1 a ++ seqZ (1 + a) (b - a)).
    2:{ rewrite <- seqZ_app by lia. f_equal. lia. }
    replace (take (Z.to_nat b) (table input))
      with (take (Z.to_nat a) (table input)
            ++ take (Z.to_nat b - Z.to_nat a) (drop (Z.to_nat a) (table input))).
    2:{ rewrite <- (take_drop (Z.to_nat a) (take (Z.to_nat b) (table input))).
        rewrite take_take, Nat.min_l by lia. f_equal.
        by rewrite skipn_firstn_comm. }
    rewrite zip_with_app; [done|].
    rewrite length_take, length_seqZ. lia.
Qed.

(** The slices of a plan for the whole table hold as many rows as the
    table. *)
Lemma positional_plan_rows (num_workers : Z) (input : InputTable)
    (cfg_of : Range → Config) (rs : list Range) :
  1 ≤ num_workers → has_RowID input = false →
  (∀ r, cfg_row_start (cfg_of r) = start r ∧ cfg_row_end (cfg_of r) = end_ r) →
  calculate_row_ranges (Z.of_nat (length (table input))) num_workers = Some rs →
  length (concat ((λ r, load_data (cfg_of r) input) <$> rs))
  = length (table input).
Proof.
  intros Hn Hno Hcfg Hrs.
  rewrite calculate_row_ranges_closed in Hrs by done. injection Hrs as <-.
  set (t := Z.of_nat (length (table input))).
  set (q := t `div` num_workers). set (m := t `mod` num_workers).
  assert (Hm : 0 ≤ m < num_workers) by (apply Z.mod_pos_bound; lia).
  assert (Hdiv : t = num_workers * q + m) by (apply Z.div_mod; lia).
  assert (Hq : 0 ≤ q) by (apply Z.div_pos; lia).
  rewrite <- (Z2Nat.id num_workers) at 1 by lia.
  rewrite (positional_prefix q m input cfg_of Hno Hcfg Hq) by lia.
  rewrite length_zip_with, length_take, length_seqZ. lia.
Qed.

End load_data_facts.

Section load_data_props.
Import Orchestrator Processor Worker.

(** X3. With a [RowID] column in the input, every input row whose RowID lies in
    [1..total_rows] is loaded by the worker of exactly one planned range. *)
Theorem load_data_one_worker (total_rows num_workers : Z) (input : InputTable)
    (row : Row) :
  0 ≤ total_rows → 1 ≤ num_workers →
  has_RowID input = true → row ∈ table input → 1 ≤ RowID row ≤ total_rows →
  ∃ rs i r,
    calculate_row_ranges total_rows num_workers = Some rs
    ∧ rs !! i = Some r
    ∧ (∀ cfg, cfg_row_start cfg = start r → cfg_row_end cfg = end_ r →
              row ∈ load_data cfg input)
    ∧ (∀ j r' cfg, rs !! j = Some r' →
         cfg_row_start cfg = start r' → cfg_row_end cfg = end_ r' →
         row ∈ load_data cfg input → j = i).
Proof.
  intros Ht Hn Hid Hrow Hx.
  destruct (calculate_row_ranges_rows total_rows num_workers Ht Hn)
    as (rs & Hrs & Hrows).
  destruct (plan_row_owner total_rows num_workers rs (RowID row)
              Ht Hn Hrs Hrows Hx) as (i & r & Hi & Hin & Huniq).
  exists rs, i, r. split; [done|]. split; [done|]. split.
  - intros cfg Hs He. unfold load_data. rewrite Hid, Hs, He.
    apply list_elem_of_filter. split; [lia|done].
  - intros j r' cfg Hj Hs He Hl. unfold load_data in Hl.
    rewrite Hid, Hs, He in Hl. apply list_elem_of_filter in Hl as [Hl _].
    by apply (Huniq j r').
Qed.

Lemma load_data_one_worker_witness :
  0 ≤ 3 ∧ 1 ≤ 2
  ∧ has_RowID (mkInput true (Examples.ex_rows 3)) = true
  ∧ Examples.ex_input_row 2 ∈ table (mkInput true (Examples.ex_rows 3))
  ∧ 1 ≤ RowID (Examples.ex_input_row 2) ≤ 3
  ∧ ∃ rs i r,
      calculate_row_ranges 3 2 = Some rs ∧ rs !! i = Some r
      ∧ ∀ cfg, cfg_row_start cfg = start r → cfg_row_end cfg = end_ r →
               Examples.ex_input_row 2 ∈ load_data cfg (mkInput true (Examples.ex_rows 3)).
Proof.
  assert (H1 : 0 ≤ 3) by lia. assert (H2 : 1 ≤ 2) by lia.
  assert (H3 : has_RowID (mkInput true (Examples.ex_rows 3)) = true) by reflexivity.
  assert (H4 : Examples.ex_input_row 2 ∈ table (mkInput true (Examples.ex_rows 3))).
  { apply list_elem_of_lookup. exists 1%nat. reflexivity. }
  assert (H5 : 1 ≤ RowID (Examples.ex_input_row 2) ≤ 3) by (cbn; lia).
  split; [exact H1|]. split; [exact H2|]. split; [exact H3|]. split; [exact H4|].
  split; [exact H5|].
  destruct (load_data_one_worker 3 2 (mkInput true (Examples.ex_rows 3))
              (Examples.ex_input_row 2) H1 H2 H3 H4 H5)
    as (rs & i & r & Hrs & Hi & Hin & _).
  exists rs, i, r. split; [exact Hrs|]. split; [exact Hi|exact Hin].
Defined.

(** X4. Without a [RowID] column, the slices the workers of the planned ranges
    load, laid end to end in plan order, are the whole input table with its
    rows numbered 1, 2, ... in order. *)
Theorem load_data_positional_plan (num_workers : Z) (input : InputTable)
    (cfg_of : Range → Config) :
  1 ≤ num_workers → has_RowID input = false →
  (∀ r, cfg_row_start (cfg_of r) = start r ∧ cfg_row_end (cfg_of r) = end_ r) →
  ∃ rs, calculate_row_ranges (Z.of_nat (length (table input))) num_workers = Some rs
        ∧ concat ((λ r, load_data (cfg_of r) input) <$> rs)
          = zip_with (λ r id, mkRow id (Sentiment r) (Title r) (Message r))
                     (table input)
                     (seqZ 1 (Z.of_nat (length (table input)))).
Proof.
  intros Hn Hno Hcfg. eexists.
  split; [by apply calculate_row_ranges_closed|].
  set (t := Z.of_nat (length (table input))).
  set (q := t `div` num_workers). set (m := t `mod` num_workers).
  assert (Hm : 0 ≤ m < num_workers) by (apply Z.mod_pos_bound; lia).
  assert (Hdiv : t = num_workers * q + m) by (apply Z.div_mod; lia).
  assert (Hq : 0 ≤ q) by (apply Z.div_pos; lia).
  rewrite <- (Z2Nat.id num_workers) at 1 by lia.
  rewrite (positional_prefix q m input cfg_of Hno Hcfg Hq) by lia.
  replace (Z.of_nat (Z.to_nat num_workers) * q
           + Z.min (Z.of_nat (Z.to_nat num_workers)) m) with t by lia.
  unfold t. rewrite Nat2Z.id, firstn_all. done.
Qed.

Lemma load_data_positional_plan_witness :
  1 ≤ 2 ∧ has_RowID (mkInput false (Examples.ex_rows 3)) = false
  ∧ (∀ r, cfg_row_start (mkConfig (Orchestrator.worker_id r) (start r) (end_ r) 2 "checkpoints"
                                   50 3 "model" "run" ("output", "out.csv"))
          = start r
          ∧ cfg_row_end (mkConfig (Orchestrator.worker_id r) (start r) (end_ r) 2 "checkpoints"
                                   50 3 "model" "run" ("output", "out.csv"))
            = end_ r)
  ∧ ∃ rs, calculate_row_ranges
            (Z.of_nat (length (table (mkInput false (Examples.ex_rows 3))))) 2
          = Some rs
          ∧ concat ((λ r, load_data
                            (mkConfig (Orchestrator.worker_id r) (start r) (end_ r) 2
                               "checkpoints" 50 3 "model" "run" ("output", "out.csv"))
                            (mkInput false (Examples.ex_rows 3))) <$> rs)
            = zip_with (λ r id, mkRow id (Sentiment r) (Title r) (Message r))
                       (table (mkInput false (Examples.ex_rows 3)))
                       (seqZ 1 (Z.of_nat (length (table (mkInput false (Examples.ex_rows 3)))))).
Proof.
  assert (H1 : 1 ≤ 2) by lia.
  assert (H2 : has_RowID (mkInput false (Examples.ex_rows 3)) = false) by reflexivity.
  assert (H3 : ∀ r, cfg_row_start (mkConfig (Orchestrator.worker_id r) (start r) (end_ r) 2
                                     "checkpoints" 50 3 "model" "run"
                                     ("output", "out.csv")) = start r
                    ∧ cfg_row_end (mkConfig (Orchestrator.worker_id r) (start r) (end_ r) 2
                                     "checkpoints" 50 3 "model" "run"
                                     ("output", "out.csv")) = end_ r)
    by (intros r; split; reflexivity).
  split; [exact H1|]. split; [exact H2|]. split; [exact H3|].
  exact (load_data_positional_plan 2 (mkInput false (Examples.ex_rows 3)) _ H1 H2 H3).
Defined.

End load_data_props.

Section strategy_facts.
Import Orchestrator.

Lemma imap_worker_ids (l : list Range) (k : nat) :
  worker_id <$> imap (λ i r, mkRange (start r) (end_ r) (Z.of_nat (k + i) + 1)) l
  = seqZ (Z.of_nat k + 1) (Z.of_nat (length l)).
Proof.
  revert k. induction l as [|r l IH]; intros k; [done|].
  cbn [imap fmap list_fmap length].
  rewrite seqZ_cons by lia. f_equal.
  - cbn. f_equal. lia.
  - replace (Z.succ (Z.of_nat k + 1)) with (Z.of_nat (S k) + 1) by lia.
    replace (Z.pred (Z.of_nat (S (length l)))) with (Z.of_nat (length l)) by lia.
    rewrite <- IH. f_equal. apply imap_ext. intros i x _. cbn. f_equal. lia.
Qed.

Lemma imap_fields (l : list Range) :
  start <$> imap (λ i r, mkRange (start r) (end_ r) (Z.of_nat i + 1)) l = start <$> l
  ∧ end_ <$> imap (λ i r, mkRange (start r) (end_ r) (Z.of_nat i + 1)) l = end_ <$> l.
Proof.
  rewrite !fmap_imap. split.
  - rewrite (imap_ext _ (λ _ r, start r)) by done. apply imap_const.
  - rewrite (imap_ext _ (λ _ r, end_ r)) by done. apply imap_const.
Qed.

End strategy_facts.

Section plan_strategies.
Import Orchestrator.

(** X5. Whatever the strategy, a plan that [get_row_ranges] returns has worker
    ids 1, 2, ... in order.  With parallelization disabled it is the single
    range [1, rows] for worker 1; with the manual strategy it is the
    configured ranges with their bounds as given, renumbered. *)
Theorem get_row_ranges_plan (parallelization : Parallelization)
    (input_rows : option Z) (rs : list Range) :
  get_row_ranges parallelization input_rows = Some rs →
  worker_id <$> rs = seqZ 1 (Z.of_nat (length rs))
  ∧ (enabled parallelization = false →
     ∃ n, input_rows = Some n ∧ rs = [mkRange 1 n 1])
  ∧ (enabled parallelization = true →
     split_strategy parallelization = "manual" →
     start <$> rs = start <$> manual_ranges parallelization
     ∧ end_ <$> rs = end_ <$> manual_ranges parallelization).
Proof.
  unfold get_row_ranges. destruct (enabled parallelization); cbn [negb].
  - case_bool_decide as Hm.
    + intros [= <-]. split.
      * rewrite length_imap.
        apply (imap_worker_ids (manual_ranges parallelization) 0).
      * split; [done|]. intros _ _. apply imap_fields.
    + case_bool_decide as Ha; [|done].
      destruct input_rows as [n|]; [|done]. cbn. intros Hrs.
      apply calculate_row_ranges_ids in Hrs as [Hlen Hids].
      split; [|split; [done|by intros _ ?]].
      rewrite Hids, Hlen.
      destruct (decide (0 ≤ workers parallelization)).
      * by rewrite Z2Nat.id.
      * rewrite seqZ_nil by lia.
        replace (Z.to_nat (workers parallelization)) with 0%nat by lia. done.
  - destruct input_rows as [n|]; [|done]. cbn. intros [= <-].
    split; [done|]. split; [|done]. intros _. by exists n.
Qed.

Lemma get_row_ranges_plan_witness :
  get_row_ranges (mkParallelization true "manual" 2 [mkRange 5 9 0; mkRange 1 3 0])
                 None
  = Some [mkRange 5 9 1; mkRange 1 3 2]
  ∧ worker_id <$> [mkRange 5 9 1; mkRange 1 3 2]
    = seqZ 1 (Z.of_nat (length [mkRange 5 9 1; mkRange 1 3 2])).
Proof.
  assert (H1 : get_row_ranges
                 (mkParallelization true "manual" 2 [mkRange 5 9 0; mkRange 1 3 0])
                 None
               = Some [mkRange 5 9 1; mkRange 1 3 2]) by reflexivity.
  split; [exact H1|].
  exact (proj1 (get_row_ranges_plan _ _ _ H1)).
Defined.

End plan_strategies.

(** *** The checkpoint store: listing, cleaning, merging, resuming *)

Section store_facts.
Import Data Serializer.

Lemma elem_of_glob (self : Serializer) (job_id : string) (d : Disk) (p : path) :
  p ∈ glob self job_id d
  ↔ p.1 = checkpoint_dir self ∧ glob_match job_id p.2 = true
    ∧ is_Some (files d !! p).
Proof.
  unfold glob. rewrite list_elem_of_filter, list_elem_of_fmap. split.
  - intros [[? ?] ([q x] & -> & Hq)]. apply elem_of_map_to_list in Hq.
    cbn in *. by rewrite Hq.
  - intros (? & ? & [x Hx]). split; [done|].
    exists (p, x). split; [done|]. by apply elem_of_map_to_list.
Qed.

Lemma NoDup_glob (self : Serializer) (job_id : string) (d : Disk) :
  NoDup (glob self job_id d).
Proof. unfold glob. apply NoDup_filter, NoDup_fst_map_to_list. Qed.

Lemma glob_names (self : Serializer) (job_id : string) (d : Disk) :
  (λ name, (checkpoint_dir self, name)) <$> (snd <$> glob self job_id d)
  = glob self job_id d.
Proof.
  rewrite <- list_fmap_compose. rewrite <- (list_fmap_id (glob self job_id d)) at 2.
  apply list_fmap_ext. intros _ [dir name] Hp%list_elem_of_lookup_2.
  apply elem_of_glob in Hp as (Hd & _). cbn in *. by rewrite Hd.
Qed.

Lemma list_checkpoints_perm (self : Serializer) (job_id : string) (d : Disk) :
  list_checkpoints self job_id d ≡ₚ glob self job_id d.
Proof.
  unfold list_checkpoints. rewrite merge_sort_Permutation. by rewrite glob_names.
Qed.

Lemma elem_of_list_checkpoints (self : Serializer) (job_id : string) (d : Disk) p :
  p ∈ list_checkpoints self job_id d ↔ p ∈ glob self job_id d.
Proof. by rewrite list_checkpoints_perm. Qed.

Lemma lookup_foldl_delete {V} (m : gmap path V) (l : list path) (p : path) :
  foldl (λ fs f, delete f fs) m l !! p
  = if decide (p ∈ l) then None else m !! p.
Proof.
  revert m. induction l as [|q l IH]; intros m; cbn.
  - case_decide as Hin; [by apply elem_of_nil in Hin|done].
  - rewrite IH. destruct (decide (p ∈ l)) as [Hl|Hl].
    + rewrite decide_True by (by right). done.
    + destruct (decide (p = q)) as [->|Hne].
      * rewrite decide_True by (by left). by rewrite lookup_delete_eq.
      * rewrite decide_False by (by intros [?|?]%elem_of_cons).
        by rewrite lookup_delete_ne.
Qed.

(** Two disks with the same matching files and the same readable content
    list the same checkpoints. *)
Lemma list_checkpoints_ext (self : Serializer) (job_id : string) (d d' : Disk) :
  (∀ p, p ∈ glob self job_id d' ↔ p ∈ glob self job_id d) →
  list_checkpoints self job_id d' = list_checkpoints self job_id d.
Proof.
  intros Hsame. unfold list_checkpoints. f_equal.
  assert (Hperm : snd <$> glob self job_id d' ≡ₚ snd <$> glob self job_id d).
  { apply fmap_Permutation, NoDup_Permutation; auto using NoDup_glob. }
  apply (Sorted_unique_strong String.le).
  - intros x y _ _ Hxy Hyx. by apply (anti_symm String.le).
  - apply Sorted_merge_sort, _.
  - apply Sorted_merge_sort, _.
  - by rewrite !merge_sort_Permutation.
Qed.

End store_facts.

Section store_props.
Import Data Serializer Examples.

Lemma snd_pair_fmap {A B} (a : A) (l : list B) : snd <$> ((λ b, (a, b)) <$> l) = l.
Proof. induction l as [|b l IH]; [done|]. cbn. by rewrite IH. Qed.

Lemma omap_ext_elem {A B} (f g : A → option B) (l : list A) :
  (∀ x, x ∈ l → f x = g x) → omap f l = omap g l.
Proof.
  induction l as [|x l IH]; intros Hfg; [done|]. cbn.
  rewrite (Hfg x) by left. rewrite IH; [done|]. intros y Hy. apply Hfg. by right.
Qed.

(** X6. [list_checkpoints] returns the files that match the job's pattern,
    each once, ordered by file name. *)
Theorem list_checkpoints_sorted (self : Serializer) (job_id : string) (d : Disk) :
  list_checkpoints self job_id d ≡ₚ glob self job_id d
  ∧ NoDup (list_checkpoints self job_id d)
  ∧ StronglySorted String.le (snd <$> list_checkpoints self job_id d)
  ∧ ∀ p, p ∈ list_checkpoints self job_id d
         ↔ p.1 = checkpoint_dir self ∧ glob_match job_id p.2 = true
           ∧ is_Some (files d !! p).
Proof.
  split; [apply list_checkpoints_perm|]. split.
  { rewrite list_checkpoints_perm. apply NoDup_glob. }
  split.
  { unfold list_checkpoints. rewrite snd_pair_fmap.
    apply StronglySorted_merge_sort; apply _. }
  intros p. rewrite elem_of_list_checkpoints. apply elem_of_glob.
Qed.

(** X7. [cleanup_checkpoints] leaves the disk alone when [keep_merged] is set.
    Otherwise (every removal succeeding) it removes every file that matches
    the job's pattern and no other file; afterwards no checkpoint is found
    for the job and a merge returns false without writing. *)
Theorem cleanup_checkpoints_spec (self : Serializer) (job_id : string) (d : Disk) :
  cleanup_checkpoints self job_id true d = d
  ∧ (∀ p, files (cleanup_checkpoints self job_id false d) !! p
          = if decide (p ∈ glob self job_id d) then None else files d !! p)
  ∧ glob self job_id (cleanup_checkpoints self job_id false d) = []
  ∧ find_last_checkpoint self job_id (cleanup_checkpoints self job_id false d)
    = (None, JInt 0)
  ∧ ∀ output_path,
      merge_checkpoints self job_id output_path
        (cleanup_checkpoints self job_id false d)
      = (Ok false, cleanup_checkpoints self job_id false d).
Proof.
  split; [done|].
  assert (Hfiles : ∀ p, files (cleanup_checkpoints self job_id false d) !! p
                        = if decide (p ∈ glob self job_id d) then None
                          else files d !! p).
  { intros p. unfold cleanup_checkpoints. cbn. rewrite lookup_foldl_delete.
    destruct (decide (p ∈ list_checkpoints _ _ _)) as [Hin|Hin];
      rewrite elem_of_list_checkpoints in Hin.
    - by rewrite decide_True.
    - by rewrite decide_False. }
  assert (Hglob : glob self job_id (cleanup_checkpoints self job_id false d) = []).
  { destruct (glob _ _ (cleanup_checkpoints _ _ _ _)) as [|p l] eqn:E; [done|].
    assert (Hp : p ∈ glob self job_id (cleanup_checkpoints self job_id false d))
      by (rewrite E; left).
    apply elem_of_glob in Hp as (Hdir & Hm & Hsome).
    rewrite Hfiles in Hsome. case_decide as Hin; [by destruct Hsome|].
    destruct Hin. by apply elem_of_glob. }
  split; [done|]. split; [done|]. split.
  - unfold find_last_checkpoint. by rewrite Hglob.
  - intros output_path. unfold merge_checkpoints.
    by rewrite (list_checkpoints_nil _ _ _ Hglob).
Qed.

(** X8. A merge leaves the parts as they are, so merging again changes
    nothing, provided the output file is not itself a file that matches the
    job's pattern in the checkpoint directory. *)
Theorem merge_checkpoints_again (self : Serializer) (job_id : string)
    (output_path : path) (d d1 : Disk) (b : bool) :
  merge_checkpoints self job_id output_path d = (Ok b, d1) →
  output_path.1 ≠ checkpoint_dir self ∨ glob_match job_id output_path.2 = false →
  merge_checkpoints self job_id output_path d1 = (Ok b, d1).
Proof.
  intros Hm Hout. unfold merge_checkpoints in Hm.
  destruct (list_checkpoints self job_id d) as [|f fs] eqn:El.
  { injection Hm as <- <-. unfold merge_checkpoints. by rewrite El. }
  destruct (omap (read_csv d) (f :: fs)) as [|df dfs] eqn:Eo.
  { injection Hm as <- <-. unfold merge_checkpoints. by rewrite El, Eo. }
  unfold to_csv in Hm.
  destruct (fault d output_path) as [k|] eqn:Ef; [done|].
  injection Hm as <- <-.
  set (d1 := mkDisk _ _).
  assert (Hnot : output_path ∉ glob self job_id d).
  { intros (? & ? & _)%elem_of_glob. destruct Hout; congruence. }
  assert (Hnot1 : output_path ∉ glob self job_id d1).
  { intros (? & ? & _)%elem_of_glob. destruct Hout; congruence. }
  assert (Hsame : ∀ p, p ∈ glob self job_id d1 ↔ p ∈ glob self job_id d).
  { intros p. rewrite !elem_of_glob. unfold d1. cbn.
    destruct (decide (p = output_path)) as [->|Hne].
    - split; intros (? & ? & _); destruct Hout; congruence.
    - by rewrite lookup_insert_ne. }
  unfold merge_checkpoints.
  rewrite (list_checkpoints_ext self job_id d d1 Hsame), El.
  assert (Hread : omap (read_csv d1) (f :: fs) = omap (read_csv d) (f :: fs)).
  { apply omap_ext_elem. intros p Hp. rewrite <- El in Hp.
    apply elem_of_list_checkpoints in Hp.
    unfold read_csv, d1. cbn. rewrite lookup_insert_ne; [done|].
    intros <-. done. }
  rewrite Hread, Eo. unfold to_csv.
  assert (Hf1 : fault d1 output_path = None) by done.
  rewrite Hf1. f_equal. unfold d1. cbn. f_equal. apply insert_insert_eq.
Qed.

Lemma merge_checkpoints_again_witness :
  merge_checkpoints ex_serializer ex_job ex_output ex_disk_bad_last
  = (Ok true, (merge_checkpoints ex_serializer ex_job ex_output ex_disk_bad_last).2)
  ∧ (ex_output.1 ≠ checkpoint_dir ex_serializer
     ∨ glob_match ex_job ex_output.2 = false)
  ∧ merge_checkpoints ex_serializer ex_job ex_output
      (merge_checkpoints ex_serializer ex_job ex_output ex_disk_bad_last).2
    = (Ok true, (merge_checkpoints ex_serializer ex_job ex_output ex_disk_bad_last).2).
Proof.
  assert (H1 : merge_checkpoints ex_serializer ex_job ex_output ex_disk_bad_last
               = (Ok true,
                  (merge_checkpoints ex_serializer ex_job ex_output
                     ex_disk_bad_last).2)).
  { apply injective_projections; [vm_compute; reflexivity|reflexivity]. }
  assert (H2 : ex_output.1 ≠ checkpoint_dir ex_serializer
               ∨ glob_match ex_job ex_output.2 = false).
  { left. discriminate. }
  split; [exact H1|]. split; [exact H2|].
  exact (merge_checkpoints_again ex_serializer ex_job ex_output ex_disk_bad_last
           _ true H1 H2).
Defined.

End store_props.

Section string_facts.

Lemma string_app_cons (x : ascii) (a b : string) :
  String x a +:+ b = String x (a +:+ b).
Proof. reflexivity. Qed.

Lemma string_app_nil_l (b : string) : "" +:+ b = b.
Proof. reflexivity. Qed.

Lemma string_app_assoc (a b c : string) : (a +:+ b) +:+ c = a +:+ (b +:+ c).
Proof.
  induction a as [|x a IH]; [done|]. by rewrite !string_app_cons, IH.
Qed.

Lemma string_app_nil_r (a : string) : a +:+ "" = a.
Proof. induction a as [|x a IH]; [done|]. by rewrite string_app_cons, IH. Qed.

Lemma startswith_app (p s : string) : Py.startswith p (p +:+ s) = true.
Proof.
  induction p as [|a p IH]; [done|]. rewrite string_app_cons.
  change (Py.startswith (String a p) (String a (p +:+ s)))
    with (bool_decide (a = a) && Py.startswith p (p +:+ s)).
  by rewrite bool_decide_true, IH by done.
Qed.

Lemma drop_len_app (p s : string) : Py.drop (Py.len p) (p +:+ s) = s.
Proof.
  induction p as [|a p IH]; [by destruct s|].
  rewrite string_app_cons. exact IH.
Qed.

Lemma rev_app_acc (a acc : string) :
  String.rev_app a acc = String.rev_app a "" +:+ acc.
Proof.
  revert acc. induction a as [|c a IH]; intros acc; [done|]. cbn.
  rewrite (IH (String c acc)), (IH (String c "")).
  by rewrite string_app_assoc.
Qed.

Lemma rev_append (a b : string) :
  String.rev (a +:+ b) = String.rev b +:+ String.rev a.
Proof.
  unfold String.rev. revert b. induction a as [|c a IH]; intros b.
  - by rewrite string_app_nil_l, string_app_nil_r.
  - rewrite string_app_cons. cbn.
    rewrite (rev_app_acc (a +:+ b)), IH, (rev_app_acc a (String c "")).
    by rewrite string_app_assoc.
Qed.

Lemma rev_involutive (a : string) : String.rev (String.rev a) = a.
Proof.
  induction a as [|c a IH]; [done|].
  change (String c a) with (String c "" +:+ a) at 1.
  rewrite rev_append, rev_append. by rewrite IH.
Qed.

Lemma endswith_app (s x : string) : Py.endswith s (x +:+ s) = true.
Proof. unfold Py.endswith. rewrite rev_append. apply startswith_app. Qed.

Lemma app_inv_tail_string (a b s : string) : a +:+ s = b +:+ s → a = b.
Proof.
  intros E. apply (f_equal String.rev) in E. rewrite !rev_append in E.
  apply (inj (String.append _)) in E.
  by rewrite <- (rev_involutive a), E, rev_involutive.
Qed.

(** A positive number is written with a leading digit other than zero. *)
Lemma pretty_N_go_head (x : N) (s : string) :
  (0 < x)%N →
  ∃ c rest, pretty_N_go x s = String c rest ∧ c ≠ "0"%char ∧ c ≠ "-"%char.
Proof.
  revert s. induction (N.lt_wf_0 x) as [x _ IH]; intros s Hx.
  rewrite pretty_N_go_step by done.
  destruct (decide (x < 10)%N) as [Hlt|Hge].
  - rewrite N.div_small, pretty_N_go_0 by done.
    rewrite N.mod_small by done.
    eexists _, _. split; [done|].
    assert (x = 1 ∨ x = 2 ∨ x = 3 ∨ x = 4 ∨ x = 5 ∨ x = 6
            ∨ x = 7 ∨ x = 8 ∨ x = 9)%N as Hc by lia.
    destruct Hc as [->|[->|[->|[->|[->|[->|[->|[->| ->]]]]]]]]; by split.
  - apply IH.
    + apply N.div_lt; lia.
    + apply N.div_str_pos. lia.
Qed.

Lemma pretty_N_head (x : N) :
  ∃ c rest, pretty x = String c rest ∧ c ≠ "-"%char ∧ (c = "0"%char → x = 0%N).
Proof.
  unfold pretty, pretty_N. case_decide as Hx.
  - by eexists _, _.
  - destruct (pretty_N_go_head x "") as (c & rest & -> & Hc & Hd); [lia|].
    by eexists _, _.
Qed.

(** Zero padding loses nothing. *)
Lemma pad_inj (a b : nat) (x y : N) :
  Py.zeros a +:+ pretty x = Py.zeros b +:+ pretty y → x = y.
Proof.
  revert b. induction a as [|a IH]; intros b E.
  - destruct b as [|b]; [by apply (inj pretty)|].
    cbn [Py.zeros] in E. rewrite string_app_nil_l, string_app_cons in E.
    destruct (pretty_N_head x) as (c & rest & Ex & _ & Hz).
    rewrite Ex in E. injection E as -> E.
    rewrite (Hz eq_refl) in Ex. injection Ex as <-.
    destruct (pretty_N_head y) as (c' & rest' & Ey & _ & _).
    rewrite Ey in E. by destruct b.
  - destruct b as [|b].
    + cbn [Py.zeros] in E. rewrite string_app_nil_l, string_app_cons in E.
      destruct (pretty_N_head y) as (c & rest & Ey & _ & Hz).
      rewrite Ey in E. injection E as <- E.
      rewrite (Hz eq_refl) in Ey. injection Ey as <-.
      destruct (pretty_N_head x) as (c' & rest' & Ex & _ & _).
      rewrite Ex in E. by destruct a.
    + cbn [Py.zeros] in E. rewrite !string_app_cons in E.
      injection E as E. apply (IH b E).
Qed.

Lemma padded_head (a : nat) (x : N) :
  ∃ c rest, Py.zeros a +:+ pretty x = String c rest ∧ c ≠ "-"%char.
Proof.
  destruct a as [|a].
  - destruct (pretty_N_head x) as (c & rest & -> & Hc & _). by eexists _, _.
  - cbn [Py.zeros]. rewrite string_app_cons. by eexists _, _.
Qed.

Lemma fmt04_inj (x y : Z) : Py.fmt04 x = Py.fmt04 y → x = y.
Proof.
  unfold Py.fmt04. intros E. repeat case_decide.
  - injection E as E. apply pad_inj in E. lia.
  - destruct (padded_head (4 - Py.len (pretty (Z.to_N y))) (Z.to_N y))
      as (c & rest & Ey & Hc).
    rewrite Ey in E. injection E as <-. done.
  - destruct (padded_head (4 - Py.len (pretty (Z.to_N x))) (Z.to_N x))
      as (c & rest & Ex & Hc).
    rewrite Ex in E. injection E as ->. done.
  - apply pad_inj in E. lia.
Qed.

End string_facts.

Section name_props.
Import Data Serializer.

(** X9. Different part numbers give different part files: no two parts of a
    job share a file, whatever the numbers (also beyond four digits and
    below zero). *)
Theorem get_checkpoint_filename_inj (self : Serializer) (job_id : string)
    (m n : Z) :
  get_checkpoint_filename self job_id m = get_checkpoint_filename self job_id n
  ↔ m = n.
Proof.
  split; [|by intros ->]. unfold get_checkpoint_filename. intros [= E].
  apply (inj (String.append _)) in E.
  apply app_inv_tail_string in E. by apply fmt04_inj.
Qed.

(** Read literally, the pattern of a job matches the names of its parts. *)
Lemma glob_match_part (job_id : string) (n : Z) :
  glob_match job_id (checkpoint_prefix job_id +:+ Py.fmt04 n +:+ ".csv") = true.
Proof.
  unfold glob_match. rewrite startswith_app, drop_len_app.
  by rewrite endswith_app.
Qed.

End name_props.

Section resume_facts.

(** In a list sorted strictly by [f], the elements above the one at
    position [k] are the ones after it. *)
Lemma filter_above_sorted {A} (f : A → Z) (l : list A) (k : nat) (x : A) :
  StronglySorted Z.lt (f <$> l) → l !! k = Some x →
  filter (λ y, f x < f y) l = drop (S k) l.
Proof.
  revert k. induction l as [|y l IH]; intros k Hs Hk; [done|].
  cbn in Hs. apply StronglySorted_inv in Hs as [Hs Hall].
  rewrite Forall_fmap in Hall.
  destruct k as [|k].
  - injection Hk as ->. rewrite filter_cons_False by lia. cbn.
    clear IH Hs. induction l as [|z l IH]; [done|].
    apply Forall_cons in Hall as [Hz Hall]. cbn in Hz.
    rewrite filter_cons_True by done. cbn in *. f_equal. by apply IH.
  - cbn in Hk. rewrite filter_cons_False.
    + by apply IH.
    + rewrite Forall_forall in Hall.
      specialize (Hall x (list_elem_of_lookup_2 _ _ _ Hk)). cbn in Hall. lia.
Qed.

End resume_facts.

Section store_round_trip.
Import Data Serializer Examples.

(** X10. For a job id that [Path.glob] reads literally (none of its special
    characters [*], [?], [[], []] nor a path separator), a part that
    [save_checkpoint] has written is found again: its path is the one
    [get_checkpoint_filename] gives, it is among the job's listed
    checkpoints, and a merge whose output write completes returns true. *)
Theorem save_checkpoint_listed (self : Serializer) (df_chunk : DataFrame)
    (job_id : string) (checkpoint_num : Z) (metadata : option (gmap string json))
    (d d' : Disk) (f : path) :
  glob_literal job_id = true →
  save_checkpoint self df_chunk job_id checkpoint_num metadata d = (Ok f, d') →
  f = get_checkpoint_filename self job_id checkpoint_num
  ∧ f ∈ list_checkpoints self job_id d'
  ∧ ∀ output_path, fault d' output_path = None →
      (merge_checkpoints self job_id output_path d').1 = Ok true.
Proof.
  intros _. unfold save_checkpoint, to_csv.
  destruct (fault d _) as [k|] eqn:Ef; [done|]. intros [= <- <-].
  set (f := get_checkpoint_filename self job_id checkpoint_num).
  set (d' := mkDisk _ _).
  assert (Hread : read_csv d' f = Some (add_metadata metadata df_chunk)).
  { unfold read_csv, d'. cbn. by rewrite lookup_insert_eq. }
  assert (Hin : f ∈ list_checkpoints self job_id d').
  { apply elem_of_list_checkpoints, elem_of_glob. split; [done|]. split.
    - apply glob_match_part.
    - unfold d'. cbn. rewrite lookup_insert_eq. by eexists. }
  split; [done|]. split; [done|].
  intros output_path Hf. unfold merge_checkpoints.
  destruct (list_checkpoints self job_id d') as [|g gs] eqn:El.
  { by apply elem_of_nil in Hin. }
  destruct (omap (read_csv d') (g :: gs)) as [|x xs] eqn:Eo.
  { assert (Hx : add_metadata metadata df_chunk ∈ omap (read_csv d') (g :: gs)).
    { apply list_elem_of_omap. by exists f. }
    rewrite Eo in Hx. by apply elem_of_nil in Hx. }
  unfold to_csv. by rewrite Hf.
Qed.

Lemma save_checkpoint_listed_witness :
  glob_literal ex_job = true
  ∧ save_checkpoint ex_serializer [ex_row 1] ex_job 1 None ex_disk_empty
    = (Ok (ex_part 1),
       (save_checkpoint ex_serializer [ex_row 1] ex_job 1 None ex_disk_empty).2)
  ∧ ex_part 1
    ∈ list_checkpoints ex_serializer ex_job
        (save_checkpoint ex_serializer [ex_row 1] ex_job 1 None ex_disk_empty).2.
Proof.
  assert (H0 : glob_literal ex_job = true) by (vm_compute; reflexivity).
  assert (H1 : save_checkpoint ex_serializer [ex_row 1] ex_job 1 None ex_disk_empty
               = (Ok (ex_part 1),
                  (save_checkpoint ex_serializer [ex_row 1] ex_job 1 None
                     ex_disk_empty).2)).
  { apply injective_projections; [vm_compute; reflexivity|reflexivity]. }
  split; [exact H0|]. split; [exact H1|].
  destruct (save_checkpoint_listed ex_serializer [ex_row 1] ex_job 1 None
              ex_disk_empty _ _ H0 H1) as (_ & Hin & _).
  exact Hin.
Defined.

(** X11. [get_resume_point] hands back the frame unchanged, with row 0 and no
    checkpoint, when [find_last_checkpoint] finds none.  When it finds one
    whose last RowID is that of the row at position [k] of a frame sorted by
    strictly increasing RowID, the rows that remain are exactly those after
    position [k]. *)
Theorem get_resume_point_after {A} (RowID : A → Z) (self : Serializer)
    (job_id : string) (df : list A) (d : Disk) :
  (∀ last, find_last_checkpoint self job_id d = (None, last) →
           get_resume_point RowID self job_id df d = Some (df, JInt 0, false))
  ∧ (∀ f (k : nat) row,
       find_last_checkpoint self job_id d = (Some f, JInt (RowID row)) →
       StronglySorted Z.lt (RowID <$> df) → df !! k = Some row →
       get_resume_point RowID self job_id df d
       = Some (drop (S k) df, JInt (RowID row), true)).
Proof.
  unfold get_resume_point. split.
  - intros last ->. done.
  - intros f k row -> Hs Hk. by rewrite (filter_above_sorted RowID df k row).
Qed.

Lemma get_resume_point_after_witness :
  find_last_checkpoint ex_serializer ex_job ex_disk_one_part
  = (Some (ex_part 1), JInt (Processor.RowID (ex_input_row 2)))
  ∧ StronglySorted Z.lt (Processor.RowID <$> ex_rows 3)
  ∧ ex_rows 3 !! 1%nat = Some (ex_input_row 2)
  ∧ get_resume_point Processor.RowID ex_serializer ex_job (ex_rows 3)
      ex_disk_one_part
    = Some ([ex_input_row 3], JInt 2, true).
Proof.
  assert (H1 : find_last_checkpoint ex_serializer ex_job ex_disk_one_part
               = (Some (ex_part 1), JInt (Processor.RowID (ex_input_row 2))))
    by (vm_compute; reflexivity).
  assert (H2 : StronglySorted Z.lt (Processor.RowID <$> ex_rows 3)).
  { change (StronglySorted Z.lt [1; 2; 3]).
    repeat (constructor; [|repeat constructor; lia]). constructor. }
  assert (H3 : ex_rows 3 !! 1%nat = Some (ex_input_row 2)) by reflexivity.
  split; [exact H1|]. split; [exact H2|]. split; [exact H3|].
  exact (proj2 (get_resume_point_after Processor.RowID ex_serializer ex_job
                  (ex_rows 3) ex_disk_one_part) _ _ _ H1 H2 H3).
Defined.

End store_round_trip.

(** *** Client calls and validation *)

Section calls_facts.
Import Data Processor.
Variable self : Processor.
Variable w : World.

Lemma single_row_loop_calls (k n : nat) :
  (n ≤ (single_row_loop self w k n).2 ≤ n + k)%nat
  ∧ ((0 < k)%nat → is_Some (single_row_loop self w k n).1
                   ∧ (n < (single_row_loop self w k n).2)%nat).
Proof.
  revert n. induction k as [|k IH]; intros n; [cbn; split; [lia|]; lia|].
  cbn [single_row_loop].
  destruct (single_attempt self w (chat w n)) as [processed|].
  - cbn. split; [lia|]. intros _. split; [by eexists|lia].
  - destruct k as [|k].
    + cbn. split; [lia|]. intros _. split; [by eexists|lia].
    + destruct (IH (S n)) as [Hb Hs]. split; [lia|].
      intros _. destruct Hs as [? ?]; [lia|]. split; [done|lia].
Qed.

Lemma fallback_calls (rows : list Row) (n : nat) :
  (n ≤ (fallback self w rows n).2
   ≤ n + Z.to_nat (retries self) * length rows)%nat.
Proof.
  revert n. induction rows as [|row rows IH]; intros n; [cbn; lia|].
  cbn [fallback]. unfold process_single_row.
  pose proof (single_row_loop_calls (Z.to_nat (retries self)) n) as [Hb _].
  destruct (single_row_loop self w (Z.to_nat (retries self)) n) as [result n1].
  specialize (IH n1). destruct (fallback self w rows n1) as [rest n2].
  cbn in *. lia.
Qed.

Lemma batch_loop_calls (rows : list Row) (k n : nat) :
  (n ≤ (batch_loop self w rows k n).2
   ≤ n + k + Z.to_nat (retries self) * length rows)%nat.
Proof.
  revert n. induction k as [|k IH]; intros n; [cbn; lia|].
  cbn [batch_loop].
  destruct (batch_attempt self w (length rows) (chat w n)) as [res|].
  - cbn. lia.
  - destruct k as [|k].
    + pose proof (fallback_calls rows (S n)) as Hf.
      destruct (fallback self w rows (S n)) as [res n']. cbn in *. lia.
    + specialize (IH (S n)). lia.
Qed.

Lemma process_batch_calls_le (rows : list Row) (n : nat) :
  (n ≤ (process_batch self w rows n).2)%nat.
Proof. unfold process_batch. apply batch_loop_calls. Qed.

Lemma process_single_row_calls_le (row : Row) (n : nat) :
  (n ≤ (process_single_row self w row n).2)%nat.
Proof. unfold process_single_row. apply single_row_loop_calls. Qed.

(** **** A client that fails every call *)
Hypothesis chat_down : ∀ i, chat w i = ChatError.

Lemma single_row_loop_down (k n : nat) :
  (0 < k)%nat →
  single_row_loop self w k n = (Some (all_retries_failed self), (n + k)%nat).
Proof.
  revert n. induction k as [|k IH]; intros n Hk; [lia|].
  cbn [single_row_loop]. rewrite chat_down. cbn.
  destruct k as [|k]; [f_equal; lia|].
  rewrite IH by lia. f_equal; lia.
Qed.

Lemma fallback_down (rows : list Row) (n : nat) :
  1 ≤ retries self →
  fallback self w rows n
  = (replicate (length rows) (Some (all_retries_failed self)),
     (n + Z.to_nat (retries self) * length rows)%nat).
Proof.
  intros Hr. revert n. induction rows as [|row rows IH]; intros n.
  - cbn. f_equal; lia.
  - cbn [fallback]. unfold process_single_row.
    rewrite single_row_loop_down by lia. rewrite IH. cbn. f_equal; lia.
Qed.

Lemma batch_loop_down (rows : list Row) (k n : nat) :
  1 ≤ retries self → (0 < k)%nat →
  batch_loop self w rows k n
  = (Some (replicate (length rows) (Some (all_retries_failed self))),
     (n + k + Z.to_nat (retries self) * length rows)%nat).
Proof.
  intros Hr. revert n. induction k as [|k IH]; intros n Hk; [lia|].
  cbn [batch_loop]. rewrite chat_down. cbn [batch_attempt].
  destruct k as [|k].
  - rewrite fallback_down by done. f_equal; lia.
  - rewrite IH by lia. f_equal; lia.
Qed.

End calls_facts.

Section calls_props.
Import Data Processor Examples.

(** X12. With at least one attempt allowed, [process_single_row] always returns
    a record, after at least one and at most [retries] calls to the
    client; with none allowed it returns [None] without calling.  (The
    sleep between attempts is taken to return.) *)
Theorem process_single_row_calls (self : Processor) (w : World) (row : Row)
    (n : nat) :
  (1 ≤ retries self →
   ∃ processed n', process_single_row self w row n = (Some processed, n')
                   ∧ (n < n' ≤ n + Z.to_nat (retries self))%nat)
  ∧ (retries self ≤ 0 → process_single_row self w row n = (None, n)).
Proof.
  unfold process_single_row. split.
  - intros Hr.
    destruct (single_row_loop_calls self w (Z.to_nat (retries self)) n)
      as [Hb Hs].
    destruct Hs as [[processed Hp] Hlt]; [lia|].
    destruct (single_row_loop self w (Z.to_nat (retries self)) n) as [o n'].
    cbn in *. subst o. exists processed, n'. split; [done|lia].
  - intros Hr. by replace (Z.to_nat (retries self)) with 0%nat by lia.
Qed.

(** X13. [process_batch] makes at most [retries] calls for the batch and, in the
    fallback, at most [retries] calls per row: never more than
    [retries * (1 + len(rows))] calls in all. *)
Theorem process_batch_calls (self : Processor) (w : World) (rows : list Row)
    (n : nat) :
  (n ≤ (process_batch self w rows n).2
   ≤ n + Z.to_nat (retries self) * (1 + length rows))%nat.
Proof.
  unfold process_batch.
  pose proof (batch_loop_calls self w rows (Z.to_nat (retries self)) n). lia.
Qed.

(** X14. When every call to the client fails, and the sleep between attempts
    returns (a non-negative delay; with [retries = 1] there is no sleep),
    [process_batch] still returns one record per row, each with
    ['ERROR_ALL_RETRIES_FAILED'] in every configured column, after exactly
    [retries * (1 + len(rows))] calls. *)
Theorem process_batch_client_down (self : Processor) (w : World)
    (rows : list Row) (n : nat) :
  (∀ i, chat w i = ChatError) → 1 ≤ retries self →
  process_batch self w rows n
  = (Some (replicate (length rows) (Some (all_retries_failed self))),
     (n + Z.to_nat (retries self) * (1 + length rows))%nat)
  ∧ ∀ col, col ∈ columns_to_code self →
           all_retries_failed self !! col = Some (JStr "ERROR_ALL_RETRIES_FAILED").
Proof.
  intros Hdown Hr. split.
  - unfold process_batch. rewrite batch_loop_down by (done || lia).
    f_equal; lia.
  - intros col Hcol. unfold all_retries_failed.
    apply (foldl_insert_lookup (λ _, JStr "ERROR_ALL_RETRIES_FAILED")
             (JStr "ERROR_ALL_RETRIES_FAILED") (columns_to_code self) ∅ col);
      [done|by intros k x|done].
Qed.

Lemma process_batch_client_down_witness :
  (∀ i, chat (mkWorld (λ _, ChatError) ex_json_loads
                (λ _, mkMetrics JNull JNull JNull JNull) (λ v, v) (λ _, true)) i
        = ChatError)
  ∧ 1 ≤ retries ex_processor
  ∧ process_batch ex_processor
      (mkWorld (λ _, ChatError) ex_json_loads
         (λ _, mkMetrics JNull JNull JNull JNull) (λ v, v) (λ _, true))
      (ex_rows 3) 0%nat
    = (Some (replicate (length (ex_rows 3)) (Some (all_retries_failed ex_processor))),
       (0 + Z.to_nat (retries ex_processor) * (1 + length (ex_rows 3)))%nat).
Proof.
  assert (H1 : ∀ i, chat (mkWorld (λ _, ChatError) ex_json_loads
                            (λ _, mkMetrics JNull JNull JNull JNull) (λ v, v)
                            (λ _, true)) i = ChatError) by (intros i; reflexivity).
  assert (H2 : 1 ≤ retries ex_processor) by (cbn; lia).
  split; [exact H1|]. split; [exact H2|].
  exact (proj1 (process_batch_client_down ex_processor _ (ex_rows 3) 0%nat H1 H2)).
Defined.

End calls_props.

Section validation_facts.
Import Data Processor.
Variable self : Processor.

Definition settled (pd : Rec) (col : string) : Prop :=
  pd !! col = Some (JStr "-") ∨ pd !! col = Some (JStr "ERROR_MISSING_KEY").

Definition not_related_step (pd : Rec) (col : string) : Rec :=
  if negb (in_strs (get_or_empty pd col) ["-"; "ERROR_MISSING_KEY"])
  then <[col := JStr "-"]> pd else pd.

Lemma eq_str_true (j : json) (s : string) : eq_str j s = true → j = JStr s.
Proof. destruct j; try done. cbn. by intros ->%bool_decide_eq_true. Qed.

Lemma not_related_step_settles pd col : settled (not_related_step pd col) col.
Proof.
  unfold not_related_step, settled.
  destruct (in_strs (get_or_empty pd col) _) eqn:E; cbn [negb].
  - unfold in_strs in E. cbn in E.
    unfold get_or_empty in *. destruct (pd !! col) as [v|]; [|done]. cbn in E.
    apply orb_true_iff in E as [E|E]; [left; by rewrite (eq_str_true _ _ E)|].
    apply orb_true_iff in E as [E|E]; [right; by rewrite (eq_str_true _ _ E)|done].
  - left. by rewrite lookup_insert_eq.
Qed.

Lemma not_related_step_keeps pd c col :
  settled pd col → settled (not_related_step pd c) col.
Proof.
  intros Hs. destruct (decide (c = col)) as [->|Hne].
  - apply not_related_step_settles.
  - unfold not_related_step, settled. destruct (negb _); [|done].
    by rewrite lookup_insert_ne.
Qed.

Lemma not_related_step_other pd c col :
  c ≠ col → not_related_step pd c !! col = pd !! col.
Proof.
  intros Hne. unfold not_related_step. destruct (negb _); [|done].
  by rewrite lookup_insert_ne.
Qed.

Lemma not_related_fold (cols : list string) : ∀ pd col,
  (col ∈ cols ∨ settled pd col → settled (foldl not_related_step pd cols) col)
  ∧ (col ∉ cols → foldl not_related_step pd cols !! col = pd !! col).
Proof.
  induction cols as [|c cols IH]; intros pd col.
  - split; [intros [?%elem_of_nil|?]; done|done].
  - cbn [foldl]. destruct (IH (not_related_step pd c) col) as [IH1 IH2]. split.
    + intros [[->|Hin]%elem_of_cons|Hs].
      * apply IH1. right. apply not_related_step_settles.
      * apply IH1. by left.
      * apply IH1. right. by apply not_related_step_keeps.
    + intros Hnot. rewrite IH2 by (intros ?; apply Hnot; by right).
      apply not_related_step_other. intros ->. apply Hnot. by left.
Qed.

(** **** The columns of a processed record *)

Lemma dom_insert_present (pd : Rec) (k : string) (v : json) :
  is_Some (pd !! k) → dom (<[k := v]> pd) = dom pd.
Proof.
  intros Hk. apply set_eq. intros x.
  rewrite dom_insert_L, elem_of_union, elem_of_singleton. split; [|by right].
  intros [->|?]; [by apply elem_of_dom|done].
Qed.

Lemma has_key_is_Some (pd : Rec) (k : string) :
  has_key pd k = true → is_Some (pd !! k).
Proof. unfold has_key. by intros ?%bool_decide_eq_true. Qed.

Lemma dom_enforce_comparative pd : dom (enforce_comparative pd) = dom pd.
Proof.
  unfold enforce_comparative.
  destruct (has_key pd "Comparative_Mention") eqn:E1; [|done].
  destruct (has_key pd "Competitor_Named") eqn:E2; [|done]. cbn [andb].
  apply has_key_is_Some in E2.
  destruct (eq_str _ "Y").
  { destruct (in_strs _ _); [by apply dom_insert_present|done]. }
  destruct (eq_str _ "N"); [|done].
  set (pd1 := if negb _ then _ else pd).
  assert (Hd1 : dom pd1 = dom pd).
  { unfold pd1. destruct (negb _); [by apply dom_insert_present|done]. }
  destruct (has_key pd1 "Competitive_Position") eqn:E3; [|done].
  cbn [andb].
  destruct (negb (eq_str (get_or_empty pd1 "Competitive_Position") "-"));
    [|done].
  rewrite dom_insert_present; [done|]. by apply has_key_is_Some.
Qed.

Lemma dom_enforce_abandonment pd : dom (enforce_abandonment pd) = dom pd.
Proof.
  unfold enforce_abandonment.
  destruct (has_key pd "Abandonment_Mentioned") eqn:E1; [|done].
  destruct (has_key pd "Abandonment_Reason") eqn:E2; [|done]. cbn [andb].
  destruct (_ && _); [|done].
  apply dom_insert_present. by apply has_key_is_Some.
Qed.

Lemma dom_not_related_fold (cols : list string) : ∀ pd : Rec,
  (∀ c, c ∈ cols → c ∈ dom pd) →
  dom (foldl not_related_step pd cols) = dom pd.
Proof.
  induction cols as [|c cols IH]; intros pd Hin; [done|].
  cbn [foldl].
  assert (Hd : dom (not_related_step pd c) = dom pd).
  { unfold not_related_step. destruct (negb _); [|done].
    apply dom_insert_present, elem_of_dom, Hin. by left. }
  rewrite IH; [done|]. intros c' Hc'. rewrite Hd. apply Hin. by right.
Qed.

Lemma dom_foldl_insert (g : string → json) (cols : list string) : ∀ acc : Rec,
  dom (foldl (λ (pd : Rec) col, <[col := g col]> pd) acc cols)
  = dom acc ∪ list_to_set cols.
Proof.
  induction cols as [|c cols IH]; intros acc; cbn.
  - by rewrite (right_id_L ∅ (∪)).
  - rewrite IH, dom_insert_L.
    by rewrite (comm_L (∪) {[c]} (dom acc)), (assoc_L (∪)).
Qed.

Lemma dom_extract_columns result pd :
  extract_columns self result = Some pd →
  dom pd = list_to_set (columns_to_code self).
Proof.
  unfold extract_columns.
  destruct (columns_to_code self) as [|c cols] eqn:Ec.
  { intros [= <-]. by rewrite dom_empty_L. }
  destruct result; try done. intros [= <-].
  rewrite dom_foldl_insert, dom_insert_L, dom_empty_L.
  by rewrite (right_id_L ∅ (∪)).
Qed.

Lemma dom_validate pd pd' :
  dom pd = list_to_set (columns_to_code self) →
  validate_processed_data self pd = Some pd' → dom pd' = dom pd.
Proof.
  intros Hd. unfold validate_processed_data.
  destruct (match first_column self with Some c => _ | None => false end).
  - intros [= <-]. apply dom_not_related_fold.
    intros c Hc. rewrite Hd. apply elem_of_list_to_set.
    destruct (columns_to_code self); [done|]. by right.
  - destruct (forallb _ _); [|done]. intros [= <-].
    by rewrite dom_enforce_abandonment, dom_enforce_comparative.
Qed.

End validation_facts.

Section validation_props.
Import Data Processor.

(** X15. A record that the per-record processing returns either is the
    configured [not_applicable_defaults] dict itself, or has exactly the
    configured output columns: validation adds no column and drops none. *)
Theorem process_result_columns (self : Processor) (result : json) (pd : Rec) :
  process_result self result = Some pd →
  pd = not_applicable_defaults self
  ∨ dom pd = list_to_set (columns_to_code self).
Proof.
  unfold process_result.
  destruct (first_column_is self result "NOT_APPLICABLE") as [[|]|]; cbn;
    [by intros [= <-]; left| |done].
  destruct (extract_columns self result) as [pd0|] eqn:E; [|done]. cbn.
  intros Hv. right.
  pose proof (dom_extract_columns self result pd0 E) as Hd.
  by rewrite (dom_validate self pd0 pd Hd Hv).
Qed.

Lemma process_result_columns_witness :
  process_result Examples.ex_processor (JObj [])
  = Some {[ "Booking_Related" := JStr "ERROR_MISSING_KEY";
            "Topic" := JStr "ERROR_MISSING_KEY" ]}
  ∧ ({[ "Booking_Related" := JStr "ERROR_MISSING_KEY";
        "Topic" := JStr "ERROR_MISSING_KEY" ]}
     = not_applicable_defaults Examples.ex_processor
     ∨ dom ({[ "Booking_Related" := JStr "ERROR_MISSING_KEY";
               "Topic" := JStr "ERROR_MISSING_KEY" ]} : Rec)
       = list_to_set (columns_to_code Examples.ex_processor)).
Proof.
  assert (H1 : process_result Examples.ex_processor (JObj [])
               = Some {[ "Booking_Related" := JStr "ERROR_MISSING_KEY";
                         "Topic" := JStr "ERROR_MISSING_KEY" ]}).
  { vm_compute. reflexivity. }
  split; [exact H1|].
  exact (process_result_columns Examples.ex_processor (JObj []) _ H1).
Defined.

(** X16. When the first configured column of a record is ['N'], validation
    returns the record with every other configured column at ['-'] or
    ['ERROR_MISSING_KEY'], and with the columns that are not among those
    untouched; no other rule is applied. *)
Theorem validate_not_related (self : Processor) (pd : Rec) (c : string) :
  first_column self = Some c → c ≠ EmptyString → pd !! c = Some (JStr "N") →
  ∃ pd', validate_processed_data self pd = Some pd'
         ∧ (∀ col, col ∈ tail (columns_to_code self) →
                   pd' !! col = Some (JStr "-")
                   ∨ pd' !! col = Some (JStr "ERROR_MISSING_KEY"))
         ∧ (∀ col, col ∉ tail (columns_to_code self) → pd' !! col = pd !! col).
Proof.
  intros Hc Hne Hn. eexists. split.
  { unfold validate_processed_data. rewrite Hc, Hn. cbn.
    by rewrite bool_decide_false by done. }
  unfold enforce_not_related.
  change (λ (pd0 : Rec) col, if negb (in_strs (get_or_empty pd0 col)
                                        ["-"; "ERROR_MISSING_KEY"])
                             then <[col := JStr "-"]> pd0 else pd0)
    with not_related_step.
  split.
  - intros col Hcol.
    apply (not_related_fold (tail (columns_to_code self)) pd col). by left.
  - intros col Hcol.
    by apply (not_related_fold (tail (columns_to_code self)) pd col).
Qed.

Lemma validate_not_related_witness :
  first_column Examples.ex_processor = Some "Booking_Related"
  ∧ "Booking_Related" ≠ EmptyString
  ∧ ({[ "Booking_Related" := JStr "N"; "Topic" := JStr "Price" ]} : Rec)
      !! "Booking_Related" = Some (JStr "N")
  ∧ ∃ pd', validate_processed_data Examples.ex_processor
             {[ "Booking_Related" := JStr "N"; "Topic" := JStr "Price" ]}
           = Some pd'
           ∧ (pd' !! "Topic" = Some (JStr "-")
              ∨ pd' !! "Topic" = Some (JStr "ERROR_MISSING_KEY")).
Proof.
  assert (H1 : first_column Examples.ex_processor = Some "Booking_Related")
    by reflexivity.
  assert (H2 : "Booking_Related" ≠ EmptyString) by discriminate.
  assert (H3 : ({[ "Booking_Related" := JStr "N"; "Topic" := JStr "Price" ]} : Rec)
                 !! "Booking_Related" = Some (JStr "N")) by (vm_compute; reflexivity).
  split; [exact H1|]. split; [exact H2|]. split; [exact H3|].
  destruct (validate_not_related Examples.ex_processor _ _ H1 H2 H3)
    as (pd' & Hv & Hall & _).
  exists pd'. split; [exact Hv|]. apply Hall. vm_compute. left.
Defined.

End validation_props.

(** *** What every run of the processing loop keeps *)
Section run_invariant.
Import Data Processor.
Context {M : Type} `{Monitor M}.
Variable self : Processor.
Variable w : World.
Variable df : list Row.
Variable batch_size : Z.
Variable serializer : Serializer.Serializer.
Variable job_id : string.
Variable metadata : gmap string json.
Variable pause_event : bool.

Local Abbreviation part_path num :=
  (Serializer.get_checkpoint_filename serializer job_id num).

(** A property of the loop state that each kind of state change keeps:
    taking in the results of a batch, a batch that raises after some client
    calls, a progress update, a part saved, and a part whose write
    faults. *)
Variable R : Run M → Prop.
Hypothesis R_batch : ∀ st res n, R st → (chat_calls st ≤ n)%nat →
  R (mkRun (results st ++ res) (api_call_count st + 1) (last_checkpoint_row st)
           (checkpoint_counter st) n (disk st) (monitor st) (saved st)).
Hypothesis R_calls : ∀ st n, R st → (chat_calls st ≤ n)%nat →
  R (mkRun (results st) (api_call_count st) (last_checkpoint_row st)
           (checkpoint_counter st) n (disk st) (monitor st) (saved st)).
Hypothesis R_progress : ∀ st c t a metrics, R st →
  R (mkRun (results st) (api_call_count st) (last_checkpoint_row st)
           (checkpoint_counter st) (chat_calls st) (disk st)
           (update_progress c t a metrics (monitor st)) (saved st)).
Hypothesis R_saved : ∀ st c data md, R st →
  fault (disk st) (part_path (checkpoint_counter st + 1)) = None →
  R (mkRun (results st) (api_call_count st) c (checkpoint_counter st + 1)
           (chat_calls st)
           (mkDisk (<[part_path (checkpoint_counter st + 1)
                      := Csv (Serializer.add_metadata (Some md) data)]>
                      (files (disk st)))
                   (fault (disk st)))
           (record_checkpoint (checkpoint_counter st + 1)
              (part_path (checkpoint_counter st + 1)) (monitor st))
           (saved st ++ [mkPart (checkpoint_counter st + 1)
                           (part_path (checkpoint_counter st + 1)) data c])).
Hypothesis R_fault : ∀ st left_behind, R st →
  R (mkRun (results st) (api_call_count st) (last_checkpoint_row st)
           (checkpoint_counter st + 1) (chat_calls st)
           (mkDisk (<[part_path (checkpoint_counter st + 1) := left_behind]>
                      (files (disk st)))
                   (fault (disk st)))
           (monitor st) (saved st)).

Lemma progress_update_R k metrics st :
  R st → R (progress_update df batch_size k metrics st).
Proof.
  intros HR. unfold progress_update.
  case_bool_decide; [|done]. destruct (_ || _); [|done]. by apply R_progress.
Qed.

Lemma checkpoint_R c metrics st :
  R st →
  R (state_of (checkpoint w df serializer job_id metadata c metrics st)).
Proof.
  intros HR. unfold checkpoint.
  case_bool_decide; [|done].
  destruct (prepare_checkpoint_data _ _ _) as [data|]; [|done].
  unfold Serializer.save_checkpoint, to_csv.
  destruct (fault (disk st) (part_path (checkpoint_counter st + 1)))
    as [k|] eqn:Ef; cbn.
  - apply (R_fault st _ HR).
  - by apply (R_saved st c data _ HR).
Qed.

Lemma process_one_batch_R (batch_no : nat) (batch_indices : list nat) st :
  R st →
  R (state_of (process_one_batch self w df batch_size serializer job_id
                 metadata pause_event batch_no batch_indices st)).
Proof.
  intros HR. unfold process_one_batch.
  destruct (mapM _ batch_indices) as [batch_df|]; [|done].
  destruct (pause_event && negb (pause_ends w batch_no)); [done|].
  set (pr := if bool_decide (batch_size = 1) then _ else _).
  assert (Hn : (chat_calls st ≤ pr.2)%nat).
  { unfold pr. case_bool_decide.
    - destruct batch_df as [|row ?]; [done|].
      pose proof (process_single_row_calls_le self w row (chat_calls st)).
      by destruct (process_single_row self w row (chat_calls st)).
    - apply process_batch_calls_le. }
  destruct pr as [[batch_results|] n]; cbn in Hn; cbn [state_of].
  2:{ by apply R_calls. }
  pose proof (R_batch st batch_results n HR Hn) as HR1.
  destruct (Serializer.should_checkpoint _ _ _) as [[|]|]; cbn [state_of].
  - pose proof (R_progress _ (Z.of_nat (length (results st ++ batch_results)))
                  (Z.of_nat (total_rows df)) (api_call_count st + 1)
                  (build_metrics w (length (results st ++ batch_results))) HR1)
      as HR2.
    pose proof (checkpoint_R (length (results st ++ batch_results))
                  (build_metrics w (length (results st ++ batch_results))) _ HR2)
      as HR3.
    cbn in HR3.
    destruct (checkpoint _ _ _ _ _ _ _ _) as [st'|st'|st']; cbn in *;
      [by apply progress_update_R|done|done].
  - by apply progress_update_R.
  - done.
Qed.

Lemma run_batches_R (batches : list (list nat)) : ∀ (batch_no : nat) st,
  R st →
  R (state_of (run_batches self w df batch_size serializer job_id metadata
                 pause_event batch_no batches st)).
Proof.
  induction batches as [|b batches IH]; intros batch_no st HR; [done|].
  cbn [run_batches].
  pose proof (process_one_batch_R batch_no b st HR) as HR1.
  destruct (process_one_batch _ _ _ _ _ _ _ _ _ _ _) as [st'|st'|st'];
    cbn in *; [by apply IH|done|done].
Qed.

Lemma process_dataframe_R mon n d :
  R (mkRun [] 0 0%nat 0 n d mon []) →
  R (state_of (process_dataframe self w df batch_size serializer job_id
                 metadata pause_event mon n d)).
Proof.
  intros HR. unfold process_dataframe.
  case_decide; [done|]. case_decide; [done|]. by apply run_batches_R.
Qed.

End run_invariant.

Section run_facts.
Import Data Processor.
Context {M : Type} `{Monitor M}.
Variable self : Processor.
Variable w : World.
Variable df : list Row.
Variable batch_size : Z.
Variable serializer : Serializer.Serializer.
Variable job_id : string.
Variable metadata : gmap string json.
Variable pause_event : bool.

Local Abbreviation part_path num :=
  (Serializer.get_checkpoint_filename serializer job_id num).

Lemma part_path_inj (m n : Z) : part_path m = part_path n → m = n.
Proof.
  unfold Serializer.get_checkpoint_filename. intros [= E].
  apply (inj (String.append _)) in E.
  apply app_inv_tail_string in E. by apply fmt04_inj.
Qed.

(** The disk outside the job's part files, and the faults, stay as they
    were. *)
Definition framed (d : Disk) (st : Run M) : Prop :=
  fault (disk st) = fault d
  ∧ ∀ p, (∀ num, p ≠ part_path num) → files (disk st) !! p = files d !! p.

Lemma process_dataframe_framed mon n d :
  framed d (state_of (process_dataframe self w df batch_size serializer job_id
                        metadata pause_event mon n d)).
Proof.
  apply (process_dataframe_R self w df batch_size serializer job_id metadata
           pause_event (framed d)); unfold framed; cbn; try done.
  - intros st c data md [Hf Hp] _. split; [done|].
    intros p Hne.
    rewrite lookup_insert_ne
      by (intros E; by apply (Hne (checkpoint_counter st + 1))).
    by apply Hp.
  - intros st lb [Hf Hp]. split; [done|].
    intros p Hne.
    rewrite lookup_insert_ne
      by (intros E; by apply (Hne (checkpoint_counter st + 1))).
    by apply Hp.
Qed.

(** Every part saved so far is on disk under its own name. *)
Definition part_kept (st : Run M) (p : Part) : Prop :=
  part_file p = part_path (part_num p)
  ∧ 1 ≤ part_num p ≤ checkpoint_counter st
  ∧ ∃ md, files (disk st) !! part_file p
          = Some (Csv (Serializer.add_metadata (Some md) (part_rows p))).

Definition parts_kept (st : Run M) : Prop :=
  0 ≤ checkpoint_counter st
  ∧ Forall (part_kept st) (saved st)
  ∧ NoDup (part_file <$> saved st).

Lemma process_dataframe_parts_kept mon n d :
  parts_kept (state_of (process_dataframe self w df batch_size serializer job_id
                          metadata pause_event mon n d)).
Proof.
  apply (process_dataframe_R self w df batch_size serializer job_id metadata
           pause_event parts_kept); unfold parts_kept; cbn; try done.
  - intros st c data md (Hc & Hall & Hnd) _.
    split; [lia|]. split.
    + apply Forall_app. split.
      * eapply Forall_impl; [exact Hall|].
        intros p (Hfile & Hnum & md' & Hmd'). unfold part_kept. cbn.
        split; [done|]. split; [lia|]. exists md'.
        rewrite lookup_insert_ne; [done|].
        rewrite Hfile. intros E%part_path_inj. lia.
      * apply Forall_singleton. unfold part_kept. cbn.
        split; [done|]. split; [lia|]. exists md. by rewrite lookup_insert_eq.
    + rewrite fmap_app. cbn. apply NoDup_app. split; [done|]. split.
      * intros f Hf Hf'. apply list_elem_of_fmap in Hf as (p & -> & Hp).
        apply list_elem_of_singleton in Hf'.
        rewrite Forall_forall in Hall. destruct (Hall p Hp) as (Hfile & Hnum & _).
        rewrite Hfile in Hf'. apply part_path_inj in Hf'. lia.
      * apply NoDup_singleton.
  - intros st lb (Hc & Hall & Hnd).
    split; [lia|]. split; [|done].
    eapply Forall_impl; [exact Hall|].
    intros p (Hfile & Hnum & md' & Hmd'). unfold part_kept. cbn.
    split; [done|]. split; [lia|]. exists md'.
    rewrite lookup_insert_ne; [done|].
    rewrite Hfile. intros E%part_path_inj. lia.
  - split; [lia|]. split; [constructor|constructor].
Qed.

(** **** Counting the batches *)

Lemma checkpoint_api c metrics st st' :
  checkpoint w df serializer job_id metadata c metrics st = Returned st' →
  api_call_count st' = api_call_count st.
Proof.
  unfold checkpoint. case_bool_decide; [|by intros [= <-]].
  destruct (prepare_checkpoint_data _ _ _) as [data|]; [|done].
  destruct (Serializer.save_checkpoint _ _ _ _ _ _) as [[f|] d']; [|done].
  by intros [= <-].
Qed.

Lemma progress_update_api k metrics st :
  api_call_count (progress_update df batch_size k metrics st) = api_call_count st.
Proof.
  unfold progress_update. case_bool_decide; [|done]. by destruct (_ || _).
Qed.

Lemma process_one_batch_api (batch_no : nat) (batch_indices : list nat) st st' :
  process_one_batch self w df batch_size serializer job_id metadata pause_event
                    batch_no batch_indices st = Returned st' →
  api_call_count st' = api_call_count st + 1.
Proof.
  unfold process_one_batch.
  destruct (mapM _ batch_indices) as [batch_df|]; [|done].
  destruct (pause_event && negb (pause_ends w batch_no)); [done|].
  destruct (if bool_decide (batch_size = 1) then _ else _)
    as [[batch_results|] n]; [|done].
  destruct (Serializer.should_checkpoint _ _ _) as [[|]|]; [| |done].
  - destruct (checkpoint _ _ _ _ _ _ _ _) as [st1|st1|st1] eqn:Ec; [|done|done].
    intros [= <-]. rewrite progress_update_api.
    by rewrite (checkpoint_api _ _ _ _ Ec).
  - intros [= <-]. by rewrite progress_update_api.
Qed.

Lemma run_batches_api (batches : list (list nat)) : ∀ (batch_no : nat) st st',
  run_batches self w df batch_size serializer job_id metadata pause_event
              batch_no batches st = Returned st' →
  api_call_count st' = api_call_count st + Z.of_nat (length batches).
Proof.
  induction batches as [|b batches IH]; intros batch_no st st'.
  - intros [= <-]. cbn. lia.
  - cbn [run_batches].
    destruct (process_one_batch _ _ _ _ _ _ _ _ _ _ _) as [st1|st1|st1] eqn:E1;
      [|done|done].
    intros E. rewrite (IH _ _ _ E), (process_one_batch_api _ _ _ _ E1).
    cbn [length]. lia.
Qed.

End run_facts.

Section chunk_count.
Import Data Processor.

Lemma chunks_go_count {A} (fuel b : nat) : ∀ l : list A,
  (0 < b)%nat → (length l ≤ fuel)%nat →
  (length l ≤ b * length (chunks_go fuel b l) < length l + b)%nat.
Proof.
  induction fuel as [|fuel IH]; intros l Hb Hl.
  - destruct l; [cbn; lia|cbn in Hl; lia].
  - destruct l as [|x l]; [cbn; lia|].
    change (chunks_go (S fuel) b (x :: l))
      with (take b (x :: l) :: chunks_go fuel b (drop b (x :: l))).
    cbn [length] in *. specialize (IH (drop b (x :: l)) Hb).
    rewrite length_drop in IH. cbn [length] in IH.
    set (q := length (chunks_go fuel b (drop b (x :: l)))) in *.
    assert (Hq : (S (length l) - b ≤ b * q < S (length l) - b + b)%nat)
      by (apply IH; lia).
    rewrite Nat.mul_succ_r.
    destruct (decide (b ≤ S (length l))%nat); [lia|].
    assert (q = 0)%nat as -> by (destruct q; [done|nia]). lia.
Qed.

Lemma estimated_api_calls_count (n b q : nat) :
  (0 < b)%nat → (n ≤ b * q < n + b)%nat →
  Runner.estimated_api_calls (Z.of_nat n) (Z.of_nat b) = Some (Z.of_nat q).
Proof.
  intros Hb Hq. unfold Runner.estimated_api_calls.
  case_decide; [lia|]. f_equal.
  pose proof (Z.div_mod (Z.of_nat n) (Z.of_nat b)) as Hdm.
  pose proof (Z.mod_pos_bound (Z.of_nat n) (Z.of_nat b)) as Hm.
  case_decide; nia.
Qed.

(** The estimate grows with the number of rows. *)
Lemma estimated_api_calls_mono (n n' batch_size : Z) :
  1 ≤ batch_size → 0 ≤ n' ≤ n →
  ∃ e e', Runner.estimated_api_calls n batch_size = Some e
          ∧ Runner.estimated_api_calls n' batch_size = Some e'
          ∧ 0 ≤ e' ≤ e.
Proof.
  intros Hb Hn. unfold Runner.estimated_api_calls.
  case_decide; [lia|]. eexists _, _. split; [done|]. split; [done|].
  pose proof (Z.div_mod n batch_size) as Hdm.
  pose proof (Z.mod_pos_bound n batch_size) as Hm.
  pose proof (Z.div_mod n' batch_size) as Hdm'.
  pose proof (Z.mod_pos_bound n' batch_size) as Hm'.
  assert (0 ≤ n' `div` batch_size) by (apply Z.div_pos; lia).
  assert (n' `div` batch_size ≤ n `div` batch_size)
    by (apply Z.div_le_mono; lia).
  repeat case_decide; try lia.
  (* n mod b = 0, n' mod b <> 0: n' < n strictly in quotient *)
  assert (n' `div` batch_size < n `div` batch_size); [|lia].
  apply Z.nle_gt. intros Hle.
  assert (n `div` batch_size = n' `div` batch_size) as Heq by lia.
  nia.
Qed.

(** The frame [main] goes on with is the selected slice or a part of it. *)
Lemma frame_to_process_length serializer job_id df_to_process confirm_resume d df :
  Runner.frame_to_process serializer job_id df_to_process confirm_resume d
  = Some df →
  (length df ≤ length df_to_process)%nat
  ∧ (confirm_resume = false
     ∨ (Serializer.find_last_checkpoint serializer job_id d).1 = None →
     df = df_to_process).
Proof.
  unfold Runner.frame_to_process, Serializer.get_resume_point.
  destruct (Serializer.find_last_checkpoint serializer job_id d)
    as [[f|] last] eqn:E; cbn.
  - destruct last; try done. cbn. intros [= <-].
    destruct confirm_resume; cbn.
    + split; [apply length_filter|]. by intros [?|?].
    + split; [done|]. done.
  - intros [= <-]. done.
Qed.

End chunk_count.

Section run_props.
Import Data Processor Examples.

(** X17. However a run of [process_dataframe] ends, it has written no table
    file other than part files of its own job, and the faults of the disk
    are as before. *)
Theorem process_dataframe_frame {M : Type} `{Monitor M} (self : Processor)
    (w : World) (df : list Row) (batch_size : Z)
    (serializer : Serializer.Serializer) (job_id : string)
    (metadata : gmap string json) (pause_event : bool) (mon : M) (n : nat)
    (d : Disk) :
  let st := state_of (process_dataframe self w df batch_size serializer job_id
                        metadata pause_event mon n d) in
  fault (disk st) = fault d
  ∧ ∀ p, (∀ num, p ≠ Serializer.get_checkpoint_filename serializer job_id num) →
         files (disk st) !! p = files d !! p.
Proof.
  apply (process_dataframe_framed self w df batch_size serializer job_id
           metadata pause_event mon n d).
Qed.

(** X18. However the run ends, the parts it has saved lie in pairwise different
    files, and each of them reads back from the disk as the rows it was
    saved with plus the metadata columns: no later part or failed write
    has touched it. *)
Theorem process_dataframe_parts_on_disk {M : Type} `{Monitor M}
    (self : Processor) (w : World) (df : list Row) (batch_size : Z)
    (serializer : Serializer.Serializer) (job_id : string)
    (metadata : gmap string json) (pause_event : bool) (mon : M) (n : nat)
    (d : Disk) :
  let st := state_of (process_dataframe self w df batch_size serializer job_id
                        metadata pause_event mon n d) in
  NoDup (part_file <$> saved st)
  ∧ Forall (λ p, ∃ md, read_csv (disk st) (part_file p)
                       = Some (Serializer.add_metadata (Some md) (part_rows p)))
           (saved st).
Proof.
  intros st.
  destruct (process_dataframe_parts_kept self w df batch_size serializer job_id
              metadata pause_event mon n d) as (_ & Hall & Hnd).
  split; [done|].
  eapply Forall_impl; [exact Hall|].
  intros p (_ & _ & md & Hmd). exists md. unfold read_csv, st. by rewrite Hmd.
Qed.

(** The call count [process_dataframe] returns is the number of batches of
    the frame it is given. *)
Lemma process_dataframe_batch_count {M : Type} `{Monitor M}
    (self : Processor) (w : World) (df : list Row) (batch_size : Z)
    (serializer : Serializer.Serializer) (job_id : string)
    (metadata : gmap string json) (pause_event : bool) (mon : M) (n : nat)
    (d : Disk) (st : Run M) :
  1 ≤ batch_size →
  process_dataframe self w df batch_size serializer job_id metadata pause_event
                    mon n d = Returned st →
  Runner.estimated_api_calls (Z.of_nat (length df)) batch_size
  = Some (api_call_count st).
Proof.
  intros Hb. unfold process_dataframe.
  case_decide; [lia|]. case_decide; [lia|].
  intros E. apply run_batches_api in E. cbn in E. rewrite E.
  unfold chunks, row_indices.
  pose proof (chunks_go_count (length (seq 0 (length df))) (Z.to_nat batch_size)
                (seq 0 (length df))) as Hc.
  rewrite length_seq in Hc.
  rewrite length_seq.
  rewrite <- (Z2Nat.id batch_size) at 1 by lia.
  rewrite Z.add_0_l.
  apply estimated_api_calls_count; [lia|]. apply Hc; lia.
Qed.

(** X19. The call count [process_dataframe] returns is the number of batches of
    the frame it is given, whatever the retries and fallbacks cost: for a
    batch size of at least 1,
    [rows // batch_size + (1 if rows % batch_size else 0)] for its number of
    rows.  The runner computes its estimate with this formula on the
    selected slice, before it asks for a resume point: the count never
    exceeds the estimate, and equals it when the run is not resumed (no
    checkpoint found, or the resume declined). *)
Theorem process_dataframe_api_calls {M : Type} `{Monitor M}
    (self : Processor) (w : World) (df_to_process df : list Row)
    (batch_size : Z) (serializer : Serializer.Serializer) (job_id : string)
    (confirm_resume : bool) (metadata : gmap string json) (pause_event : bool)
    (mon : M) (n : nat) (d : Disk) (st : Run M) :
  1 ≤ batch_size →
  Runner.frame_to_process serializer job_id df_to_process confirm_resume d
  = Some df →
  process_dataframe self w df batch_size serializer job_id metadata pause_event
                    mon n d = Returned st →
  Runner.estimated_api_calls (Z.of_nat (length df)) batch_size
  = Some (api_call_count st)
  ∧ ∃ estimate,
      Runner.estimated_api_calls (Z.of_nat (length df_to_process)) batch_size
      = Some estimate
      ∧ 0 ≤ api_call_count st ≤ estimate
      ∧ (confirm_resume = false
         ∨ (Serializer.find_last_checkpoint serializer job_id d).1 = None →
         api_call_count st = estimate).
Proof.
  intros Hb Hframe Hrun.
  pose proof (process_dataframe_batch_count self w df batch_size serializer
                job_id metadata pause_event mon n d st Hb Hrun) as Hcount.
  split; [done|].
  destruct (frame_to_process_length _ _ _ _ _ _ Hframe) as [Hlen Hsame].
  destruct (estimated_api_calls_mono (Z.of_nat (length df_to_process))
              (Z.of_nat (length df)) batch_size Hb) as (e & e' & He & He' & Hle);
    [lia|].
  exists e. split; [done|].
  rewrite Hcount in He'. injection He' as <-.
  split; [done|].
  intros Hno. rewrite (Hsame Hno) in Hcount. congruence.
Qed.

Lemma process_dataframe_api_calls_witness :
  1 ≤ 2
  ∧ Runner.frame_to_process ex_serializer ex_job (ex_rows 3) true
      ex_disk_one_part = Some [ex_input_row 3]
  ∧ ∃ st, process_dataframe ex_processor ex_world [ex_input_row 3] 2
            ex_serializer ex_job ∅ false (ex_monitor 1) 0%nat ex_disk_one_part
          = Returned st
          ∧ api_call_count st = 1
          ∧ Runner.estimated_api_calls (Z.of_nat (length (ex_rows 3))) 2 = Some 2.
Proof.
  assert (H1 : 1 ≤ 2) by lia.
  assert (H2 : Runner.frame_to_process ex_serializer ex_job (ex_rows 3) true
                 ex_disk_one_part = Some [ex_input_row 3])
    by (vm_compute; reflexivity).
  split; [exact H1|]. split; [exact H2|].
  destruct (process_dataframe ex_processor ex_world [ex_input_row 3] 2
              ex_serializer ex_job ∅ false (ex_monitor 1) 0%nat ex_disk_one_part)
    as [st|st|st] eqn:E;
    [|vm_compute in E; discriminate E|vm_compute in E; discriminate E].
  exists st. split; [reflexivity|].
  destruct (process_dataframe_api_calls ex_processor ex_world (ex_rows 3)
              [ex_input_row 3] 2 ex_serializer ex_job true ∅ false (ex_monitor 1)
              0%nat ex_disk_one_part st H1 H2 E) as (Hc & _).
  split; [|vm_compute; reflexivity].
  assert (He : Runner.estimated_api_calls (Z.of_nat (length [ex_input_row 3])) 2
               = Some 1) by (vm_compute; reflexivity).
  rewrite He in Hc. by injection Hc.
Defined.

(** X20. With no attempt allowed ([retries <= 0]) and a batch size of 2 or
    more, [process_batch] returns [None]; on a non-empty frame
    [process_dataframe] then raises in the first iteration, before any call
    to the client, any result and any part. *)
Theorem process_dataframe_no_attempts {M : Type} `{Monitor M}
    (self : Processor) (w : World) (df : list Row) (batch_size : Z)
    (serializer : Serializer.Serializer) (job_id : string)
    (metadata : gmap string json) (pause_event : bool) (mon : M) (n : nat)
    (d : Disk) :
  retries self ≤ 0 → 2 ≤ batch_size → df ≠ [] →
  pause_event = false ∨ pause_ends w 0 = true →
  (∀ rows k, process_batch self w rows k = (None, k))
  ∧ process_dataframe self w df batch_size serializer job_id metadata
                      pause_event mon n d
    = Raised (mkRun [] 0 0%nat 0 n d mon []).
Proof.
  intros Hr Hb Hdf Hp.
  assert (Hpb : ∀ rows k, process_batch self w rows k = (None, k)).
  { intros rows k. unfold process_batch.
    by replace (Z.to_nat (retries self)) with 0%nat by lia. }
  split; [done|].
  unfold process_dataframe. case_decide; [lia|]. case_decide; [lia|].
  unfold chunks, row_indices. rewrite length_seq.
  destruct df as [|row df']; [done|]. cbn [length].
  rewrite chunks_go_seq by lia. cbn [run_batches].
  unfold process_one_batch.
  rewrite (mapM_lookup_seq (row :: df') 0) by (cbn [length]; lia).
  assert (pause_event && negb (pause_ends w 0) = false) as ->.
  { destruct Hp as [->| ->]; [done|]. by rewrite andb_false_r. }
  rewrite bool_decide_false by lia. by rewrite Hpb.
Qed.

Lemma process_dataframe_no_attempts_witness :
  retries (mkProcessor 0 ∅ ["Topic"] ∅) ≤ 0 ∧ 2 ≤ 2 ∧ ex_rows 3 ≠ []
  ∧ (false = false ∨ pause_ends ex_world 0 = true)
  ∧ process_dataframe (mkProcessor 0 ∅ ["Topic"] ∅) ex_world (ex_rows 3) 2
      ex_serializer ex_job ∅ false (ex_monitor 3) 0%nat ex_disk_empty
    = Raised (mkRun [] 0 0%nat 0 0%nat ex_disk_empty (ex_monitor 3) []).
Proof.
  assert (H1 : retries (mkProcessor 0 ∅ ["Topic"] ∅) ≤ 0) by (cbn; lia).
  assert (H2 : 2 ≤ 2) by lia.
  assert (H3 : ex_rows 3 ≠ []) by (vm_compute; discriminate).
  assert (H4 : false = false ∨ pause_ends ex_world 0 = true) by (by left).
  split; [exact H1|]. split; [exact H2|]. split; [exact H3|]. split; [exact H4|].
  exact (proj2 (process_dataframe_no_attempts (mkProcessor 0 ∅ ["Topic"] ∅)
                  ex_world (ex_rows 3) 2 ex_serializer ex_job ∅ false
                  (ex_monitor 3) 0%nat ex_disk_empty H1 H2 H3 H4)).
Defined.

End run_props.

Section bridge_props.
Import Data Processor.

(** X21. Run with the worker's bridge as monitor, [process_dataframe] records
    every part it saves in the worker's status: however the run ends, the
    [checkpoints] list of the status is the list it started with followed
    by the files of the parts saved, in order, and the monitor's checkpoint
    counter has grown by their number. *)
Theorem bridge_records_checkpoints (self : Processor) (w : World)
    (df : list Row) (batch_size : Z) (serializer : Serializer.Serializer)
    (job_id : string) (metadata : gmap string json) (pause_event : bool)
    (mon : Worker.MonitorBridge) (n : nat) (d : Disk) :
  let st := state_of (process_dataframe self w df batch_size serializer job_id
                        metadata pause_event mon n d) in
  Worker.checkpoints (Worker.status (Worker.worker_status (monitor st)))
  = Worker.checkpoints (Worker.status (Worker.worker_status mon))
    ++ (part_file <$> saved st)
  ∧ Monitor.checkpoints (Worker.monitor (monitor st))
    = Monitor.checkpoints (Worker.monitor mon) + Z.of_nat (length (saved st)).
Proof.
  apply (process_dataframe_R self w df batch_size serializer job_id metadata
           pause_event
           (λ st, Worker.checkpoints (Worker.status (Worker.worker_status (monitor st)))
                  = Worker.checkpoints (Worker.status (Worker.worker_status mon))
                    ++ (part_file <$> saved st)
                  ∧ Monitor.checkpoints (Worker.monitor (monitor st))
                    = Monitor.checkpoints (Worker.monitor mon)
                      + Z.of_nat (length (saved st)))); cbn; try done.
  - intros st c data md [Hc Hk] _. rewrite Hc, Hk, fmap_app, length_app. cbn.
    split; [by rewrite app_assoc|lia].
  - split; [by rewrite app_nil_r|lia].
Qed.

End bridge_props.

Section restart_props.
Import Data Processor.

(** X22. [process_dataframe] numbers its parts from 1 whatever the disk already
    holds: when a run has saved a part, the first one is part 1, and the
    file [part0001] of the job now holds that part's rows, replacing
    whatever was there before the run. *)
Theorem process_dataframe_first_part {M : Type} `{Monitor M} (self : Processor)
    (w : World) (df : list Row) (batch_size : Z)
    (serializer : Serializer.Serializer) (job_id : string)
    (metadata : gmap string json) (pause_event : bool) (mon : M) (n : nat)
    (d : Disk) :
  let st := state_of (process_dataframe self w df batch_size serializer job_id
                        metadata pause_event mon n d) in
  match head (saved st) with
  | Some p =>
      part_num p = 1
      ∧ part_file p = Serializer.get_checkpoint_filename serializer job_id 1
      ∧ ∃ md, read_csv (disk st)
                (Serializer.get_checkpoint_filename serializer job_id 1)
              = Some (Serializer.add_metadata (Some md) (part_rows p))
  | None => True
  end.
Proof.
  intros st.
  pose proof (process_dataframe_weak self w df batch_size serializer job_id
                metadata pause_event (λ _, True) (λ _ _ _ _ _ _, I)
                (λ _ _ _ _, I) mon n d I) as (_ & _ & _ & _ & Hsaved & _).
  destruct (process_dataframe_parts_kept self w df batch_size serializer job_id
              metadata pause_event mon n d) as (_ & Hall & _).
  fold st in Hsaved, Hall.
  destruct (saved st) as [|p ps] eqn:Es; [done|]. cbn [head].
  apply Forall_cons in Hall as [(Hfile & _ & md & Hmd) _].
  destruct (rows_done <$> p :: ps) as [|c cs]; [done|].
  cbn in Hsaved. injection Hsaved as -> _.
  cbn in *. split; [done|]. split; [done|].
  exists md. unfold read_csv. by rewrite Hmd.
Qed.

End restart_props.

(** *** How a worker ends, and what the dashboard reads *)

Section exit_facts.
Import Data Worker.

(** The status object of a worker that has neither completed nor failed:
    its state is one of the first two, and the last document written is
    the current one. *)
Definition live (ws : WorkerStatus) : Prop :=
  (state (status ws) = initializing ∨ state (status ws) = running)
  ∧ last (written ws) = Some (status ws).

Lemma last_written_update f ws : last (written (update f ws)) = Some (f (status ws)).
Proof. rewrite written_update. apply last_snoc. Qed.

Lemma live_update f ws :
  state (f (status ws)) = initializing ∨ state (f (status ws)) = running →
  live (update f ws).
Proof. intros Hs. split; [done|]. apply last_written_update. Qed.

Lemma live_new worker_id : live (new worker_id).
Proof. split; [by left|done]. Qed.

Lemma live_set_progress c a metrics ws :
  live ws → live (set_progress c c a metrics ws).
Proof.
  intros [Hs _]. unfold set_progress.
  destruct metrics as [m|]; by apply live_update.
Qed.

Lemma live_add_checkpoint f ws : live ws → live (add_checkpoint f ws).
Proof.
  intros [Hs _]. unfold add_checkpoint, save. split; [done|]. cbn.
  apply last_snoc.
Qed.

(** What the handler leaves behind: a failed document when monitoring had
    started, nothing new when it had not. *)
Lemma on_exception_exit bridge d :
  live (worker_status bridge) →
  ∃ s, last (written (worker_status (on_exception bridge d).1.2)) = Some s
       ∧ match (on_exception bridge d).1.1 with
         | Failure => state s = failed
         | Crashed => state s = initializing ∨ state s = running
         | _ => False
         end.
Proof.
  intros [Hs Hl]. unfold on_exception.
  destruct (Monitor.finish (monitor bridge)) as [m|]; cbn.
  - eexists. split; [apply last_snoc|done].
  - by eexists.
Qed.

Lemma merge_checkpoints_returns (self : Serializer.Serializer) (job_id : string)
    (output_path : path) (d : Disk) :
  fault d output_path = None →
  ∃ b d', Serializer.merge_checkpoints self job_id output_path d = (Ok b, d').
Proof.
  intros Hf. unfold Serializer.merge_checkpoints.
  destruct (Serializer.list_checkpoints self job_id d); [by eexists _, _|].
  destruct (omap _ _); [by eexists _, _|].
  unfold to_csv. rewrite Hf. by eexists _, _.
Qed.

Lemma run_exit_state (cfg : Config) (env : Env) :
  ∃ s, last (documents cfg env) = Some s
       ∧ match (run cfg env).1.1 with
         | Success => state s = completed
         | Failure => state s = failed
         | Crashed | Hung => state s = initializing ∨ state s = running
         end.
Proof.
  unfold documents, run.
  pose proof (live_new (cfg_worker_id cfg)) as H0.
  assert (Hexc : ∀ bridge d,
            live (worker_status bridge) →
            ∃ s, last (written (worker_status (on_exception bridge d).1.2)) = Some s
                 ∧ match (on_exception bridge d).1.1 with
                   | Success => state s = completed
                   | Failure => state s = failed
                   | Crashed | Hung => state s = initializing ∨ state s = running
                   end).
  { intros bridge d Hl. destruct (on_exception_exit bridge d Hl) as (s & Hs & He).
    exists s. split; [done|]. by destruct ((on_exception bridge d).1.1). }
  destruct (prompts_config env) as [[[vr cc] nad]|]; [|by apply Hexc].
  destruct (input_file env) as [input|]; [|by apply Hexc].
  set (df := load_data cfg input).
  case_decide as Hz.
  { cbn [fst snd worker_status]. eexists. split; [apply last_written_update|done]. }
  set (ws1 := update (set_rows (cfg_row_start cfg) (cfg_row_end cfg))
                (new (cfg_worker_id cfg))).
  set (n := Z.of_nat (length df)) in *.
  assert (H2 : live (worker_status (bridge_start n (mkBridge Monitor.init ws1)))).
  { apply live_update. by right. }
  cbn [monitor worker_status].
  destruct (ollama_up env); cbn [negb]; [|by apply Hexc].
  set (Q := λ b : MonitorBridge, live (worker_status b)).
  assert (HQu : ∀ (c : nat) a metrics m,
             (c ≤ length df)%nat → Q m →
             Q (Processor.update_progress (Z.of_nat c) (Z.of_nat (length df))
                  a metrics m)).
  { intros c a metrics m Hc Hm.
    by apply (live_set_progress (Z.of_nat c) a (Some metrics) (worker_status m)). }
  assert (HQr : ∀ num f m, Q m → Q (Processor.record_checkpoint num f m)).
  { intros num f m Hm. by apply (live_add_checkpoint f (worker_status m)). }
  pose proof (process_dataframe_weak
                (Processor.mkProcessor (cfg_retries cfg) vr cc nad) (world env) df
                (cfg_batch_size cfg)
                (Serializer.mkSerializer (cfg_checkpoint_dir cfg)
                                         (cfg_checkpoint_interval cfg))
                (job_id cfg) (metadata cfg) true Q HQu HQr
                (bridge_start n (mkBridge Monitor.init ws1)) 0%nat (disk0 env) H2)
    as Hweak.
  destruct (Processor.process_dataframe _ _ _ _ _ _ _ _ _ _ _) as [st|st|st];
    cbn [Processor.state_of] in Hweak;
    destruct Hweak as (_ & _ & _ & _ & _ & HQ);
    [|by apply Hexc|].
  2:{ cbn [fst snd]. exists (status (worker_status (Processor.monitor st))).
      split; [apply HQ|apply HQ]. }
  destruct (Serializer.merge_checkpoints _ _ _ _) as [[b|] d]; [|by apply Hexc].
  destruct (Monitor.finish _) as [m|] eqn:Ef; [|by apply Hexc].
  cbn [fst snd worker_status]. eexists. split; [apply last_written_update|done].
Qed.

End exit_facts.

Section worker_props.
Import Data Worker Examples.

(** X23. The last status document tells how [run] ended: it says [completed]
    exactly when [run] returns success and [failed] exactly when it returns
    failure; when [run] is left by an exception or never returns, the last
    document still says [initializing] or [running]. *)
Theorem run_exit_in_status (cfg : Config) (env : Env) :
  ∃ s, last (documents cfg env) = Some s
       ∧ ((run cfg env).1.1 = Success ↔ state s = completed)
       ∧ ((run cfg env).1.1 = Failure ↔ state s = failed)
       ∧ ((run cfg env).1.1 = Crashed ∨ (run cfg env).1.1 = Hung
          ↔ state s = initializing ∨ state s = running).
Proof.
  destruct (run_exit_state cfg env) as (s & Hs & He).
  exists s. split; [done|].
  destruct ((run cfg env).1.1); try destruct He as [He|He]; rewrite He;
    (repeat split; intros; try done; try (by left); try (by right);
     repeat match goal with Hor : _ ∨ _ |- _ => destruct Hor end; done).
Qed.

(** X24. A worker that cannot load its prompts configuration or its input is
    left by an exception raised in its own exception handler
    ([monitor.finish()] before [monitor.start()]): it writes no checkpoint
    and no output, and the only status document it ever writes says
    [initializing], never [failed]. *)
Theorem run_fails_before_start (cfg : Config) (env : Env) :
  prompts_config env = None ∨ input_file env = None →
  run cfg env
  = (Crashed, mkBridge Monitor.init (new (cfg_worker_id cfg)), disk0 env)
  ∧ state <$> documents cfg env = [initializing].
Proof.
  intros Hnone. unfold documents, run.
  destruct (prompts_config env) as [[[vr cc] nad]|]; [|done].
  destruct Hnone as [|Hin]; [done|]. by rewrite Hin.
Qed.

Lemma run_fails_before_start_witness :
  (prompts_config (mkEnv None None true ex_world ex_disk_empty) = None
   ∨ input_file (mkEnv None None true ex_world ex_disk_empty) = None)
  ∧ state <$> documents ex_config (mkEnv None None true ex_world ex_disk_empty)
    = [initializing].
Proof.
  assert (H1 : prompts_config (mkEnv None None true ex_world ex_disk_empty) = None
               ∨ input_file (mkEnv None None true ex_world ex_disk_empty) = None)
    by (by left).
  split; [exact H1|].
  exact (proj2 (run_fails_before_start ex_config
                  (mkEnv None None true ex_world ex_disk_empty) H1)).
Defined.

(** X25. A worker whose row range selects no input row reports success at once:
    it writes one [completed] document with 0 rows and no output file, and
    writes no checkpoint and no output. *)
Theorem run_empty_range (cfg : Config) (env : Env) pc (input : InputTable) :
  prompts_config env = Some pc → input_file env = Some input →
  load_data cfg input = [] →
  (run cfg env).1.1 = Success
  ∧ (run cfg env).2 = disk0 env
  ∧ (λ s, (state s, rows_processed s, Worker.total_rows s, output_file s))
      <$> documents cfg env
    = [(initializing, 0, 0, None); (completed, 0, 0, None)].
Proof.
  intros Hpc Hin Hdf. unfold documents, run. rewrite Hpc, Hin, Hdf.
  by destruct pc as [[vr cc] nad].
Qed.

Lemma run_empty_range_witness :
  prompts_config ex_env = Some (∅, ["Booking_Related"; "Topic"], ∅)
  ∧ input_file ex_env = Some (mkInput true (ex_rows 3))
  ∧ load_data (mkConfig 1 7 9 2 "checkpoints" 2 3 "model" "run"
                        ("output", "output_w1.csv"))
              (mkInput true (ex_rows 3)) = []
  ∧ (run (mkConfig 1 7 9 2 "checkpoints" 2 3 "model" "run"
                   ("output", "output_w1.csv")) ex_env).1.1 = Success.
Proof.
  assert (H1 : prompts_config ex_env = Some (∅, ["Booking_Related"; "Topic"], ∅))
    by reflexivity.
  assert (H2 : input_file ex_env = Some (mkInput true (ex_rows 3))) by reflexivity.
  assert (H3 : load_data (mkConfig 1 7 9 2 "checkpoints" 2 3 "model" "run"
                                   ("output", "output_w1.csv"))
                         (mkInput true (ex_rows 3)) = [])
    by (vm_compute; reflexivity).
  split; [exact H1|]. split; [exact H2|]. split; [exact H3|].
  exact (proj1 (run_empty_range _ ex_env _ _ H1 H2 H3)).
Defined.

(** X26. A worker given a negative batch size processes nothing and still
    reports success: [range()] with a negative step is empty, so with rows
    to process, a reachable model server and an output path that can be
    written, [run] returns success and its last document says [completed]
    with 0 of the rows processed. *)
Theorem run_negative_batch_size (cfg : Config) (env : Env) pc
    (input : InputTable) :
  cfg_batch_size cfg < 0 →
  prompts_config env = Some pc → input_file env = Some input →
  load_data cfg input ≠ [] → ollama_up env = true →
  fault (disk0 env) (cfg_output_path cfg) = None →
  (run cfg env).1.1 = Success
  ∧ ∃ s, last (documents cfg env) = Some s
         ∧ state s = completed
         ∧ rows_processed s = 0
         ∧ Worker.total_rows s = Z.of_nat (length (load_data cfg input))
         ∧ 0 < Worker.total_rows s.
Proof.
  intros Hb Hpc Hin Hdf Hup Hf. unfold documents, run.
  rewrite Hpc, Hin, Hup. destruct pc as [[vr cc] nad].
  assert (Hlen : Z.of_nat (length (load_data cfg input)) ≠ 0).
  { destruct (load_data cfg input); [done|cbn; lia]. }
  rewrite decide_False by done. cbn [negb].
  unfold Processor.process_dataframe.
  rewrite decide_False by lia. rewrite decide_True by lia.
  cbn [Processor.disk Processor.monitor Processor.results].
  destruct (merge_checkpoints_returns
              (Serializer.mkSerializer (cfg_checkpoint_dir cfg)
                                       (cfg_checkpoint_interval cfg))
              (job_id cfg) (cfg_output_path cfg) (disk0 env) Hf)
    as (b & d' & ->).
  cbn. split; [done|]. eexists. split; [reflexivity|].
  cbn. split; [done|]. split; [done|]. split; [done|]. lia.
Qed.

Lemma run_negative_batch_size_witness :
  cfg_batch_size (mkConfig 1 1 3 (-2) "checkpoints" 2 3 "model" "run"
                           ("output", "output_w1.csv")) < 0
  ∧ prompts_config ex_env = Some (∅, ["Booking_Related"; "Topic"], ∅)
  ∧ input_file ex_env = Some (mkInput true (ex_rows 3))
  ∧ load_data (mkConfig 1 1 3 (-2) "checkpoints" 2 3 "model" "run"
                        ("output", "output_w1.csv"))
              (mkInput true (ex_rows 3)) ≠ []
  ∧ ollama_up ex_env = true
  ∧ fault (disk0 ex_env) (cfg_output_path
                            (mkConfig 1 1 3 (-2) "checkpoints" 2 3 "model" "run"
                                      ("output", "output_w1.csv"))) = None
  ∧ (run (mkConfig 1 1 3 (-2) "checkpoints" 2 3 "model" "run"
                   ("output", "output_w1.csv")) ex_env).1.1 = Success.
Proof.
  assert (H1 : cfg_batch_size (mkConfig 1 1 3 (-2) "checkpoints" 2 3 "model" "run"
                                        ("output", "output_w1.csv")) < 0)
    by (cbn; lia).
  assert (H2 : prompts_config ex_env = Some (∅, ["Booking_Related"; "Topic"], ∅))
    by reflexivity.
  assert (H3 : input_file ex_env = Some (mkInput true (ex_rows 3))) by reflexivity.
  assert (H4 : load_data (mkConfig 1 1 3 (-2) "checkpoints" 2 3 "model" "run"
                                   ("output", "output_w1.csv"))
                         (mkInput true (ex_rows 3)) ≠ [])
    by (vm_compute; discriminate).
  assert (H5 : ollama_up ex_env = true) by reflexivity.
  assert (H6 : fault (disk0 ex_env)
                 (cfg_output_path (mkConfig 1 1 3 (-2) "checkpoints" 2 3 "model"
                                            "run" ("output", "output_w1.csv")))
               = None) by reflexivity.
  split; [exact H1|]. split; [exact H2|]. split; [exact H3|]. split; [exact H4|].
  split; [exact H5|]. split; [exact H6|].
  exact (proj1 (run_negative_batch_size _ ex_env _ _ H1 H2 H3 H4 H5 H6)).
Defined.

End worker_props.

Section dashboard_facts.
Import Data Worker Dashboard.

Definition completed_rows (statuses : list (Z * Status)) : Z :=
  foldr Z.add 0
    ((λ item : Z * Status, rows_processed item.2)
       <$> filter (λ item : Z * Status, state item.2 = completed) statuses).

Lemma collect_results_fold (statuses : list (Z * Status)) : ∀ acc : Results,
  successful (foldl collect_step acc statuses)
  = successful acc
    ++ (fst <$> filter (λ item : Z * Status, state item.2 = completed) statuses)
  ∧ Dashboard.failed (foldl collect_step acc statuses)
    = Dashboard.failed acc
      ++ (fst <$> filter (λ item : Z * Status, state item.2 = Worker.failed) statuses)
  ∧ Dashboard.total_rows (foldl collect_step acc statuses)
    = Dashboard.total_rows acc + completed_rows statuses.
Proof.
  unfold completed_rows.
  induction statuses as [|[id s] statuses IH]; intros acc.
  - cbn. rewrite !app_nil_r. split; [done|]. split; [done|lia].
  - cbn [foldl]. destruct (IH (collect_step acc (id, s))) as (H1 & H2 & H3).
    rewrite H1, H2, H3. unfold collect_step.
    destruct (state s) eqn:Es.
    + rewrite !filter_cons_False by (cbn; congruence). done.
    + rewrite !filter_cons_False by (cbn; congruence). done.
    + rewrite filter_cons_True by done.
      rewrite filter_cons_False by (cbn; congruence).
      cbn. rewrite <- app_assoc. split; [done|]. split; [done|lia].
    + rewrite filter_cons_False by (cbn; congruence).
      rewrite filter_cons_True by done.
      cbn. rewrite <- app_assoc. done.
Qed.

Lemma completed_rows_all (statuses : list (Z * Status)) (f : Z * Status → Z) :
  Forall (λ item, state item.2 = completed ∧ rows_processed item.2 = f item)
         statuses →
  completed_rows statuses = foldr Z.add 0 (f <$> statuses).
Proof.
  unfold completed_rows. induction statuses as [|item statuses IH]; [done|].
  intros [[Hs Hr] Hall]%Forall_cons.
  rewrite filter_cons_True by done. cbn. rewrite IH by done. lia.
Qed.

Lemma sum_lengths {A} (ls : list (list A)) :
  foldr Z.add 0 ((λ l, Z.of_nat (length l)) <$> ls) = Z.of_nat (length (concat ls)).
Proof.
  induction ls as [|l ls IH]; [done|]. cbn. rewrite length_app, IH. lia.
Qed.

(** The last document of a worker that returns success after running with
    a batch size of at least 1 counts every row it loaded. *)
Lemma run_success_rows (cfg : Config) (env : Env) (input : InputTable) :
  (run cfg env).1.1 = Success → 1 ≤ cfg_batch_size cfg →
  input_file env = Some input →
  ∃ s, last (documents cfg env) = Some s
       ∧ state s = completed
       ∧ rows_processed s = Z.of_nat (length (load_data cfg input)).
Proof.
  unfold documents, run. intros Hexit Hb Hin. rewrite Hin in *.
  assert (Hexc : ∀ bridge d, (on_exception bridge d).1.1 ≠ Success).
  { intros bridge d. unfold on_exception. by destruct (Monitor.finish _). }
  destruct (prompts_config env) as [[[vr cc] nad]|]; [|by apply Hexc in Hexit].
  set (df := load_data cfg input) in *.
  case_decide as Hz.
  { cbn [fst snd worker_status]. eexists. split; [apply last_snoc|].
    split; [done|]. cbn. lia. }
  destruct (ollama_up env); cbn [negb] in *; [|by apply Hexc in Hexit].
  set (mon := bridge_start _ _) in *.
  pose proof (process_dataframe_returned
                (Processor.mkProcessor (cfg_retries cfg) vr cc nad) (world env) df
                (cfg_batch_size cfg)
                (Serializer.mkSerializer (cfg_checkpoint_dir cfg)
                                         (cfg_checkpoint_interval cfg))
                (job_id cfg) (metadata cfg) true (λ _, True)
                (λ _ _ _ _ _ _, I) (λ _ _ _ _, I) mon 0%nat (disk0 env))
    as Hret.
  destruct (Processor.process_dataframe _ _ _ _ _ _ _ _ _ _ _) as [st|st|st];
    [|by apply Hexc in Hexit|done].
  destruct (Hret st I Hb eq_refl) as ((_ & Hres & _) & _).
  destruct (Serializer.merge_checkpoints _ _ _ _) as [[b|] d];
    [|by apply Hexc in Hexit].
  destruct (Monitor.finish _) as [m|]; [|by apply Hexc in Hexit].
  cbn [fst snd worker_status]. eexists. split; [apply last_snoc|].
  split; [done|]. cbn. by rewrite Hres.
Qed.

End dashboard_facts.

Section dashboard_props.
Import Data Worker Dashboard Examples.

(** X27. [collect_results] lists as successful the workers whose status says
    [completed] and as failed those whose status says [failed], each in the
    order read, and adds up the [rows_processed] of the completed ones; a
    worker whose status says anything else is in neither list and adds
    nothing. *)
Theorem collect_results_counts (statuses : list (Z * Status)) :
  successful (collect_results statuses)
  = fst <$> filter (λ item : Z * Status, state item.2 = completed) statuses
  ∧ Dashboard.failed (collect_results statuses)
    = fst <$> filter (λ item : Z * Status, state item.2 = Worker.failed) statuses
  ∧ Dashboard.total_rows (collect_results statuses)
    = foldr Z.add 0
        ((λ item : Z * Status, rows_processed item.2)
           <$> filter (λ item : Z * Status, state item.2 = completed) statuses).
Proof.
  unfold collect_results.
  destruct (collect_results_fold statuses (mkResults [] [] 0 0 []))
    as (H1 & H2 & H3).
  rewrite H1, H2, H3. done.
Qed.

(** X28. From plan to report, without a [RowID] column: when every worker of the
    plan for the whole table returns success, each run with a batch size
    of at least 1, the total that [collect_results] reports from their last
    status documents is the number of rows of the input table. *)
Theorem collect_results_all_rows (num_workers : Z) (input : InputTable)
    (cfg_of : Orchestrator.Range → Config) (env_of : Orchestrator.Range → Env)
    (rs : list Orchestrator.Range) :
  1 ≤ num_workers → has_RowID input = false →
  Orchestrator.calculate_row_ranges (Z.of_nat (length (table input))) num_workers
  = Some rs →
  (∀ r, cfg_row_start (cfg_of r) = Orchestrator.start r
        ∧ cfg_row_end (cfg_of r) = Orchestrator.end_ r
        ∧ 1 ≤ cfg_batch_size (cfg_of r)
        ∧ input_file (env_of r) = Some input) →
  (∀ r, r ∈ rs → (run (cfg_of r) (env_of r)).1.1 = Success) →
  ∃ statuses,
    Forall2 (λ r item, item.1 = Orchestrator.worker_id r
                       ∧ last (documents (cfg_of r) (env_of r)) = Some item.2)
            rs statuses
    ∧ Dashboard.total_rows (collect_results statuses)
      = Z.of_nat (length (table input))
    ∧ Dashboard.failed (collect_results statuses) = [].
Proof.
  intros Hn Hno Hrs Hcfg Hok.
  assert (Hdocs : ∀ r, r ∈ rs →
            ∃ s, last (documents (cfg_of r) (env_of r)) = Some s
                 ∧ state s = completed
                 ∧ rows_processed s
                   = Z.of_nat (length (load_data (cfg_of r) input))).
  { intros r Hr. destruct (Hcfg r) as (_ & _ & Hb & Hin).
    by apply run_success_rows; [apply Hok| |]. }
  assert (Hst : ∃ statuses : list (Z * Status),
            Forall2 (λ r item, item.1 = Orchestrator.worker_id r
                               ∧ last (documents (cfg_of r) (env_of r)) = Some item.2
                               ∧ state item.2 = completed
                               ∧ rows_processed item.2
                                 = Z.of_nat (length (load_data (cfg_of r) input)))
                    rs statuses).
  { clear Hrs Hok. induction rs as [|r rs IH].
    - exists []. constructor.
    - destruct IH as [statuses Hall];
        [intros r' Hr'; apply Hdocs; by right|].
      destruct (Hdocs r) as (s & Hs); [by left|].
      exists ((Orchestrator.worker_id r, s) :: statuses).
      constructor; [split; [done|exact Hs]|done]. }
  destruct Hst as [statuses Hall]. exists statuses. split.
  { eapply Forall2_impl; [exact Hall|]. intros r item (? & ? & _). by split. }
  destruct (collect_results_fold statuses (mkResults [] [] 0 0 []))
    as (_ & Hfailed & Htotal).
  unfold collect_results. rewrite Hfailed, Htotal. cbn [Dashboard.total_rows app].
  assert (Hlen : length (concat ((λ r, load_data (cfg_of r) input) <$> rs))
                 = length (table input)).
  { apply (positional_plan_rows num_workers input cfg_of rs Hn Hno); [|done].
    intros r. destruct (Hcfg r) as (? & ? & _). by split. }
  split.
  - rewrite Z.add_0_l. rewrite <- Hlen.
    rewrite <- sum_lengths. rewrite <- list_fmap_compose.
    clear Hlen Hrs Hok Hdocs Hfailed Htotal.
    unfold completed_rows.
    induction Hall as [|r item rs statuses (_ & _ & Hs & Hr) Hall IH]; [done|].
    rewrite filter_cons_True by done. cbn. rewrite IH, Hr. done.
  - clear Hlen Hrs Hok Hdocs Hfailed Htotal.
    induction Hall as [|r item rs statuses (_ & _ & Hs & Hr) Hall IH]; [done|].
    rewrite filter_cons_False by (rewrite Hs; discriminate). done.
Qed.

Lemma collect_results_all_rows_witness :
  1 ≤ 2
  ∧ has_RowID (mkInput false (ex_rows 3)) = false
  ∧ Orchestrator.calculate_row_ranges
      (Z.of_nat (length (table (mkInput false (ex_rows 3))))) 2
    = Some [Orchestrator.mkRange 1 2 1; Orchestrator.mkRange 3 3 2]
  ∧ (∀ r, r ∈ [Orchestrator.mkRange 1 2 1; Orchestrator.mkRange 3 3 2] →
          (run (mkConfig (Orchestrator.worker_id r) (Orchestrator.start r)
                         (Orchestrator.end_ r) 2 "checkpoints" 2 3 "model" "run"
                         ("output", "out.csv"))
               (mkEnv (Some (∅, ["Booking_Related"; "Topic"], ∅))
                      (Some (mkInput false (ex_rows 3))) true ex_world
                      ex_disk_empty)).1.1 = Success)
  ∧ ∃ statuses,
      Dashboard.total_rows (collect_results statuses)
      = Z.of_nat (length (table (mkInput false (ex_rows 3))))
      ∧ Dashboard.failed (collect_results statuses) = [].
Proof.
  assert (H1 : 1 ≤ 2) by lia.
  assert (H2 : has_RowID (mkInput false (ex_rows 3)) = false) by reflexivity.
  assert (H3 : Orchestrator.calculate_row_ranges
                 (Z.of_nat (length (table (mkInput false (ex_rows 3))))) 2
               = Some [Orchestrator.mkRange 1 2 1; Orchestrator.mkRange 3 3 2])
    by (vm_compute; reflexivity).
  assert (H4 : ∀ r,
            cfg_row_start (mkConfig (Orchestrator.worker_id r) (Orchestrator.start r)
                             (Orchestrator.end_ r) 2 "checkpoints" 2 3 "model" "run"
                             ("output", "out.csv")) = Orchestrator.start r
            ∧ cfg_row_end (mkConfig (Orchestrator.worker_id r) (Orchestrator.start r)
                             (Orchestrator.end_ r) 2 "checkpoints" 2 3 "model" "run"
                             ("output", "out.csv")) = Orchestrator.end_ r
            ∧ 1 ≤ cfg_batch_size
                    (mkConfig (Orchestrator.worker_id r) (Orchestrator.start r)
                       (Orchestrator.end_ r) 2 "checkpoints" 2 3 "model" "run"
                       ("output", "out.csv"))
            ∧ input_file (mkEnv (Some (∅, ["Booking_Related"; "Topic"], ∅))
                            (Some (mkInput false (ex_rows 3))) true ex_world
                            ex_disk_empty)
              = Some (mkInput false (ex_rows 3))).
  { intros r. split; [reflexivity|]. split; [reflexivity|].
    split; [cbn; lia|reflexivity]. }
  assert (H5 : ∀ r, r ∈ [Orchestrator.mkRange 1 2 1; Orchestrator.mkRange 3 3 2] →
            (run (mkConfig (Orchestrator.worker_id r) (Orchestrator.start r)
                           (Orchestrator.end_ r) 2 "checkpoints" 2 3 "model" "run"
                           ("output", "out.csv"))
                 (mkEnv (Some (∅, ["Booking_Related"; "Topic"], ∅))
                        (Some (mkInput false (ex_rows 3))) true ex_world
                        ex_disk_empty)).1.1 = Success).
  { intros r Hr. apply elem_of_cons in Hr as [->|Hr]; [vm_compute; reflexivity|].
    apply list_elem_of_singleton in Hr as ->. vm_compute; reflexivity. }
  split; [exact H1|]. split; [exact H2|]. split; [exact H3|]. split; [exact H5|].
  destruct (collect_results_all_rows 2 (mkInput false (ex_rows 3))
              (λ r, mkConfig (Orchestrator.worker_id r) (Orchestrator.start r)
                      (Orchestrator.end_ r) 2 "checkpoints" 2 3 "model" "run"
                      ("output", "out.csv"))
              (λ _, mkEnv (Some (∅, ["Booking_Related"; "Topic"], ∅))
                      (Some (mkInput false (ex_rows 3))) true ex_world
                      ex_disk_empty)
              _ H1 H2 H3 H4 H5) as (statuses & _ & Ht & Hf).
  exists statuses. split; [exact Ht|exact Hf].
Defined.

(** X29. A worker that failed before monitoring started never lets the
    dashboard finish: its status file keeps a document that says neither
    [completed] nor [failed], so the [all_done] test of [monitor_workers]
    is false for every set of statuses that includes it. *)
Theorem all_done_never_after_crash (cfg : Config) (env : Env) :
  prompts_config env = None ∨ input_file env = None →
  ∃ s, last (documents cfg env) = Some s
       ∧ ∀ before after, all_done (before ++ s :: after) = false.
Proof.
  intros Hnone.
  assert (Hd : documents cfg env
               = [status (new (cfg_worker_id cfg))]).
  { unfold documents, run.
    destruct (prompts_config env) as [[[vr cc] nad]|]; [|done].
    destruct Hnone as [|Hin]; [done|]. by rewrite Hin. }
  rewrite Hd. eexists. split; [reflexivity|].
  intros before after. unfold all_done.
  rewrite forallb_app. cbn. rewrite andb_false_r. done.
Qed.

Lemma all_done_never_after_crash_witness :
  (prompts_config (mkEnv None None true ex_world ex_disk_empty) = None
   ∨ input_file (mkEnv None None true ex_world ex_disk_empty) = None)
  ∧ ∃ s, last (documents ex_config (mkEnv None None true ex_world ex_disk_empty))
         = Some s
         ∧ ∀ before after, all_done (before ++ s :: after) = false.
Proof.
  assert (H1 : prompts_config (mkEnv None None true ex_world ex_disk_empty) = None
               ∨ input_file (mkEnv None None true ex_world ex_disk_empty) = None)
    by (by left).
  split; [exact H1|].
  exact (all_done_never_after_crash ex_config
           (mkEnv None None true ex_world ex_disk_empty) H1).
Defined.

End dashboard_props.
